(** * liststore: the sharded edge store (edgestore.py)

    A shallow embedding of [EdgeStoreShard] and [EdgeStore] and of the SQL
    statements they issue, with the properties of the revision protocol,
    index maintenance, routing and locking stated against it. *)

From Stdlib Require Import ZArith String List Lia Sorted.
From stdpp Require Import base option list gmap strings.

Local Open Scope string_scope.
Local Open Scope Z_scope.

(** ** Python exceptions and the state-and-exception monad *)

Inductive exn : Type :=
| AttributeError (attr : string)
| NameError (name : string)
| AssertionError (msg : string)
| KeyError
| IndexError
| ZeroDivisionError
| IntegrityError (table : string)
| TypeError (msg : string).

(** A computation over a mutable store [S]: it ends with a value or with a
    raised exception, and in both cases leaves a store behind (an exception
    does not undo assignments already made). *)
Definition M (S A : Type) : Type := S → (exn + A) * S.

Definition ret {S A} (a : A) : M S A := λ s, (inr a, s).

Definition raise {S A} (e : exn) : M S A := λ s, (inl e, s).

Definition bind {S A B} (m : M S A) (k : A → M S B) : M S B :=
  λ s, match m s with
       | (inr a, s') => k a s'
       | (inl e, s') => (inl e, s')
       end.

Definition gets {S A} (f : S → A) : M S A := λ s, (inr (f s), s).

Definition modify {S} (f : S → S) : M S unit := λ s, (inr tt, f s).

Declare Scope py_scope.
Delimit Scope py_scope with py.
Notation "'do' x <- m ; k" := (bind m (λ x, k))
  (at level 10, x name, m at level 100, k at level 200,
   format "'[v' 'do'  x  <-  m ; '/' k ']'") : py_scope.
Notation "'do' ' p <- m ; k" := (bind m (λ x, match x with p => k end))
  (at level 10, p pattern, m at level 100, k at level 200,
   format "'[v' 'do'  ' p  <-  m ; '/' k ']'") : py_scope.
Notation "m ;; k" := (bind m (λ _, k))
  (at level 100, k at level 200, right associativity) : py_scope.
Local Open Scope py_scope.

(** [assert cond, msg] *)
Definition assert {S} (cond : bool) (msg : string) : M S unit :=
  if cond then ret tt else raise (AssertionError msg).

(** [try: body finally: cleanup]: the cleanup runs on both exits; an
    exception raised by the cleanup replaces the pending one. *)
Definition try_finally {S A} (body : M S A) (cleanup : M S unit) : M S A :=
  λ s, match body s with
       | (r, s') =>
           match cleanup s' with
           | (inr _, s'') => (r, s'')
           | (inl e, s'') => (inl e, s'')
           end
       end.

(** [for x in xs: body x] *)
Fixpoint for_each {S A} (xs : list A) (body : A → M S unit) : M S unit :=
  match xs with
  | [] => ret tt
  | x :: xs' => body x ;; for_each xs' body
  end.

(** Run a computation over a component [T] of the store [S]. *)
Definition zoom {S T A} (get : S → T) (set : T → S → S) (m : M T A) : M S A :=
  λ s, match m (get s) with (r, t) => (r, set t s) end.

(** Python truth value of an integer, and of an optional one ([None] is
    false). *)
Definition truthy (z : Z) : bool := negb (z =? 0).

Definition truthy_opt (o : option Z) : bool :=
  match o with Some z => truthy z | None => false end.

(** ** The persistent schema *)

(** An edge tuple [(edgetype, gid1, gid2, revision, encoding, data)]. *)
Module Edge.
Record t : Type := mk
  { edgetype : Z; gid1 : Z; gid2 : Z; revision : Z; encoding : Z; data : string }.
Definition key (e : t) : Z * Z * Z := (edgetype e, gid1 e, gid2 e).
End Edge.

(** The non-key columns of an [edgedata] row. *)
Module EdgeData.
Record t : Type := mk { revision : Z; encoding : Z; data : string }.
Definition of_edge (e : Edge.t) : t :=
  mk (Edge.revision e) (Edge.encoding e) (Edge.data e).
Definition to_edge (k : Z * Z * Z) (c : t) : Edge.t :=
  let '(et, g1, g2) := k in Edge.mk et g1 g2 (revision c) (encoding c) (data c).
End EdgeData.

(** The non-key columns of an [edgemeta] row. *)
Module EdgeMeta.
Record t : Type := mk { revision : Z; count : Z }.
End EdgeMeta.

Module EdgeIndex.
Record t : Type := mk
  { indextype : Z; indexvalue : string; gid1 : Z; revision : Z }.
End EdgeIndex.

Global Instance Edge_eq_dec : EqDecision Edge.t.
Proof. solve_decision. Defined.
Global Instance EdgeData_eq_dec : EqDecision EdgeData.t.
Proof. solve_decision. Defined.
Global Instance EdgeMeta_eq_dec : EqDecision EdgeMeta.t.
Proof. solve_decision. Defined.
Global Instance EdgeIndex_eq_dec : EqDecision EdgeIndex.t.
Proof. solve_decision. Defined.

(** Modelled from the spec: the table definitions are not among the sources;
    the columns are those the statements name, the keys those of section 3
    of the specification.  [edgedata] has primary key
    [(edgetype, gid1, gid2)], [edgemeta] has primary key [(edgetype, gid1)],
    [colo] has primary key [colo]; [edgeindex] has no uniqueness constraint,
    so it is kept as the list of its rows. *)
Record Tables : Type := mkTables
  { edgedata : gmap (Z * Z * Z) EdgeData.t;
    edgemeta : gmap (Z * Z) EdgeMeta.t;
    edgeindex : list EdgeIndex.t;
    colo : gmap Z Z }.

Definition no_tables : Tables := mkTables ∅ ∅ [] ∅.

Definition set_edgedata (f : gmap (Z * Z * Z) EdgeData.t → gmap (Z * Z * Z) EdgeData.t)
    (t : Tables) : Tables :=
  mkTables (f (edgedata t)) (edgemeta t) (edgeindex t) (colo t).

Definition set_edgemeta (f : gmap (Z * Z) EdgeMeta.t → gmap (Z * Z) EdgeMeta.t)
    (t : Tables) : Tables :=
  mkTables (edgedata t) (f (edgemeta t)) (edgeindex t) (colo t).

Definition set_edgeindex (f : list EdgeIndex.t → list EdgeIndex.t) (t : Tables) : Tables :=
  mkTables (edgedata t) (edgemeta t) (f (edgeindex t)) (colo t).

Definition set_colo (f : gmap Z Z → gmap Z Z) (t : Tables) : Tables :=
  mkTables (edgedata t) (edgemeta t) (edgeindex t) (f (colo t)).

(** ** The connection *)

(** Modelled from the spec: the driver [lib.edgestore.db] and the database
    behind it are not among the sources.  Section 6 of the specification
    gives the contract: a connection carries the tables, the register that
    [LAST_INSERT_ID(expr)] writes and [getLastInsertID()] reads, the count
    of rows changed by the last statement, and whether a transaction is
    open. *)
Record Connection : Type := mkConnection
  { tables : Tables;
    last_insert_id : Z;
    affected_rows : Z;
    ongoing_transaction : bool }.

Definition fresh_connection : Connection := mkConnection no_tables 0 0 false.

Definition set_tables (f : Tables → Tables) (d : Connection) : Connection :=
  mkConnection (f (tables d)) (last_insert_id d) (affected_rows d) (ongoing_transaction d).

Definition set_last_insert_id (z : Z) (d : Connection) : Connection :=
  mkConnection (tables d) z (affected_rows d) (ongoing_transaction d).

Definition set_affected_rows (z : Z) (d : Connection) : Connection :=
  mkConnection (tables d) (last_insert_id d) z (ongoing_transaction d).

Definition set_ongoing_transaction (b : bool) (d : Connection) : Connection :=
  mkConnection (tables d) (last_insert_id d) (affected_rows d) b.

(** ** The SQL statements of [EdgeStoreShard]

    One constructor per statement text, named as the class attribute that
    holds it and applied to the parameters that fill its [%s] places. *)
Inductive Statement : Type :=
| _generateGidSQL (colo start : Z)
| _addSQL (edgedata : Edge.t)
| _addOverwriteSQL (edgedata : Edge.t)
| _uniqueIndexSQL (indextype : Z) (indexvalue : string)
| _deleteIndexSQL (indextype gid1 revision : Z)
| _addIndexSQL (indextype : Z) (indexvalue : string) (gid1 revision : Z)
| _deleteSQL (edgetype gid1 gid2 : Z)
| _lastInsertIDSQL
| _listSQL (edgetype gid1 : Z)
| _listIndexSQL (edgetype gid1 indextype : Z) (indexstart indexend : string)
| _searchIndexSQL (edgetype indextype : Z) (indexstart indexend : string)
| _getSQL (edgetype gid1 gid2 : Z)
| _getIndexSQL (edgetype gid1 gid2 indextype : Z) (indexstart indexend : string)
| _countSQL (edgetype gid1 : Z)
| _incrementRevisionSQL (edgetype gid1 : Z)
| _incrementCountSQL (inc edgetype gid1 : Z).

(** A result row: an edge tuple, or a single scalar column. *)
Inductive Row : Type :=
| EdgeRow (e : Edge.t)
| ScalarRow (z : Z).

(** [row[0]] *)
Definition column0 (r : Row) : Z :=
  match r with
  | EdgeRow e => Edge.edgetype e
  | ScalarRow z => z
  end.

(** ** What the statements do *)

Definition edge_rows (t : Tables) : list Edge.t :=
  (λ kc, EdgeData.to_edge kc.1 kc.2) <$> map_to_list (edgedata t).

(** [ORDER BY]: a stable insertion sort under the given "comes no later
    than" test. *)
Fixpoint insert_by {A} (le : A → A → bool) (x : A) (l : list A) : list A :=
  match l with
  | [] => [x]
  | y :: l' => if le x y then x :: l else y :: insert_by le x l'
  end.

Definition order_by {A} (le : A → A → bool) (l : list A) : list A :=
  foldr (insert_by le) [] l.

(** [v BETWEEN lo AND hi] *)
Definition between (lo hi v : string) : bool := String.leb lo v && String.leb v hi.

(** [ORDER BY edgeindex.indexvalue, edgeindex.revision DESC] *)
Definition index_order (a b : EdgeIndex.t * Edge.t) : bool :=
  String.ltb (EdgeIndex.indexvalue a.1) (EdgeIndex.indexvalue b.1)
  || (String.eqb (EdgeIndex.indexvalue a.1) (EdgeIndex.indexvalue b.1)
      && (EdgeIndex.revision b.1 <=? EdgeIndex.revision a.1)).

(** [ORDER BY revision DESC] *)
Definition revision_desc (a b : Edge.t) : bool := Edge.revision b <=? Edge.revision a.

(** [FROM edgeindex STRAIGHT_JOIN edgedata ON on WHERE where_]: the index
    rows drive the join. *)
Definition index_join (where_ : EdgeIndex.t → bool) (on : EdgeIndex.t → Edge.t → bool)
    (t : Tables) : list (EdgeIndex.t * Edge.t) :=
  flat_map (λ i, map (pair i) (List.filter (on i) (edge_rows t)))
           (List.filter where_ (edgeindex t)).

Definition index_where (indextype : Z) (lo hi : string) (i : EdgeIndex.t) : bool :=
  (EdgeIndex.indextype i =? indextype) && between lo hi (EdgeIndex.indexvalue i).

Definition index_at (indextype : Z) (indexvalue : string) (i : EdgeIndex.t) : bool :=
  (EdgeIndex.indextype i =? indextype) && String.eqb (EdgeIndex.indexvalue i) indexvalue.

Definition index_of_version (indextype gid1 revision : Z) (i : EdgeIndex.t) : bool :=
  (EdgeIndex.indextype i =? indextype) && (EdgeIndex.gid1 i =? gid1)
  && (EdgeIndex.revision i =? revision).

(** A data-changing statement: new tables, the register if the statement
    wrote it, and the affected-rows count. *)
Definition changed (t : Tables) (reg : option Z) (n : Z) (d : Connection)
    : (exn + list Row) * Connection :=
  (inr [], mkConnection t (default (last_insert_id d) reg) n (ongoing_transaction d)).

(** A [SELECT]: rows, nothing changed. *)
Definition selected (rows : list Row) (d : Connection) : (exn + list Row) * Connection := (inr rows, d).

(** Modelled from the spec: the database engine is outside the sources; the
    statement texts of edgestore.py are read with the semantics sections 3,
    4.3 and 6 of the specification give them.  An upsert reports 1 affected
    row when it inserts and 2 when it changes an existing row (0 when the row
    already holds the new values); [LAST_INSERT_ID(expr)] stores [expr] in
    the register at the moment it is evaluated, so an upsert that updates
    leaves there what its [UPDATE] clause stored; a [DELETE] evaluates its
    [WHERE] clause on the row its key selects. *)
Definition execute (q : Statement) : M Connection (list Row) := λ d,
  let t := tables d in
  match q with
  | _generateGidSQL c start =>
      match colo t !! c with
      | None => changed (set_colo <[c := start]> t) (Some start) 1 d
      | Some counter => changed (set_colo <[c := counter + 1]> t) (Some (counter + 1)) 2 d
      end
  | _addSQL e =>
      match edgedata t !! Edge.key e with
      | None =>
          changed (set_edgedata <[Edge.key e := EdgeData.of_edge e]> t)
                  (Some (Edge.revision e)) 1 d
      | Some _ => (inl (IntegrityError "edgedata"), d)
      end
  | _addOverwriteSQL e =>
      match edgedata t !! Edge.key e with
      | None =>
          changed (set_edgedata <[Edge.key e := EdgeData.of_edge e]> t)
                  (Some (Edge.revision e)) 1 d
      | Some old =>
          changed (set_edgedata <[Edge.key e := EdgeData.of_edge e]> t)
                  (Some (EdgeData.revision old))
                  (if decide (EdgeData.of_edge e = old) then 0 else 2) d
      end
  | _uniqueIndexSQL it iv =>
      selected [ScalarRow (Z.of_nat (length (List.filter (index_at it iv) (edgeindex t))))] d
  | _deleteIndexSQL it g1 rev =>
      changed (set_edgeindex (List.filter (λ i, negb (index_of_version it g1 rev i))) t) None
              (Z.of_nat (length (List.filter (index_of_version it g1 rev) (edgeindex t)))) d
  | _addIndexSQL it iv g1 rev =>
      changed (set_edgeindex (λ l, (l ++ [EdgeIndex.mk it iv g1 rev])%list) t) None 1 d
  | _deleteSQL et g1 g2 =>
      match edgedata t !! (et, g1, g2) with
      | None => changed t None 0 d
      | Some row => changed (set_edgedata (delete (et, g1, g2)) t) (Some (EdgeData.revision row)) 1 d
      end
  | _lastInsertIDSQL => selected [ScalarRow (last_insert_id d)] d
  | _listSQL et g1 =>
      selected (EdgeRow <$> order_by revision_desc
                  (List.filter (λ e, (Edge.edgetype e =? et) && (Edge.gid1 e =? g1))
                               (edge_rows t))) d
  | _listIndexSQL et g1 it lo hi =>
      selected (EdgeRow ∘ snd <$> order_by index_order
                  (index_join (index_where it lo hi)
                     (λ i e, (Edge.edgetype e =? et) && (Edge.gid1 e =? g1)
                             && (Edge.revision e =? EdgeIndex.revision i)) t)) d
  | _searchIndexSQL et it lo hi =>
      selected (EdgeRow ∘ snd <$> order_by index_order
                  (index_join (index_where it lo hi)
                     (λ i e, (Edge.edgetype e =? et) && (Edge.gid1 e =? EdgeIndex.gid1 i)
                             && (Edge.revision e =? EdgeIndex.revision i)) t)) d
  | _getSQL et g1 g2 =>
      selected (EdgeRow <$>
                  List.filter (λ e, (Edge.edgetype e =? et) && (Edge.gid1 e =? g1)
                                    && (Edge.gid2 e =? g2)) (edge_rows t)) d
  | _getIndexSQL et g1 g2 it lo hi =>
      selected (EdgeRow ∘ snd <$>
                  index_join (index_where it lo hi)
                     (λ i e, (Edge.edgetype e =? et) && (Edge.gid1 e =? g1)
                             && (Edge.gid2 e =? g2)
                             && (Edge.revision e =? EdgeIndex.revision i)) t) d
  | _countSQL et g1 =>
      selected (match edgemeta t !! (et, g1) with
                | Some m => [ScalarRow (EdgeMeta.count m)]
                | None => []
                end) d
  | _incrementRevisionSQL et g1 =>
      match edgemeta t !! (et, g1) with
      | None => changed (set_edgemeta <[(et, g1) := EdgeMeta.mk 1 0]> t) (Some 1) 1 d
      | Some m =>
          changed (set_edgemeta
                     <[(et, g1) := EdgeMeta.mk (EdgeMeta.revision m + 1) (EdgeMeta.count m)]> t)
                  (Some (EdgeMeta.revision m + 1)) 2 d
      end
  | _incrementCountSQL inc et g1 =>
      match edgemeta t !! (et, g1) with
      | None => changed t None 0 d
      | Some m =>
          changed (set_edgemeta
                     <[(et, g1) := EdgeMeta.mk (EdgeMeta.revision m) (EdgeMeta.count m + inc)]> t)
                  None (if inc =? 0 then 0 else 1) d
      end
  end.

(** ** The driver

    [lib.edgestore.db.DB] is not among the sources; section 6 of the
    specification lists its operations. *)
Module DB.

(** Modelled from the spec: [DB.run], parameterized execution.  What it
    hands back is fixed by the one place that uses it, the uniqueness probe
    of section 4.3.2 ("count rows ... and fail if nonzero"): the scalar of a
    single-value [SELECT], and [None] for a statement without result
    rows. *)
Definition run (q : Statement) : M Connection (option Z) :=
  do rows <- execute q;
  ret (column0 <$> head rows).

(** Modelled from the spec: [DB.get] returns all rows. *)
Definition get (q : Statement) : M Connection (list Row) := execute q.

(** Modelled from the spec: [DB.getOne] returns one row or nothing. *)
Definition getOne (q : Statement) : M Connection (option Row) :=
  do rows <- execute q;
  ret (head rows).

(** Modelled from the spec: [DB.getAffectedRows], the rows changed by the
    last data-changing statement. *)
Definition getAffectedRows : M Connection Z := gets affected_rows.

(** Modelled from the spec: [DB.getLastInsertID] reads the register. *)
Definition getLastInsertID : M Connection Z := gets last_insert_id.

(** Modelled from the spec: [DB.hasOngoingTransaction]. *)
Definition hasOngoingTransaction : M Connection bool := gets ongoing_transaction.

(** What a rollback leaves: the tables as they were when the transaction
    began; the registers of the connection are not transactional. *)
Definition rolled_back (before after : Connection) : Connection :=
  mkConnection (tables before) (last_insert_id after) (affected_rows after)
               (ongoing_transaction before).

Definition committed (before after : Connection) : Connection :=
  set_ongoing_transaction (ongoing_transaction before) after.

(** Modelled from the spec: [DB.transaction], scoped begin, commit and
    rollback.  [with db.transaction(): body], for a body that runs over a
    store [S] holding the connection: commit when the body returns, roll
    back when it raises, and let the exception through. *)
Definition transaction {S A} (conn : S → Connection) (put : Connection → S → S)
    (body : M S A) : M S A := λ s,
  let before := conn s in
  match body (put (set_ongoing_transaction true before) s) with
  | (inr a, s') => (inr a, put (committed before (conn s')) s')
  | (inl e, s') => (inl e, put (rolled_back before (conn s')) s')
  end.

End DB.

(** ** Name resolution

    The names bound at module level of edgestore.py by its imports and
    class statements.  A bare name inside a method is looked up here (the
    class body is not an enclosing scope of its methods); none of the names
    the methods look up this way is a builtin. *)
Definition module_globals : list string :=
  ["chain"; "DB"; "DATABASE_HOSTS"; "contextmanager"; "EdgeStore"; "EdgeStoreShard"]%string.

Definition load_global {S} (name : string) : M S unit :=
  if existsb (String.eqb name) module_globals then ret tt else raise (NameError name).

(** The integer-valued attributes an [EdgeStore] object can see, given the
    host list: the two constants of the class body. *)
Definition EdgeStore_constants (DATABASE_HOSTS : list string) : list (string * Z) :=
  [("_MAX_COLO_ID", Z.shiftl 1 32 - 1); ("_NUM_HOSTS", Z.of_nat (length DATABASE_HOSTS))]%string.

Definition load_attr {S} (ns : list (string * Z)) (attr : string) : M S Z :=
  match List.find (λ b, String.eqb attr b.1) ns with
  | Some b => ret b.2
  | None => raise (AttributeError attr)
  end.

(** ** EdgeStoreShard *)
Module EdgeStoreShard.

(** A shard object: its connection (with the state of the database behind
    it) and the flag [lastAddWasOverwrite]. *)
Record t : Type := mk { _db : Connection; lastAddWasOverwrite : bool }.

Definition __init__ (db : Connection) : t := mk db false.

Definition set_db (d : Connection) (s : t) : t := mk d (lastAddWasOverwrite s).

Definition set_lastAddWasOverwrite (b : bool) (s : t) : t := mk (_db s) b.

(** [self._db.<operation>] *)
Definition db {A} (m : M Connection A) : M t A := zoom _db set_db m.

Definition transaction {A} (body : M t A) : M t A := DB.transaction _db set_db body.

Definition generateGid (colo : Z) (start : Z) : M t Z :=
  load_global "_generateGidSQL" ;;
  db (DB.run (_generateGidSQL colo start)) ;;
  do id <- db DB.getLastInsertID;
  ret (Z.shiftl colo 32 + id).

Definition _incrementRevision (edgetype gid1 : Z) : M t Z :=
  db (DB.run (_incrementRevisionSQL edgetype gid1)) ;;
  db DB.getLastInsertID.

Definition _incrementCount (edgetype gid1 : Z) (inc : Z) : M t unit :=
  db (DB.run (_incrementCountSQL inc edgetype gid1)) ;;
  ret tt.

(** One round of the loop over [indices] in [add]. *)
Definition add_index (gid1 revision affected_rows prev_revision : Z)
    (index : Z * string * bool) : M t unit :=
  let '(indextype, indexvalue, unique) := index in
  (if affected_rows =? 2
   then db (DB.run (_deleteIndexSQL indextype gid1 prev_revision)) ;; ret tt
   else ret tt) ;;
  (if unique
   then do count <- db (DB.run (_uniqueIndexSQL indextype indexvalue));
        assert (negb (truthy_opt count)) "edge violates index uniqueness"
   else ret tt) ;;
  db (DB.run (_addIndexSQL indextype indexvalue gid1 revision)) ;;
  ret tt.

Definition add (edgetype gid1 gid2 encoding : Z) (data : string)
    (indices : list (Z * string * bool)) (overwrite : bool) : M t Edge.t :=
  transaction (
    do revision <- _incrementRevision edgetype gid1;
    let edgedata := Edge.mk edgetype gid1 gid2 revision encoding data in
    let add_sql := if overwrite then _addOverwriteSQL else _addSQL in
    db (DB.run (add_sql edgedata)) ;;
    do affected_rows <- db DB.getAffectedRows;
    do prev_revision <- db DB.getLastInsertID;
    (if affected_rows =? 1
     then _incrementCount edgetype gid1 1 ;;
          assert (prev_revision =? revision)
                 "added edge should not have a previous revision"
     else if affected_rows =? 2
     then modify (set_lastAddWasOverwrite true) ;;
          assert (prev_revision =? revision - 1) "data changed during update"
     else ret tt) ;;
    for_each indices (add_index gid1 revision affected_rows prev_revision) ;;
    ret edgedata).

Definition delete (edgetype gid1 gid2 : Z) (indextypes : list Z) : M t bool :=
  transaction (
    _incrementRevision edgetype gid1 ;;
    db (DB.run (_deleteSQL edgetype gid1 gid2)) ;;
    do affected_rows <- db DB.getAffectedRows;
    do row <- db (DB.getOne _lastInsertIDSQL);
    do del_revision <- match row with
                       | Some r => ret (column0 r)
                       | None => raise (TypeError "'NoneType' object is not subscriptable")
                       end;
    (if truthy affected_rows
     then _incrementCount edgetype gid1 (-1) ;;
          assert (truthy del_revision) "missing revision for deleted edge" ;;
          for_each indextypes (λ indextype,
            db (DB.run (_deleteIndexSQL indextype gid1 del_revision)) ;; ret tt)
     else ret tt) ;;
    ret (affected_rows =? 1)).

(** [indexstart, indexend = indexrange] *)
Definition unpack_range (indexrange : option (string * string)) : M t (string * string) :=
  match indexrange with
  | Some r => ret r
  | None => raise (TypeError "'NoneType' object is not iterable")
  end.

(** A [None] placed in a comparison of a [WHERE] clause is SQL [NULL],
    which equals nothing: the statement then selects no row. *)
Definition query (edge_type : Z) (indextype : option Z)
    (indexrange : option (string * string)) (gid1 : option Z) : M t (list Row) :=
  if truthy_opt gid1 && truthy_opt indextype then
    do '(indexstart, indexend) <- unpack_range indexrange;
    db (DB.get (_listIndexSQL edge_type (default 0 gid1) (default 0 indextype)
                              indexstart indexend))
  else if truthy_opt gid1 then
    db (DB.get (_listSQL edge_type (default 0 gid1)))
  else
    do '(indexstart, indexend) <- unpack_range indexrange;
    match indextype with
    | Some it => db (DB.get (_searchIndexSQL edge_type it indexstart indexend))
    | None => ret []
    end.

Definition get (edge_type gid1 gid2 : Z) (indextype : option Z)
    (indexrange : option (string * string)) : M t (option Row) :=
  if truthy_opt indextype then
    do '(indexstart, indexend) <- unpack_range indexrange;
    db (DB.getOne (_getIndexSQL edge_type gid1 gid2 (default 0 indextype)
                                indexstart indexend))
  else
    db (DB.getOne (_getSQL edge_type gid1 gid2)).

Definition count (edgetype gid1 : Z) : M t Z :=
  do row <- db (DB.getOne (_countSQL edgetype gid1));
  ret (match row with Some r => column0 r | None => 0 end).

Definition lock (colo : Z) : M t Z :=
  do ongoing <- db DB.hasOngoingTransaction;
  assert ongoing EmptyString ;;
  generateGid colo 0.

End EdgeStoreShard.

(** ** EdgeStore *)

(** [l[i]] for a Python list: a negative index counts from the end. *)
Definition py_index {A} (l : list A) (i : Z) : option A :=
  if 0 <=? i then l !! Z.to_nat i
  else if 0 <=? i + Z.of_nat (length l) then l !! Z.to_nat (i + Z.of_nat (length l))
  else None.

(** [a % b] *)
Definition py_mod {S} (a b : Z) : M S Z :=
  if b =? 0 then raise ZeroDivisionError else ret (a mod b).

Module EdgeStore.

(** Modelled from the spec: [DB.getInstance(host, dbname)] hands out one
    connection per pair (section 6 of the specification), so the pair stands
    for the connection. *)
Definition Handle : Type := string * string.

(** An [EdgeStore] object.  [_shards] maps a connection to the shard
    object built for it; that object's [_db] is the key and what remains
    of it is its flag. *)
Record t : Type := mk
  { _dbname : string;
    _shards : gmap (string * string) bool;
    _locked_colos : gset Z;
    lastAddWasOverwrite : bool }.

Definition __init__ (dbname : string) : t := mk dbname ∅ ∅ false.

(** What a method of the façade runs over: the object itself and the
    connections of the process. *)
Record State : Type := mkState
  { self : t;
    connections : gmap (string * string) Connection }.

Definition set_self (f : t → t) (st : State) : State :=
  mkState (f (self st)) (connections st).

Definition set_shards (f : gmap (string * string) bool → gmap (string * string) bool)
    (s : t) : t :=
  mk (_dbname s) (f (_shards s)) (_locked_colos s) (lastAddWasOverwrite s).

Definition set_locked_colos (f : gset Z → gset Z) (s : t) : t :=
  mk (_dbname s) (_shards s) (f (_locked_colos s)) (lastAddWasOverwrite s).

Definition set_lastAddWasOverwrite (b : bool) (s : t) : t :=
  mk (_dbname s) (_shards s) (_locked_colos s) b.

Definition connection (h : Handle) (st : State) : Connection :=
  default fresh_connection (connections st !! h).

Definition set_connection (h : Handle) (d : Connection) (st : State) : State :=
  mkState (self st) (<[h := d]> (connections st)).

(** The shard object cached for [h], with the state of its connection. *)
Definition shard (h : Handle) (st : State) : EdgeStoreShard.t :=
  EdgeStoreShard.mk (connection h st) (default false (_shards (self st) !! h)).

Definition set_shard (h : Handle) (s : EdgeStoreShard.t) (st : State) : State :=
  mkState (set_shards <[h := EdgeStoreShard.lastAddWasOverwrite s]> (self st))
          (<[h := EdgeStoreShard._db s]> (connections st)).

(** [shard.<method>(...)] for the shard object of connection [h]. *)
Definition on_shard {A} (h : Handle) (m : M EdgeStoreShard.t A) : M State A :=
  zoom (shard h) (set_shard h) m.

(** [gid >> 32] *)
Definition colo (gid : Z) : Z := Z.shiftr gid 32.

Section Hosts.

(** [lib.edgestore.config.DATABASE_HOSTS], and the value the random
    generator would hand out. *)
Variable DATABASE_HOSTS : list string.
Variable random_colo : Z.

Definition _getHostShard (hostindex : Z) : M State Handle :=
  do host <- match py_index DATABASE_HOSTS hostindex with
             | Some host => ret host
             | None => raise IndexError
             end;
  do dbname <- gets (λ st, _dbname (self st));
  let db := (host, dbname) in
  modify (λ st, set_connection db (connection db st) st) ;;
  do cached <- gets (λ st, _shards (self st) !! db);
  match cached with
  | Some _ => ret db
  | None =>
      modify (set_self (set_shards
                <[db := EdgeStoreShard.lastAddWasOverwrite
                          (EdgeStoreShard.__init__ fresh_connection)]>)) ;;
      ret db
  end.

Definition _getColoShard (colo : Z) : M State Handle :=
  do NUM_HOSTS <- load_attr (EdgeStore_constants DATABASE_HOSTS) "NUM_HOSTS";
  do hostindex <- py_mod colo NUM_HOSTS;
  _getHostShard hostindex.

Definition _getShard (gid : Z) : M State Handle :=
  _getColoShard (colo gid).

Definition generateGid (colo_gid colo : option Z) : M State Z :=
  assert (negb (truthy_opt colo_gid && truthy_opt colo))
         "cannot specify both colo and colo_gid" ;;
  do colo <- (if truthy_opt colo then ret (default 0 colo)
              else
                let inherited := if truthy_opt colo_gid
                                 then Some (EdgeStore.colo (default 0 colo_gid))
                                 else colo_gid in
                if truthy_opt inherited then ret (default 0 inherited)
                else load_global "random" ;; ret random_colo);
  do shard <- _getColoShard colo;
  on_shard shard (EdgeStoreShard.generateGid colo 1).

Definition add (edgetype gid1 gid2 encoding : Z) (data : string)
    (indices : list (Z * string * bool)) (overwrite : bool) : M State Edge.t :=
  do shard <- _getShard gid1;
  do edge <- on_shard shard
               (EdgeStoreShard.add edgetype gid1 gid2 encoding data indices overwrite);
  do flag <- on_shard shard (gets EdgeStoreShard.lastAddWasOverwrite);
  modify (set_self (set_lastAddWasOverwrite flag)) ;;
  ret edge.

Definition delete (edgetype gid1 gid2 : Z) (indextypes : list Z) : M State bool :=
  do shard <- _getShard gid1;
  on_shard shard (EdgeStoreShard.delete edgetype gid1 gid2 indextypes).

Definition count (edgetype gid1 : Z) : M State Z :=
  do shard <- _getShard gid1;
  on_shard shard (EdgeStoreShard.count edgetype gid1).

(** [get] and [query] pass on [indextype] and [indexrange], names that
    neither the method (whose parameter is [index]) nor the module
    binds; the lookups stand where the argument list is evaluated, after
    the shard has been resolved, and no value comes out of them. *)
Definition get (edgetype gid1 gid2 : Z) (index : option (Z * (string * string)))
    : M State (option Row) :=
  do shard <- _getShard gid1;
  load_global "indextype" ;;
  load_global "indexrange" ;;
  on_shard shard (EdgeStoreShard.get edgetype gid1 gid2 None None).

Definition query (edgetype : Z) (index : option (Z * (string * string)))
    (gid1 colo : option Z) : M State (list Row) :=
  assert (negb (truthy_opt gid1 && truthy_opt colo))
         "cannot query with both parent gid and colo" ;;
  if truthy_opt colo || truthy_opt gid1 then
    let colo := if truthy_opt colo then default 0 colo
                else EdgeStore.colo (default 0 gid1) in
    do shard <- _getColoShard colo;
    load_global "indextype" ;;
    load_global "indexrange" ;;
    on_shard shard (EdgeStoreShard.query edgetype None None gid1)
  else
    do n <- load_attr (EdgeStore_constants DATABASE_HOSTS) "_NUM_HOSTS";
    (fix fan_out (hostindexes : list nat) : M State (list Row) :=
       match hostindexes with
       | [] => ret []
       | hostindex :: rest =>
           do shard <- _getHostShard (Z.of_nat hostindex);
           load_global "indextype" ;;
           load_global "indexrange" ;;
           do rows <- on_shard shard (EdgeStoreShard.query edgetype None None None);
           do more <- fan_out rest;
           ret (rows ++ more)%list
       end) (seq 0 (Z.to_nat n)).

(** [with self.lock(colo) as gid: body gid].  [lock] is a generator
    turned context manager: what precedes its [yield] runs on entry,
    the body of the [with] runs at the [yield] (and raises there if it
    raises), what follows runs on exit. *)
Definition lock {A} (colo : Z) (body : option Z → M State A) : M State A :=
  do held <- gets (λ st, bool_decide (colo ∈ _locked_colos (self st)));
  if held then
    body None
  else
    try_finally
      (modify (set_self (set_locked_colos (λ cs, cs ∪ {[colo]}))) ;;
       do shard <- _getColoShard colo;
       DB.transaction (connection shard) (set_connection shard)
         (do gid <- on_shard shard (EdgeStoreShard.lock colo);
          body (Some gid)))
      (do present <- gets (λ st, bool_decide (colo ∈ _locked_colos (self st)));
       if present
       then modify (set_self (set_locked_colos (λ cs, cs ∖ {[colo]})))
       else raise KeyError).

End Hosts.

(** *** The registry of instances

    [EdgeStore._instances] and the objects built so far; an object is
    known by its position in [objects]. *)
Record Registry : Type := mkRegistry
  { _instances : gmap string nat;
    objects : list t }.

Definition no_instances : Registry := mkRegistry ∅ [].

Definition getInstance (dbname : string) : M Registry nat :=
  do instance <- gets (λ r, _instances r !! dbname);
  match instance with
  | Some ref => ret ref
  | None =>
      do ref <- gets (λ r, length (objects r));
      modify (λ r, mkRegistry (_instances r) (objects r ++ [__init__ dbname])) ;;
      ret ref
  end.

End EdgeStore.

(** ** Vocabulary of the statements below *)

Definition shard_tables (s : EdgeStoreShard.t) : Tables := tables (EdgeStoreShard._db s).

(** The [edgemeta] row of a parent, and its columns read with 0 for a
    parent that has no row yet (no revision issued, no edge counted). *)
Definition meta_of (s : EdgeStoreShard.t) (edgetype gid1 : Z) : option EdgeMeta.t :=
  edgemeta (shard_tables s) !! (edgetype, gid1).

Definition current_revision (s : EdgeStoreShard.t) (edgetype gid1 : Z) : Z :=
  match meta_of s edgetype gid1 with
  | Some m => EdgeMeta.revision m
  | None => 0
  end.

Definition current_count (s : EdgeStoreShard.t) (edgetype gid1 : Z) : Z :=
  match meta_of s edgetype gid1 with
  | Some m => EdgeMeta.count m
  | None => 0
  end.

Definition edge_of (s : EdgeStoreShard.t) (edgetype gid1 gid2 : Z) : option EdgeData.t :=
  edgedata (shard_tables s) !! (edgetype, gid1, gid2).

(** The shard after [_incrementRevision(edgetype, gid1)]. *)
Definition revision_issued (s : EdgeStoreShard.t) (edgetype gid1 : Z) : EdgeStoreShard.t :=
  EdgeStoreShard.set_db
    (mkConnection
       (set_edgemeta <[(edgetype, gid1) :=
                         EdgeMeta.mk (current_revision s edgetype gid1 + 1)
                                     (current_count s edgetype gid1)]> (shard_tables s))
       (current_revision s edgetype gid1 + 1)
       (if meta_of s edgetype gid1 is Some _ then 2 else 1)
       (ongoing_transaction (EdgeStoreShard._db s))) s.

(** Successive calls of [_incrementRevision], one per listed parent, and the
    revisions among the results that went to the parent [k]. *)
Fixpoint issue (parents : list (Z * Z)) : M EdgeStoreShard.t (list Z) :=
  match parents with
  | [] => ret []
  | (edgetype, gid1) :: rest =>
      do r <- EdgeStoreShard._incrementRevision edgetype gid1;
      do rs <- issue rest;
      ret (r :: rs)
  end.

Fixpoint issued_for (k : Z * Z) (parents : list (Z * Z)) (rs : list Z) : list Z :=
  match parents, rs with
  | p :: parents', r :: rs' =>
      if decide (p = k) then r :: issued_for k parents' rs' else issued_for k parents' rs'
  | _, _ => []
  end.

Definition calls_for (k : Z * Z) (parents : list (Z * Z)) : nat :=
  length (List.filter (λ p, bool_decide (p = k)) parents).

(** Number of [edgeindex] rows at [(indextype, indexvalue)]. *)
Definition rows_at (indextype : Z) (indexvalue : string) (rows : list EdgeIndex.t) : nat :=
  length (List.filter (index_at indextype indexvalue) rows).

(** The entries of an [indices] argument that name the pair
    [(indextype, indexvalue)] all carry the unique flag. *)
Definition flagged_unique (indextype : Z) (indexvalue : string)
    (indices : list (Z * string * bool)) : Prop :=
  ∀ unique, In (indextype, indexvalue, unique) indices → unique = true.

(** A mutation of a shard, and a history of them. *)
Inductive Mutation : Type :=
| Add (edgetype gid1 gid2 encoding : Z) (data : string)
      (indices : list (Z * string * bool)) (overwrite : bool)
| Delete (edgetype gid1 gid2 : Z) (indextypes : list Z).

Definition apply_mutation (m : Mutation) (s : EdgeStoreShard.t) : EdgeStoreShard.t :=
  match m with
  | Add edgetype gid1 gid2 encoding data indices overwrite =>
      (EdgeStoreShard.add edgetype gid1 gid2 encoding data indices overwrite s).2
  | Delete edgetype gid1 gid2 indextypes =>
      (EdgeStoreShard.delete edgetype gid1 gid2 indextypes s).2
  end.

Definition apply_history (h : list Mutation) (s : EdgeStoreShard.t) : EdgeStoreShard.t :=
  foldl (λ s m, apply_mutation m s) s h.

Definition mutation_flags_unique (indextype : Z) (indexvalue : string) (m : Mutation) : Prop :=
  match m with
  | Add _ _ _ _ _ indices _ => flagged_unique indextype indexvalue indices
  | Delete _ _ _ _ => True
  end.

(** *** The scenario of section 8 of the specification: two hosts, the
    colocation 5 *)
Definition two_hosts : list string := ["H0"; "H1"]%string.
Definition gid_5_1 : Z := Z.lor (Z.shiftl 5 32) 1.
Definition gid_5_2 : Z := Z.lor (Z.shiftl 5 32) 2.
Definition gid_5_3 : Z := Z.lor (Z.shiftl 5 32) 3.

Definition fresh_shard : EdgeStoreShard.t := EdgeStoreShard.__init__ fresh_connection.

Definition fresh_store : EdgeStore.State :=
  EdgeStore.mkState (EdgeStore.__init__ "edgestore") ∅.

(** *** Inside [add] and [delete] *)

(** The shard once [with self._db.transaction()] has been entered. *)
Definition in_transaction (s : EdgeStoreShard.t) : EdgeStoreShard.t :=
  EdgeStoreShard.set_db (set_ongoing_transaction true (EdgeStoreShard._db s)) s.

(** The edge tuple [add] builds. *)
Definition new_edge (s : EdgeStoreShard.t) (edgetype gid1 gid2 encoding : Z) (data : string)
    : Edge.t :=
  Edge.mk edgetype gid1 gid2 (current_revision s edgetype gid1 + 1) encoding data.

(** How [add] ends once the loop over [indices] has run: commit and return
    the tuple, or roll back and raise. *)
Definition conclude (s : EdgeStoreShard.t) (edge : Edge.t)
    (loop : (exn + unit) * EdgeStoreShard.t) : (exn + Edge.t) * EdgeStoreShard.t :=
  match loop with
  | (inr _, s') =>
      (inr edge, EdgeStoreShard.set_db
                   (DB.committed (EdgeStoreShard._db s) (EdgeStoreShard._db s')) s')
  | (inl e, s') =>
      (inl e, EdgeStoreShard.set_db
                (DB.rolled_back (EdgeStoreShard._db s) (EdgeStoreShard._db s')) s')
  end.

(** The shard as the loop over [indices] finds it: inside the transaction,
    with the given tables, register, affected-rows count and flag. *)
Definition before_indices (t : Tables) (register affected : Z) (flag : bool) : EdgeStoreShard.t :=
  EdgeStoreShard.mk (mkConnection t register affected true) flag.

(** What one round of the loop over [indices] does to the rows of
    [edgeindex], as a function on the list of rows: [None] when the
    uniqueness probe finds a row. *)
Definition index_round (gid1 revision affected_rows prev_revision : Z)
    (index : Z * string * bool) (rows : list EdgeIndex.t) : option (list EdgeIndex.t) :=
  let '(indextype, indexvalue, unique) := index in
  let kept := if affected_rows =? 2
              then List.filter (λ i, negb (index_of_version indextype gid1 prev_revision i)) rows
              else rows in
  if unique && truthy (Z.of_nat (rows_at indextype indexvalue kept)) then None
  else Some (kept ++ [EdgeIndex.mk indextype indexvalue gid1 revision])%list.

Fixpoint index_rounds (gid1 revision affected_rows prev_revision : Z)
    (indices : list (Z * string * bool)) (rows : list EdgeIndex.t)
    : option (list EdgeIndex.t) :=
  match indices with
  | [] => Some rows
  | index :: rest =>
      match index_round gid1 revision affected_rows prev_revision index rows with
      | Some rows' => index_rounds gid1 revision affected_rows prev_revision rest rows'
      | None => None
      end
  end.

(** The rows a round keeps before it probes and inserts. *)
Definition kept_rows (gid1 affected prev : Z) (indextype : Z) (rows : list EdgeIndex.t)
    : list EdgeIndex.t :=
  if affected =? 2
  then List.filter (λ i, negb (index_of_version indextype gid1 prev i)) rows
  else rows.

(** A row survives every round unless it is an index row of the version
    that an update replaces. *)
Definition survives (gid1 affected prev : Z) (row : EdgeIndex.t) : Prop :=
  affected = 2 → ¬ (EdgeIndex.gid1 row = gid1 ∧ EdgeIndex.revision row = prev).

(** No unique-flagged entry of [indices] names a pair that an earlier entry
    of the list has named. *)
Fixpoint probed_first (indices : list (Z * string * bool)) : Prop :=
  match indices with
  | [] => True
  | (indextype, indexvalue, _) :: rest =>
      ¬ In (indextype, indexvalue, true) rest ∧ probed_first rest
  end.

(** The only rows at the unique-flagged pairs of [indices] are index rows of
    the version [(gid1, prev)]. *)
Definition pairs_free (gid1 prev : Z) (indices : list (Z * string * bool))
    (rows : list EdgeIndex.t) : Prop :=
  ∀ indextype indexvalue row,
    In (indextype, indexvalue, true) indices →
    In row rows →
    index_at indextype indexvalue row = true →
    EdgeIndex.gid1 row = gid1 ∧ EdgeIndex.revision row = prev.

Definition uniqueness_violated : exn := AssertionError "edge violates index uniqueness".

(** The one statement that adds a row to [edgeindex]. *)
Definition inserts_index (q : Statement) : bool :=
  match q with
  | _addIndexSQL _ _ _ _ => true
  | _ => false
  end.

(** *** Relations between the shard before and after *)

(** Two shard states that differ at most in [edgeindex] and in the
    affected-rows count. *)
Definition index_only (s s' : EdgeStoreShard.t) : Prop :=
  edgedata (shard_tables s') = edgedata (shard_tables s)
  ∧ edgemeta (shard_tables s') = edgemeta (shard_tables s)
  ∧ colo (shard_tables s') = colo (shard_tables s)
  ∧ last_insert_id (EdgeStoreShard._db s') = last_insert_id (EdgeStoreShard._db s)
  ∧ ongoing_transaction (EdgeStoreShard._db s') = ongoing_transaction (EdgeStoreShard._db s)
  ∧ EdgeStoreShard.lastAddWasOverwrite s' = EdgeStoreShard.lastAddWasOverwrite s.

(** [m] leaves, from every state, a state related to it by [R]. *)
Definition steps (R : EdgeStoreShard.t → EdgeStoreShard.t → Prop) {A}
    (m : M EdgeStoreShard.t A) : Prop :=
  ∀ s, R s (m s).2.

(** Once set, the flag stays set. *)
Definition flag_kept (s s' : EdgeStoreShard.t) : Prop :=
  EdgeStoreShard.lastAddWasOverwrite s = true → EdgeStoreShard.lastAddWasOverwrite s' = true.

(** No pair has more rows in [edgeindex] than before. *)
Definition index_shrinks (s s' : EdgeStoreShard.t) : Prop :=
  ∀ indextype indexvalue,
    (rows_at indextype indexvalue (edgeindex (shard_tables s'))
     ≤ rows_at indextype indexvalue (edgeindex (shard_tables s)))%nat.

(** *** Stores used as examples *)

(** A store whose shard on [H1] has overwritten an edge, the flag of the
    store itself still clear. *)
Definition store_after_overwrite : EdgeStore.State :=
  EdgeStore.mkState
    (EdgeStore.mk "edgestore" {[("H1", "edgestore") := true]} ∅ false)
    {[("H1", "edgestore") :=
        EdgeStoreShard._db
          (EdgeStoreShard.add 7 gid_5_1 gid_5_2 1 "y" [] true
             (EdgeStoreShard.add 7 gid_5_1 gid_5_2 1 "x" [] false fresh_shard).2).2]}.

(** *** Vocabulary of the further properties *)

(** [WHERE edgetype = %s AND gid1 = %s] *)
Definition under_parent (edgetype gid1 : Z) (e : Edge.t) : bool :=
  (Edge.edgetype e =? edgetype) && (Edge.gid1 e =? gid1).

(** The number of [edgedata] rows of a parent. *)
Definition edges_under (t : Tables) (edgetype gid1 : Z) : nat :=
  length (List.filter (under_parent edgetype gid1) (edge_rows t)).

(** [WHERE edgetype = %s AND gid1 = %s AND gid2 = %s] *)
Definition at_key (edgetype gid1 gid2 : Z) (e : Edge.t) : bool :=
  (Edge.edgetype e =? edgetype) && (Edge.gid1 e =? gid1) && (Edge.gid2 e =? gid2).

(** The stored edge at a key, as the tuple [get] hands out. *)
Definition stored_edge (s : EdgeStoreShard.t) (edgetype gid1 gid2 : Z) : option Edge.t :=
  EdgeData.to_edge (edgetype, gid1, gid2) <$> edge_of s edgetype gid1 gid2.

(** The exceptions [add] ends with. *)
Definition add_failures : list exn :=
  [IntegrityError "edgedata"; AssertionError "data changed during update";
   uniqueness_violated].

(** What [add] adds to the count of the parent: 1 for a new edge. *)
Definition counted (previous : option EdgeData.t) : Z :=
  if previous is Some _ then 0 else 1.

(** The call finds a row at the key and changes it: the case in which the
    overwriting statement reports two affected rows. *)
Definition hits_existing (s : EdgeStoreShard.t) (edgetype gid1 gid2 encoding : Z)
    (data : string) (overwrite : bool) : bool :=
  match edge_of s edgetype gid1 gid2 with
  | Some old =>
      overwrite
      && negb (bool_decide (EdgeData.of_edge (new_edge s edgetype gid1 gid2 encoding data) = old))
  | None => false
  end.

(** What the loop over [indextypes] in [delete] makes of the rows of
    [edgeindex]. *)
Definition delete_index_rows (gid1 revision : Z) (indextypes : list Z)
    (rows : list EdgeIndex.t) : list EdgeIndex.t :=
  foldl (λ rows indextype,
           List.filter (λ i, negb (index_of_version indextype gid1 revision i)) rows)
        rows indextypes.

(** [count] of every parent is the number of its rows in [edgedata]. *)
Definition counts_edges (s : EdgeStoreShard.t) : Prop :=
  ∀ edgetype gid1,
    current_count s edgetype gid1 = Z.of_nat (edges_under (shard_tables s) edgetype gid1).

(** No revision is negative; the revision of an edge lies between 1 and the
    revision of its parent; two edges of a parent have different
    revisions. *)
Definition revisions_sound (s : EdgeStoreShard.t) : Prop :=
  (∀ edgetype gid1, 0 ≤ current_revision s edgetype gid1)
  ∧ (∀ edgetype gid1 gid2 c,
       edge_of s edgetype gid1 gid2 = Some c →
       1 ≤ EdgeData.revision c ≤ current_revision s edgetype gid1)
  ∧ (∀ edgetype gid1 gid2 gid2' c c',
       edge_of s edgetype gid1 gid2 = Some c →
       edge_of s edgetype gid1 gid2' = Some c' →
       EdgeData.revision c = EdgeData.revision c' → gid2 = gid2').

(** The edges [_listSQL] selects. *)
Definition listed (s : EdgeStoreShard.t) (edgetype gid1 : Z) : list Edge.t :=
  order_by revision_desc (List.filter (under_parent edgetype gid1) (edge_rows (shard_tables s))).

(** The entries of [indices] name the type of the row. *)
Definition names_type (indices : list (Z * string * bool)) (row : EdgeIndex.t) : Prop :=
  ∃ indexvalue unique, In (EdgeIndex.indextype row, indexvalue, unique) indices.

(** The row is the index row the loop inserts for one of the entries. *)
Definition inserted_row (gid1 revision : Z) (indices : list (Z * string * bool))
    (row : EdgeIndex.t) : Prop :=
  ∃ indextype indexvalue unique,
    In (indextype, indexvalue, unique) indices
    ∧ row = EdgeIndex.mk indextype indexvalue gid1 revision.

(** ** Stepping through the monad *)

Lemma bind_value {S A B} (m : M S A) (k : A → M S B) s a s' :
  m s = (inr a, s') → bind m k s = k a s'.
Proof. intros H. unfold bind. rewrite H. reflexivity. Qed.

Lemma bind_raised {S A B} (m : M S A) (k : A → M S B) s e s' :
  m s = (inl e, s') → bind m k s = (inl e, s').
Proof. intros H. unfold bind. rewrite H. reflexivity. Qed.

(** Unfold the monad and the driver down to the statements. *)
Ltac step_shard :=
  cbv beta iota zeta delta
    [bind ret raise gets modify zoom assert EdgeStoreShard.db DB.run DB.get DB.getOne
     DB.getAffectedRows DB.getLastInsertID DB.hasOngoingTransaction
     execute changed selected].

(** ** The revision protocol *)

Lemma incrementRevision_eq s edgetype gid1 :
  EdgeStoreShard._incrementRevision edgetype gid1 s
  = (inr (current_revision s edgetype gid1 + 1), revision_issued s edgetype gid1).
Proof.
  unfold revision_issued, current_revision, current_count, meta_of, shard_tables,
    EdgeStoreShard._incrementRevision.
  step_shard.
  destruct (edgemeta (tables (EdgeStoreShard._db s)) !! (edgetype, gid1)); reflexivity.
Qed.

Lemma meta_of_revision_issued s edgetype gid1 :
  meta_of (revision_issued s edgetype gid1) edgetype gid1
  = Some (EdgeMeta.mk (current_revision s edgetype gid1 + 1) (current_count s edgetype gid1)).
Proof. unfold meta_of, revision_issued, shard_tables. simpl. apply lookup_insert_eq. Qed.

Lemma meta_of_revision_issued_ne s edgetype gid1 k :
  (edgetype, gid1) ≠ k →
  edgemeta (shard_tables (revision_issued s edgetype gid1)) !! k = edgemeta (shard_tables s) !! k.
Proof. intros Hne. unfold revision_issued, shard_tables. simpl. by apply lookup_insert_ne. Qed.

Lemma current_revision_issued s edgetype gid1 :
  current_revision (revision_issued s edgetype gid1) edgetype gid1
  = current_revision s edgetype gid1 + 1.
Proof. unfold current_revision at 1. by rewrite meta_of_revision_issued. Qed.

Lemma current_revision_issued_ne s edgetype gid1 et g :
  (edgetype, gid1) ≠ (et, g) →
  current_revision (revision_issued s edgetype gid1) et g = current_revision s et g.
Proof.
  intros Hne. unfold current_revision, meta_of.
  by rewrite meta_of_revision_issued_ne.
Qed.

Lemma issue_from s parents edgetype gid1 :
  ∃ rs s',
    issue parents s = (inr rs, s')
    ∧ issued_for (edgetype, gid1) parents rs
      = (λ i, current_revision s edgetype gid1 + Z.of_nat i)
          <$> seq 1 (calls_for (edgetype, gid1) parents).
Proof.
  revert s. induction parents as [|[et g] parents IH]; intros s.
  - exists [], s. split; reflexivity.
  - destruct (IH (revision_issued s et g)) as (rs & s' & Hrun & Hfor).
    exists (current_revision s et g + 1 :: rs), s'. split.
    + cbn [issue]. rewrite (bind_value _ _ _ _ _ (incrementRevision_eq s et g)).
      rewrite (bind_value _ _ _ _ _ Hrun). reflexivity.
    + cbn [issued_for]. unfold calls_for. cbn [List.filter].
      destruct (decide ((et, g) = (edgetype, gid1))) as [Heq|Hne].
      * rewrite bool_decide_eq_true_2 by done. injection Heq as -> ->.
        rewrite Hfor, current_revision_issued. cbn [length seq fmap list_fmap].
        f_equal. fold (calls_for (edgetype, gid1) parents).
        rewrite <- (fmap_S_seq 1), <- list_fmap_compose. apply list_fmap_ext.
        intros _ i _. simpl. lia.
      * rewrite bool_decide_eq_false_2 by done.
        rewrite Hfor, current_revision_issued_ne by done. reflexivity.
Qed.

(** C1. The revisions [_incrementRevision] returns for a parent
    [(edgetype, gid1)] that has no [edgemeta] row yet: the first call creates
    the row with revision 1 and count 0 and returns 1; a call that finds the
    row at revision [r] returns [r + 1] and leaves the count alone; each time
    the returned value is what the last-insert-id register holds; and over any
    run of successive calls, interleaved with calls for other parents, the
    parent receives 1, 2, 3, ... in order. *)
Theorem incrementRevision_strictly_increasing s edgetype gid1 parents :
  meta_of s edgetype gid1 = None →
  (∃ s1, EdgeStoreShard._incrementRevision edgetype gid1 s = (inr 1, s1)
         ∧ meta_of s1 edgetype gid1 = Some (EdgeMeta.mk 1 0)
         ∧ last_insert_id (EdgeStoreShard._db s1) = 1)
  ∧ (∀ s2 m, meta_of s2 edgetype gid1 = Some m →
       ∃ s3, EdgeStoreShard._incrementRevision edgetype gid1 s2
             = (inr (EdgeMeta.revision m + 1), s3)
             ∧ meta_of s3 edgetype gid1
               = Some (EdgeMeta.mk (EdgeMeta.revision m + 1) (EdgeMeta.count m))
             ∧ last_insert_id (EdgeStoreShard._db s3) = EdgeMeta.revision m + 1)
  ∧ (∃ rs s', issue parents s = (inr rs, s')
              ∧ issued_for (edgetype, gid1) parents rs
                = Z.of_nat <$> seq 1 (calls_for (edgetype, gid1) parents)).
Proof.
  intros Hfresh. split; [|split].
  - exists (revision_issued s edgetype gid1).
    rewrite incrementRevision_eq, meta_of_revision_issued.
    unfold revision_issued, current_revision, current_count. rewrite Hfresh.
    repeat split.
  - intros s2 m Hm. exists (revision_issued s2 edgetype gid1).
    rewrite incrementRevision_eq, meta_of_revision_issued.
    unfold revision_issued, current_revision, current_count. rewrite Hm.
    repeat split.
  - destruct (issue_from s parents edgetype gid1) as (rs & s' & Hrun & Hfor).
    exists rs, s'. split; [exact Hrun|]. rewrite Hfor.
    unfold current_revision. rewrite Hfresh. apply list_fmap_ext.
    intros _ i _. lia.
Qed.

Lemma incrementRevision_strictly_increasing_witness :
  meta_of fresh_shard 7 gid_5_1 = None
  ∧ ∃ rs s',
      issue [(7, gid_5_1); (8, gid_5_1); (7, gid_5_1); (7, gid_5_2); (7, gid_5_1)] fresh_shard
      = (inr rs, s')
      ∧ issued_for (7, gid_5_1)
          [(7, gid_5_1); (8, gid_5_1); (7, gid_5_1); (7, gid_5_2); (7, gid_5_1)] rs
        = [1; 2; 3].
Proof.
  split; [reflexivity|].
  apply (incrementRevision_strictly_increasing fresh_shard 7 gid_5_1
           [(7, gid_5_1); (8, gid_5_1); (7, gid_5_1); (7, gid_5_2); (7, gid_5_1)]).
  reflexivity.
Defined.

(** ** Transactions *)

Lemma transaction_value {A} (body : M EdgeStoreShard.t A) s a s' :
  body (in_transaction s) = (inr a, s') →
  EdgeStoreShard.transaction body s
  = (inr a, EdgeStoreShard.set_db
              (DB.committed (EdgeStoreShard._db s) (EdgeStoreShard._db s')) s').
Proof.
  intros H. unfold EdgeStoreShard.transaction, DB.transaction.
  fold (in_transaction s). rewrite H. reflexivity.
Qed.

Lemma transaction_raised {A} (body : M EdgeStoreShard.t A) s e s' :
  body (in_transaction s) = (inl e, s') →
  EdgeStoreShard.transaction body s
  = (inl e, EdgeStoreShard.set_db
              (DB.rolled_back (EdgeStoreShard._db s) (EdgeStoreShard._db s')) s').
Proof.
  intros H. unfold EdgeStoreShard.transaction, DB.transaction.
  fold (in_transaction s). rewrite H. reflexivity.
Qed.

Lemma delete_missing_eq s edgetype gid1 gid2 indextypes :
  edge_of s edgetype gid1 gid2 = None →
  EdgeStoreShard.delete edgetype gid1 gid2 indextypes s
  = (inr false,
     EdgeStoreShard.set_db
       (mkConnection
          (set_edgemeta <[(edgetype, gid1) :=
                            EdgeMeta.mk (current_revision s edgetype gid1 + 1)
                                        (current_count s edgetype gid1)]> (shard_tables s))
          (current_revision s edgetype gid1 + 1) 0
          (ongoing_transaction (EdgeStoreShard._db s))) s).
Proof.
  intros Hmissing. unfold EdgeStoreShard.delete.
  erewrite transaction_value; cycle 1.
  { rewrite (bind_value _ _ _ _ _ (incrementRevision_eq _ _ _)).
    change (edgedata (shard_tables (in_transaction s)) !! (edgetype, gid1, gid2) = None)
      in Hmissing.
    step_shard. simpl. rewrite Hmissing. simpl. reflexivity. }
  reflexivity.
Qed.

Lemma count_eq s edgetype gid1 :
  EdgeStoreShard.count edgetype gid1 s = (inr (current_count s edgetype gid1), s).
Proof.
  unfold EdgeStoreShard.count, current_count, meta_of, shard_tables. step_shard.
  destruct s as [d flag]. simpl.
  destruct (edgemeta (tables d) !! (edgetype, gid1)); reflexivity.
Qed.

(** C6. Deleting an edge [(edgetype, gid1, gid2)] that has no row returns
    [False]; the count of the parent (as the column stands and as [count]
    reports it) is what it was, no [edgeindex] row and no [edgedata] row is
    removed, and the revision of [(edgetype, gid1)] has moved on by one. *)
Theorem delete_missing_edge s edgetype gid1 gid2 indextypes :
  edge_of s edgetype gid1 gid2 = None →
  ∃ s', EdgeStoreShard.delete edgetype gid1 gid2 indextypes s = (inr false, s')
        ∧ current_count s' edgetype gid1 = current_count s edgetype gid1
        ∧ (EdgeStoreShard.count edgetype gid1 s').1 = (EdgeStoreShard.count edgetype gid1 s).1
        ∧ edgeindex (shard_tables s') = edgeindex (shard_tables s)
        ∧ edgedata (shard_tables s') = edgedata (shard_tables s)
        ∧ current_revision s' edgetype gid1 = current_revision s edgetype gid1 + 1.
Proof.
  intros Hmissing. eexists. split; [by apply delete_missing_eq|].
  assert (Hcount : current_count
            (EdgeStoreShard.set_db
               (mkConnection
                  (set_edgemeta <[(edgetype, gid1) :=
                       EdgeMeta.mk (current_revision s edgetype gid1 + 1)
                                   (current_count s edgetype gid1)]> (shard_tables s))
                  (current_revision s edgetype gid1 + 1) 0
                  (ongoing_transaction (EdgeStoreShard._db s))) s) edgetype gid1
          = current_count s edgetype gid1).
  { unfold current_count at 1, meta_of, shard_tables. simpl.
    by rewrite lookup_insert_eq. }
  split; [exact Hcount|]. split; [by rewrite !count_eq, Hcount|].
  split; [reflexivity|]. split; [reflexivity|].
  unfold current_revision at 1, meta_of, shard_tables. simpl.
  by rewrite lookup_insert_eq.
Qed.

Lemma delete_missing_edge_witness :
  let s := (EdgeStoreShard.add 7 gid_5_1 gid_5_2 1 "x" [(3, "k", false)] false fresh_shard).2 in
  edge_of s 7 gid_5_1 gid_5_3 = None
  ∧ ∃ s', EdgeStoreShard.delete 7 gid_5_1 gid_5_3 [3] s = (inr false, s')
          ∧ current_count s' 7 gid_5_1 = current_count s 7 gid_5_1
          ∧ (EdgeStoreShard.count 7 gid_5_1 s').1 = (EdgeStoreShard.count 7 gid_5_1 s).1
          ∧ edgeindex (shard_tables s') = edgeindex (shard_tables s)
          ∧ edgedata (shard_tables s') = edgedata (shard_tables s)
          ∧ current_revision s' 7 gid_5_1 = current_revision s 7 gid_5_1 + 1.
Proof.
  intros s. split; [vm_compute; reflexivity|].
  apply (delete_missing_edge s 7 gid_5_1 gid_5_3 [3]).
  vm_compute; reflexivity.
Defined.

(** ** The loop over [indices] *)

Lemma index_only_refl s : index_only s s.
Proof. repeat split. Qed.

Lemma index_only_trans s1 s2 s3 : index_only s1 s2 → index_only s2 s3 → index_only s1 s3.
Proof.
  unfold index_only. intros (?&?&?&?&?&?) (?&?&?&?&?&?).
  repeat split; congruence.
Qed.

Lemma add_index_spec gid1 revision affected prev index s :
  ∃ s', index_only s s'
        ∧ match index_round gid1 revision affected prev index (edgeindex (shard_tables s)) with
          | Some rows' =>
              EdgeStoreShard.add_index gid1 revision affected prev index s = (inr tt, s')
              ∧ edgeindex (shard_tables s') = rows'
          | None =>
              EdgeStoreShard.add_index gid1 revision affected prev index s
              = (inl uniqueness_violated, s')
          end.
Proof.
  destruct index as [[indextype indexvalue] unique]. destruct s as [d flag].
  unfold EdgeStoreShard.add_index, index_round, rows_at, shard_tables, index_only.
  step_shard. simpl.
  destruct (affected =? 2); destruct unique; simpl;
    try (destruct (truthy (Z.of_nat (length (List.filter (index_at indextype indexvalue) _))));
         simpl);
    eexists; (split; [|try split; reflexivity]); repeat split.
Qed.

Lemma add_indices_spec gid1 revision affected prev indices s :
  ∃ s', index_only s s'
        ∧ match index_rounds gid1 revision affected prev indices (edgeindex (shard_tables s)) with
          | Some rows' =>
              for_each indices (EdgeStoreShard.add_index gid1 revision affected prev) s
              = (inr tt, s')
              ∧ edgeindex (shard_tables s') = rows'
          | None =>
              for_each indices (EdgeStoreShard.add_index gid1 revision affected prev) s
              = (inl uniqueness_violated, s')
          end.
Proof.
  revert s. induction indices as [|index rest IH]; intros s.
  - exists s. split; [apply index_only_refl|]. split; reflexivity.
  - cbn [for_each index_rounds].
    destruct (add_index_spec gid1 revision affected prev index s) as (s1 & Hframe1 & Hround).
    destruct (index_round gid1 revision affected prev index (edgeindex (shard_tables s)))
      as [rows1|].
    + destruct Hround as [Hrun Hrows]. destruct (IH s1) as (s2 & Hframe2 & Hrest).
      exists s2. split; [by eapply index_only_trans|].
      rewrite (bind_value _ _ _ _ _ Hrun). rewrite Hrows in Hrest. exact Hrest.
    + exists s1. split; [exact Hframe1|]. by rewrite (bind_raised _ _ _ _ _ Hround).
Qed.

(** ** The paths through [add] *)

(** Unfold a shard method down to the tables, for a shard given by its
    components. *)
Ltac run_shard :=
  cbv beta iota zeta delta
    [EdgeStoreShard.add EdgeStoreShard.delete EdgeStoreShard.transaction DB.transaction
     EdgeStoreShard._incrementRevision EdgeStoreShard._incrementCount
     DB.committed DB.rolled_back
     bind ret raise gets modify zoom assert EdgeStoreShard.db DB.run DB.get DB.getOne
     DB.getAffectedRows DB.getLastInsertID DB.hasOngoingTransaction
     execute changed selected
     set_edgedata set_edgemeta set_edgeindex set_colo set_tables set_last_insert_id
     set_affected_rows set_ongoing_transaction
     EdgeStoreShard.set_db EdgeStoreShard.set_lastAddWasOverwrite
     tables last_insert_id affected_rows ongoing_transaction
     edgedata edgemeta edgeindex colo EdgeStoreShard._db EdgeStoreShard.lastAddWasOverwrite].

Ltac by_loop_result :=
  change (0 + 1) with 1;
  match goal with
  | |- context [for_each ?xs ?f ?st] => destruct (for_each xs f st) as [[?|[]] ?]
  end;
  reflexivity.

Ltac open_shard s :=
  destruct s as [[[ed em ei co] lid aff ong] flag];
  unfold conclude, before_indices, new_edge, current_revision, current_count, meta_of,
    edge_of, shard_tables in *;
  simpl in *.

Lemma add_insert_path_eq s edgetype gid1 gid2 encoding data indices overwrite :
  edge_of s edgetype gid1 gid2 = None →
  let revision := current_revision s edgetype gid1 + 1 in
  let edge := new_edge s edgetype gid1 gid2 encoding data in
  EdgeStoreShard.add edgetype gid1 gid2 encoding data indices overwrite s
  = conclude s edge
      (for_each indices (EdgeStoreShard.add_index gid1 revision 1 revision)
         (before_indices
            (mkTables (<[(edgetype, gid1, gid2) := EdgeData.of_edge edge]>
                         (edgedata (shard_tables s)))
                      (<[(edgetype, gid1) :=
                           EdgeMeta.mk revision (current_count s edgetype gid1 + 1)]>
                         (edgemeta (shard_tables s)))
                      (edgeindex (shard_tables s)) (colo (shard_tables s)))
            revision 1 (EdgeStoreShard.lastAddWasOverwrite s))).
Proof.
  intros Hmissing revision edge. subst revision edge. open_shard s.
  destruct overwrite; run_shard; unfold Edge.key; simpl;
    destruct (em !! (edgetype, gid1)) as [m|]; simpl; rewrite Hmissing; simpl;
    rewrite lookup_insert_eq; simpl; rewrite ?Z.eqb_refl, insert_insert_eq;
    by_loop_result.
Qed.

Lemma add_duplicate_eq s edgetype gid1 gid2 encoding data indices old :
  edge_of s edgetype gid1 gid2 = Some old →
  EdgeStoreShard.add edgetype gid1 gid2 encoding data indices false s
  = (inl (IntegrityError "edgedata"),
     EdgeStoreShard.mk
       (mkConnection (shard_tables s) (current_revision s edgetype gid1 + 1)
                     (if meta_of s edgetype gid1 is Some _ then 2 else 1)
                     (ongoing_transaction (EdgeStoreShard._db s)))
       (EdgeStoreShard.lastAddWasOverwrite s)).
Proof.
  intros Hold. open_shard s.
  run_shard; unfold Edge.key; simpl;
    destruct (em !! (edgetype, gid1)) as [m|]; simpl; rewrite Hold; reflexivity.
Qed.

Lemma add_update_path_eq s edgetype gid1 gid2 encoding data indices old :
  edge_of s edgetype gid1 gid2 = Some old →
  let revision := current_revision s edgetype gid1 + 1 in
  let edge := new_edge s edgetype gid1 gid2 encoding data in
  EdgeData.revision old = revision - 1 →
  EdgeStoreShard.add edgetype gid1 gid2 encoding data indices true s
  = conclude s edge
      (for_each indices (EdgeStoreShard.add_index gid1 revision 2 (EdgeData.revision old))
         (before_indices
            (mkTables (<[(edgetype, gid1, gid2) := EdgeData.of_edge edge]>
                         (edgedata (shard_tables s)))
                      (<[(edgetype, gid1) :=
                           EdgeMeta.mk revision (current_count s edgetype gid1)]>
                         (edgemeta (shard_tables s)))
                      (edgeindex (shard_tables s)) (colo (shard_tables s)))
            (EdgeData.revision old) 2 true)).
Proof.
  intros Hold revision edge Hprev. subst revision edge. open_shard s.
  run_shard; unfold Edge.key; simpl;
    destruct (em !! (edgetype, gid1)) as [m|]; simpl in *; rewrite Hold; simpl.
  all: match goal with
       | |- context [decide (?a = ?b)] => destruct (decide (a = b)) as [Heq|_]
       end.
  all: try (apply (f_equal EdgeData.revision) in Heq; simpl in Heq; lia).
  all: simpl; rewrite Hprev, Z.eqb_refl; by_loop_result.
Qed.

Lemma add_stale_general_eq s edgetype gid1 gid2 encoding data indices old :
  edge_of s edgetype gid1 gid2 = Some old →
  EdgeData.of_edge (new_edge s edgetype gid1 gid2 encoding data) ≠ old →
  EdgeData.revision old ≠ current_revision s edgetype gid1 →
  EdgeStoreShard.add edgetype gid1 gid2 encoding data indices true s
  = (inl (AssertionError "data changed during update"),
     EdgeStoreShard.mk
       (mkConnection (shard_tables s) (EdgeData.revision old) 2
                     (ongoing_transaction (EdgeStoreShard._db s)))
       true).
Proof.
  intros Hold Hchanged Hstale. open_shard s.
  run_shard; unfold Edge.key; simpl;
    destruct (em !! (edgetype, gid1)) as [m|]; simpl in *; rewrite Hold; simpl.
  all: match goal with
       | |- context [decide (?a = ?b)] => destruct (decide (a = b)) as [Heq|_]
       end.
  all: try (exfalso; apply Hchanged; exact Heq).
  all: simpl.
  all: match goal with
       | |- context [?a =? ?b] => destruct (Z.eqb_spec a b) as [Heq|_]; [lia|]
       end.
  all: reflexivity.
Qed.

Lemma add_unchanged_eq s edgetype gid1 gid2 encoding data indices old :
  edge_of s edgetype gid1 gid2 = Some old →
  let revision := current_revision s edgetype gid1 + 1 in
  let edge := new_edge s edgetype gid1 gid2 encoding data in
  EdgeData.of_edge edge = old →
  EdgeStoreShard.add edgetype gid1 gid2 encoding data indices true s
  = conclude s edge
      (for_each indices (EdgeStoreShard.add_index gid1 revision 0 (EdgeData.revision old))
         (before_indices
            (mkTables (<[(edgetype, gid1, gid2) := EdgeData.of_edge edge]>
                         (edgedata (shard_tables s)))
                      (<[(edgetype, gid1) :=
                           EdgeMeta.mk revision (current_count s edgetype gid1)]>
                         (edgemeta (shard_tables s)))
                      (edgeindex (shard_tables s)) (colo (shard_tables s)))
            (EdgeData.revision old) 0 (EdgeStoreShard.lastAddWasOverwrite s))).
Proof.
  intros Hold revision edge Hsame. subst revision edge. open_shard s.
  run_shard; unfold Edge.key; simpl;
    destruct (em !! (edgetype, gid1)) as [m|]; simpl in *; rewrite Hold; simpl.
  all: match goal with
       | |- context [decide (?a = ?b)] => destruct (decide (a = b)) as [_|Hne]
       end.
  all: try (exfalso; apply Hne; exact Hsame).
  all: simpl; by_loop_result.
Qed.

Lemma add_stale_eq s edgetype gid1 gid2 encoding data indices old :
  edge_of s edgetype gid1 gid2 = Some old →
  EdgeData.revision old < current_revision s edgetype gid1 →
  EdgeStoreShard.add edgetype gid1 gid2 encoding data indices true s
  = (inl (AssertionError "data changed during update"),
     EdgeStoreShard.mk
       (mkConnection (shard_tables s) (EdgeData.revision old) 2
                     (ongoing_transaction (EdgeStoreShard._db s)))
       true).
Proof.
  intros Hold Hstale. apply add_stale_general_eq; [exact Hold| |lia].
  intros Heq. apply (f_equal EdgeData.revision) in Heq.
  unfold new_edge in Heq. simpl in Heq. lia.
Qed.

(** ** The rounds of the loop, on the rows of [edgeindex] *)

Lemma rows_at_app indextype indexvalue rows row :
  rows_at indextype indexvalue (rows ++ [row])
  = (rows_at indextype indexvalue rows
     + if index_at indextype indexvalue row then 1 else 0)%nat.
Proof.
  unfold rows_at. rewrite List.filter_app, length_app. cbn [List.filter].
  destruct (index_at indextype indexvalue row); reflexivity.
Qed.

Lemma rows_at_filter indextype indexvalue keep rows :
  (rows_at indextype indexvalue (List.filter keep rows) ≤ rows_at indextype indexvalue rows)%nat.
Proof.
  unfold rows_at. induction rows as [|row rows IH]; [reflexivity|].
  cbn [List.filter]. destruct (keep row); cbn [List.filter];
    destruct (index_at indextype indexvalue row); cbn [length]; lia.
Qed.

Lemma rows_at_positive indextype indexvalue rows row :
  In row rows → index_at indextype indexvalue row = true →
  (0 < rows_at indextype indexvalue rows)%nat.
Proof.
  intros Hin Hat. unfold rows_at.
  assert (Hin' : In row (List.filter (index_at indextype indexvalue) rows))
    by (apply filter_In; auto).
  destruct (List.filter (index_at indextype indexvalue) rows); [destruct Hin'|cbn; lia].
Qed.

Lemma index_at_spec indextype indexvalue row :
  index_at indextype indexvalue row = true
  ↔ EdgeIndex.indextype row = indextype ∧ EdgeIndex.indexvalue row = indexvalue.
Proof.
  unfold index_at. rewrite andb_true_iff, Z.eqb_eq, String.eqb_eq. reflexivity.
Qed.

Lemma index_round_unfold gid1 revision affected prev indextype indexvalue unique rows :
  index_round gid1 revision affected prev (indextype, indexvalue, unique) rows
  = if unique && truthy (Z.of_nat (rows_at indextype indexvalue
                                     (kept_rows gid1 affected prev indextype rows)))
    then None
    else Some (kept_rows gid1 affected prev indextype rows
               ++ [EdgeIndex.mk indextype indexvalue gid1 revision])%list.
Proof. reflexivity. Qed.

Lemma kept_rows_survivor gid1 affected prev indextype rows row :
  survives gid1 affected prev row → In row rows →
  In row (kept_rows gid1 affected prev indextype rows).
Proof.
  intros Hsurv Hin. unfold kept_rows.
  destruct (Z.eqb_spec affected 2) as [Haff|_]; [|exact Hin].
  apply filter_In. split; [exact Hin|].
  apply negb_true_iff, not_true_iff_false. intros Hver. apply (Hsurv Haff).
  unfold index_of_version in Hver.
  rewrite !andb_true_iff, !Z.eqb_eq in Hver. tauto.
Qed.

Lemma index_rounds_blocked gid1 revision affected prev indices indextype indexvalue :
  In (indextype, indexvalue, true) indices →
  ∀ rows row,
    In row rows → index_at indextype indexvalue row = true →
    survives gid1 affected prev row →
    index_rounds gid1 revision affected prev indices rows = None.
Proof.
  induction indices as [|[[it iv] u] rest IH]; intros Hentry rows row Hin Hat Hsurv.
  - destruct Hentry.
  - cbn [index_rounds]. rewrite index_round_unfold.
    pose proof (kept_rows_survivor gid1 affected prev it rows row Hsurv Hin) as Hkept.
    destruct Hentry as [Heq|Hrest].
    + injection Heq as -> -> ->.
      pose proof (rows_at_positive indextype indexvalue _ row Hkept Hat) as Hpos.
      unfold truthy. destruct (Z.eqb_spec (Z.of_nat (rows_at indextype indexvalue
                                 (kept_rows gid1 affected prev indextype rows))) 0); [lia|].
      reflexivity.
    + destruct (u && truthy _); [reflexivity|].
      apply (IH Hrest _ row); [|exact Hat|exact Hsurv].
      apply in_or_app. left. exact Hkept.
Qed.

Lemma index_rounds_unique gid1 revision affected prev indices indextype indexvalue :
  flagged_unique indextype indexvalue indices →
  ∀ rows rows',
    (rows_at indextype indexvalue rows ≤ 1)%nat →
    index_rounds gid1 revision affected prev indices rows = Some rows' →
    (rows_at indextype indexvalue rows' ≤ 1)%nat.
Proof.
  induction indices as [|[[it iv] u] rest IH]; intros Hflags rows rows' Hle Hrun.
  - injection Hrun as <-. exact Hle.
  - cbn [index_rounds] in Hrun. rewrite index_round_unfold in Hrun.
    destruct (u && truthy _) eqn:Hprobe; [discriminate|].
    apply (IH (λ unique Hin, Hflags unique (or_intror Hin)) _ _) in Hrun; [exact Hrun|].
    rewrite rows_at_app.
    assert (Hkept : (rows_at indextype indexvalue (kept_rows gid1 affected prev it rows) ≤ 1)%nat).
    { unfold kept_rows. destruct (affected =? 2); [|exact Hle].
      etransitivity; [apply rows_at_filter|exact Hle]. }
    destruct (index_at indextype indexvalue (EdgeIndex.mk it iv gid1 revision)) eqn:Hat;
      [|lia].
    apply index_at_spec in Hat. simpl in Hat. destruct Hat as [-> ->].
    rewrite (Hflags u (or_introl eq_refl)) in Hprobe. simpl in Hprobe.
    unfold truthy in Hprobe. apply negb_false_iff, Z.eqb_eq in Hprobe. lia.
Qed.

(** ** Overwriting an existing edge *)

Lemma rows_at_zero indextype indexvalue rows :
  (∀ row, In row rows → index_at indextype indexvalue row = true → False) →
  rows_at indextype indexvalue rows = 0%nat.
Proof.
  intros Hnone. unfold rows_at. induction rows as [|row rows IH]; [reflexivity|].
  cbn [List.filter]. destruct (index_at indextype indexvalue row) eqn:Hat.
  - destruct (Hnone row (or_introl eq_refl) Hat).
  - apply IH. intros row' Hin. apply Hnone. by right.
Qed.

(** On the update path, every round passes its probe when the unique pairs
    are probed first and hold nothing but rows of the replaced version. *)
Lemma index_rounds_free gid1 revision prev indices :
  probed_first indices →
  ∀ rows, pairs_free gid1 prev indices rows →
          is_Some (index_rounds gid1 revision 2 prev indices rows).
Proof.
  induction indices as [|[[it iv] u] rest IH]; intros Hfirst rows Hfree; [by eexists|].
  destruct Hfirst as [Hnot_later Hfirst].
  cbn [index_rounds]. rewrite index_round_unfold.
  assert (Hprobe : u && truthy (Z.of_nat (rows_at it iv (kept_rows gid1 2 prev it rows)))
                   = false).
  { destruct u; [|reflexivity]. rewrite rows_at_zero; [reflexivity|].
    intros row Hin Hat. unfold kept_rows in Hin. simpl in Hin.
    apply filter_In in Hin. destruct Hin as [Hin Hkept].
    destruct (Hfree it iv row (or_introl eq_refl) Hin Hat) as [Hgid Hrev].
    apply index_at_spec in Hat. destruct Hat as [Hit _].
    unfold index_of_version in Hkept.
    rewrite Hit, Hgid, Hrev, !Z.eqb_refl in Hkept. discriminate Hkept. }
  rewrite Hprobe. apply (IH Hfirst).
  intros indextype indexvalue row Hentry Hin Hat.
  apply in_app_or in Hin. destruct Hin as [Hin|[<-|[]]].
  - unfold kept_rows in Hin. simpl in Hin. apply filter_In in Hin.
    exact (Hfree indextype indexvalue row (or_intror Hentry) (proj1 Hin) Hat).
  - apply index_at_spec in Hat. simpl in Hat. destruct Hat as [-> ->].
    destruct (Hnot_later Hentry).
Qed.

Lemma probed_first_no_unique indices :
  Forall (λ index : Z * string * bool, index.2 = false) indices → probed_first indices.
Proof.
  induction 1 as [|[[it iv] u] rest _ Hrest IH]; [exact I|].
  split; [|exact IH]. intros Hin.
  rewrite List.Forall_forall in Hrest. specialize (Hrest _ Hin). discriminate Hrest.
Qed.

Lemma pairs_free_no_unique gid1 prev indices rows :
  Forall (λ index : Z * string * bool, index.2 = false) indices →
  pairs_free gid1 prev indices rows.
Proof.
  intros Hall indextype indexvalue row Hin. rewrite List.Forall_forall in Hall.
  specialize (Hall _ Hin). discriminate Hall.
Qed.

(** Overwriting the edge that was the last of its parent to change. *)
Lemma add_overwrite_latest s edgetype gid1 gid2 encoding data indices old m :
  edge_of s edgetype gid1 gid2 = Some old →
  meta_of s edgetype gid1 = Some m →
  EdgeData.revision old = EdgeMeta.revision m →
  probed_first indices →
  pairs_free gid1 (EdgeData.revision old) indices (edgeindex (shard_tables s)) →
  let revision := EdgeMeta.revision m + 1 in
  ∃ s',
    EdgeStoreShard.add edgetype gid1 gid2 encoding data indices true s
    = (inr (Edge.mk edgetype gid1 gid2 revision encoding data), s')
    ∧ edge_of s' edgetype gid1 gid2 = Some (EdgeData.mk revision encoding data)
    ∧ meta_of s' edgetype gid1 = Some (EdgeMeta.mk revision (EdgeMeta.count m))
    ∧ (EdgeStoreShard.count edgetype gid1 s').1 = (EdgeStoreShard.count edgetype gid1 s).1
    ∧ EdgeStoreShard.lastAddWasOverwrite s' = true
    ∧ (bind (EdgeStoreShard.db
               (DB.run (_addOverwriteSQL (Edge.mk edgetype gid1 gid2 revision encoding data))))
            (λ _, EdgeStoreShard.db DB.getLastInsertID)
            (revision_issued (in_transaction s) edgetype gid1)).1
      = inr (revision - 1).
Proof.
  intros Hold Hmeta Hlatest Hfirst Hfree revision.
  assert (Hcur : current_revision s edgetype gid1 = EdgeMeta.revision m)
    by (unfold current_revision; by rewrite Hmeta).
  assert (Hcnt : current_count s edgetype gid1 = EdgeMeta.count m)
    by (unfold current_count; by rewrite Hmeta).
  pose proof (add_update_path_eq s edgetype gid1 gid2 encoding data indices old Hold) as Hadd.
  cbv zeta in Hadd. unfold new_edge in Hadd. rewrite Hcur, Hcnt in Hadd.
  specialize (Hadd ltac:(lia)). fold revision in Hadd.
  match type of Hadd with
  | _ = conclude _ _ (for_each _ _ ?st) =>
      destruct (add_indices_spec gid1 revision 2 (EdgeData.revision old) indices st)
        as (s2 & Hframe & Hloop)
  end.
  destruct (index_rounds_free gid1 revision (EdgeData.revision old) indices Hfirst
              (edgeindex (shard_tables s)) Hfree) as [rows' Hrows].
  change (edgeindex (shard_tables (before_indices _ _ _ _)))
    with (edgeindex (shard_tables s)) in Hloop.
  rewrite Hrows in Hloop. destruct Hloop as [Hloop _].
  rewrite Hloop in Hadd. unfold conclude in Hadd.
  destruct Hframe as (Hed & Hem & _ & _ & _ & Hflag).
  eexists. split; [exact Hadd|].
  split.
  { unfold edge_of, shard_tables in *. simpl in *. by rewrite Hed, lookup_insert_eq. }
  split.
  { unfold meta_of, shard_tables in *. simpl in *. by rewrite Hem, lookup_insert_eq. }
  split.
  { rewrite !count_eq. cbn [fst]. f_equal. rewrite Hcnt.
    unfold current_count, meta_of, shard_tables in *. simpl in *.
    by rewrite Hem, lookup_insert_eq. }
  split; [exact Hflag|].
  unfold edge_of, meta_of, shard_tables in *. simpl in *.
  destruct s as [[[ed em ei co] lid aff ong] flag]. simpl in *.
  unfold revision_issued, in_transaction, current_revision, current_count, meta_of,
    shard_tables. simpl. rewrite Hmeta.
  run_shard. unfold Edge.key. simpl. rewrite Hold. simpl.
  f_equal. subst revision. lia.
Qed.

(** Both outcomes of [add] with [overwrite=True] on an existing edge.  If the
    stored revision of the edge is the latest one issued for its parent, and
    the unique-flagged pairs of [indices] are named by no earlier entry and
    hold no row other than rows carrying the parent and the revision of the
    version being replaced, the call returns the tuple with the newly issued
    revision; the row then has that revision and the new encoding and data,
    the count of the parent is unchanged, [lastAddWasOverwrite] is set, and
    the revision the statement stashed in the register, which the assertion
    compares, is the new revision minus 1.  If the stored revision of the
    edge is older, the assertion fails with "data changed during update" and
    the tables are as before the call. *)
Theorem add_overwrite_existing s edgetype gid1 gid2 encoding data indices old m :
  edge_of s edgetype gid1 gid2 = Some old →
  meta_of s edgetype gid1 = Some m →
  let revision := EdgeMeta.revision m + 1 in
  (EdgeData.revision old = EdgeMeta.revision m →
   probed_first indices →
   pairs_free gid1 (EdgeData.revision old) indices (edgeindex (shard_tables s)) →
   ∃ s',
     EdgeStoreShard.add edgetype gid1 gid2 encoding data indices true s
     = (inr (Edge.mk edgetype gid1 gid2 revision encoding data), s')
     ∧ edge_of s' edgetype gid1 gid2 = Some (EdgeData.mk revision encoding data)
     ∧ meta_of s' edgetype gid1 = Some (EdgeMeta.mk revision (EdgeMeta.count m))
     ∧ (EdgeStoreShard.count edgetype gid1 s').1 = (EdgeStoreShard.count edgetype gid1 s).1
     ∧ EdgeStoreShard.lastAddWasOverwrite s' = true
     ∧ (bind (EdgeStoreShard.db
                (DB.run (_addOverwriteSQL (Edge.mk edgetype gid1 gid2 revision encoding data))))
             (λ _, EdgeStoreShard.db DB.getLastInsertID)
             (revision_issued (in_transaction s) edgetype gid1)).1
       = inr (revision - 1))
  ∧ (EdgeData.revision old < EdgeMeta.revision m →
     ∃ s',
       EdgeStoreShard.add edgetype gid1 gid2 encoding data indices true s
       = (inl (AssertionError "data changed during update"), s')
       ∧ shard_tables s' = shard_tables s).
Proof.
  intros Hold Hmeta revision. split.
  - intros Hlatest Hfirst Hfree. by apply (add_overwrite_latest _ _ _ _ _ _ _ old m).
  - intros Hstale. eexists. split.
    + apply (add_stale_eq _ _ _ _ _ _ _ old Hold).
      unfold current_revision. by rewrite Hmeta.
    + reflexivity.
Qed.

Lemma add_overwrite_existing_witness :
  let s1 := (EdgeStoreShard.add 7 gid_5_1 gid_5_2 1 "x" [(3, "k", true)] false fresh_shard).2 in
  let s2 := (EdgeStoreShard.add 7 gid_5_1 gid_5_3 1 "z" [] false s1).2 in
  (∃ s',
     EdgeStoreShard.add 7 gid_5_1 gid_5_2 1 "y" [(3, "k", true)] true s1
     = (inr (Edge.mk 7 gid_5_1 gid_5_2 2 1 "y"), s')
     ∧ edge_of s' 7 gid_5_1 gid_5_2 = Some (EdgeData.mk 2 1 "y")
     ∧ meta_of s' 7 gid_5_1 = Some (EdgeMeta.mk 2 1)
     ∧ (EdgeStoreShard.count 7 gid_5_1 s').1 = (EdgeStoreShard.count 7 gid_5_1 s1).1
     ∧ EdgeStoreShard.lastAddWasOverwrite s' = true
     ∧ (bind (EdgeStoreShard.db (DB.run (_addOverwriteSQL (Edge.mk 7 gid_5_1 gid_5_2 2 1 "y"))))
             (λ _, EdgeStoreShard.db DB.getLastInsertID)
             (revision_issued (in_transaction s1) 7 gid_5_1)).1
       = inr (2 - 1))
  ∧ (∃ s',
       EdgeStoreShard.add 7 gid_5_1 gid_5_2 1 "y" [(3, "k", true)] true s2
       = (inl (AssertionError "data changed during update"), s')
       ∧ shard_tables s' = shard_tables s2).
Proof.
  intros s1 s2. split.
  - apply (add_overwrite_existing s1 7 gid_5_1 gid_5_2 1 "y" [(3, "k", true)]
             (EdgeData.mk 1 1 "x") (EdgeMeta.mk 1 1)).
    + vm_compute; reflexivity.
    + vm_compute; reflexivity.
    + reflexivity.
    + split; [intros []|exact I].
    + intros indextype indexvalue row _ [<-|[]] _. split; reflexivity.
  - apply (add_overwrite_existing s2 7 gid_5_1 gid_5_2 1 "y" [(3, "k", true)]
             (EdgeData.mk 1 1 "x") (EdgeMeta.mk 2 2)).
    + vm_compute; reflexivity.
    + vm_compute; reflexivity.
    + simpl. lia.
Defined.

(** C2. An existing edge that is not the last one of its parent to have
    changed cannot be overwritten.  After [add] of [gid_5_2] and [add] of
    [gid_5_3] under the same parent, the row of [gid_5_2] still holds
    revision 1, encoding 1 and "x", and nothing has touched it; [add] with
    [overwrite=True] on it raises the assertion "data changed during update",
    the row is as before, and [lastAddWasOverwrite] is set all the same.  The
    same call made before the [add] of [gid_5_3] returns the tuple with
    revision 2. *)
Theorem add_overwrite_older_edge_fails :
  let s1 := (EdgeStoreShard.add 7 gid_5_1 gid_5_2 1 "x" [] false fresh_shard).2 in
  let s2 := (EdgeStoreShard.add 7 gid_5_1 gid_5_3 1 "z" [] false s1).2 in
  (EdgeStoreShard.add 7 gid_5_1 gid_5_2 1 "y" [] true s1).1
  = inr (Edge.mk 7 gid_5_1 gid_5_2 2 1 "y")
  ∧ edge_of s2 7 gid_5_1 gid_5_2 = Some (EdgeData.mk 1 1 "x")
  ∧ edge_of s2 7 gid_5_1 gid_5_2 = edge_of s1 7 gid_5_1 gid_5_2
  ∧ (EdgeStoreShard.add 7 gid_5_1 gid_5_2 1 "y" [] true s2).1
    = inl (AssertionError "data changed during update")
  ∧ edge_of (EdgeStoreShard.add 7 gid_5_1 gid_5_2 1 "y" [] true s2).2 7 gid_5_1 gid_5_2
    = Some (EdgeData.mk 1 1 "x")
  ∧ EdgeStoreShard.lastAddWasOverwrite s2 = false
  ∧ EdgeStoreShard.lastAddWasOverwrite
      (EdgeStoreShard.add 7 gid_5_1 gid_5_2 1 "y" [] true s2).2 = true.
Proof. vm_compute. repeat split. Qed.

(** ** Uniqueness of index pairs *)

Lemma conclude_loop s edge gid1 revision affected prev indices t register affected' flag :
  (∃ s', conclude s edge
           (for_each indices (EdgeStoreShard.add_index gid1 revision affected prev)
              (before_indices t register affected' flag))
         = (inl uniqueness_violated, s')
         ∧ shard_tables s' = shard_tables s
         ∧ EdgeStoreShard.lastAddWasOverwrite s' = flag
         ∧ index_rounds gid1 revision affected prev indices (edgeindex t) = None)
  ∨ (∃ rows' s', conclude s edge
                   (for_each indices (EdgeStoreShard.add_index gid1 revision affected prev)
                      (before_indices t register affected' flag))
                 = (inr edge, s')
                 ∧ index_rounds gid1 revision affected prev indices (edgeindex t) = Some rows'
                 ∧ shard_tables s' = mkTables (edgedata t) (edgemeta t) rows' (colo t)
                 ∧ EdgeStoreShard.lastAddWasOverwrite s' = flag).
Proof.
  destruct (add_indices_spec gid1 revision affected prev indices
              (before_indices t register affected' flag)) as (s2 & Hframe & Hloop).
  change (edgeindex (shard_tables (before_indices t register affected' flag)))
    with (edgeindex t) in Hloop.
  destruct Hframe as (Hed & Hem & Hco & _ & _ & Hflag).
  destruct (index_rounds gid1 revision affected prev indices (edgeindex t)) as [rows'|].
  - right. destruct Hloop as [Hloop Hrows]. rewrite Hloop. unfold conclude.
    eexists _, _. split; [reflexivity|]. split; [reflexivity|]. split; [|exact Hflag].
    destruct s2 as [[[ed2 em2 ei2 co2] ? ? ?] ?].
    unfold shard_tables, before_indices in *. simpl in *. congruence.
  - left. rewrite Hloop. unfold conclude. eexists. split; [reflexivity|].
    split; [reflexivity|]. split; [exact Hflag|reflexivity].
Qed.

(** Every way [add] can end: it raises and the tables are as before, or it
    returns the tuple and [edgeindex] is what the rounds made of it. *)
Lemma add_outcome s edgetype gid1 gid2 encoding data indices overwrite :
  (∃ e s', EdgeStoreShard.add edgetype gid1 gid2 encoding data indices overwrite s = (inl e, s')
           ∧ shard_tables s' = shard_tables s)
  ∨ (∃ affected prev rows' s',
       EdgeStoreShard.add edgetype gid1 gid2 encoding data indices overwrite s
       = (inr (new_edge s edgetype gid1 gid2 encoding data), s')
       ∧ index_rounds gid1 (current_revision s edgetype gid1 + 1) affected prev indices
           (edgeindex (shard_tables s)) = Some rows'
       ∧ edgeindex (shard_tables s') = rows'
       ∧ (affected = 2 →
          overwrite = true
          ∧ ∃ old, edge_of s edgetype gid1 gid2 = Some old ∧ prev = EdgeData.revision old)).
Proof.
  destruct (edge_of s edgetype gid1 gid2) as [old|] eqn:Hedge.
  - destruct overwrite.
    + destruct (decide (EdgeData.of_edge (new_edge s edgetype gid1 gid2 encoding data) = old))
        as [Hsame|Hchanged].
      * rewrite (add_unchanged_eq _ _ _ _ _ _ _ _ Hedge Hsame).
        match goal with
        | |- context [conclude ?s0 ?e (for_each ?ix (EdgeStoreShard.add_index ?g ?r ?a ?p)
                                         (before_indices ?t ?reg ?a' ?f))] =>
            destruct (conclude_loop s0 e g r a p ix t reg a' f)
              as [(s' & -> & Htables & _ & _)|(rows' & s' & -> & Hrounds & Htables & _)]
        end.
        -- left. by eexists _, _.
        -- right. exists 0, (EdgeData.revision old), rows', s'.
           split; [reflexivity|]. split; [exact Hrounds|].
           split; [by rewrite Htables|]. intros; discriminate.
      * destruct (decide (EdgeData.revision old = current_revision s edgetype gid1))
          as [Hlatest|Hstale].
        -- rewrite (add_update_path_eq _ _ _ _ _ _ _ _ Hedge) by lia.
           match goal with
           | |- context [conclude ?s0 ?e (for_each ?ix (EdgeStoreShard.add_index ?g ?r ?a ?p)
                                            (before_indices ?t ?reg ?a' ?f))] =>
               destruct (conclude_loop s0 e g r a p ix t reg a' f)
                 as [(s' & -> & Htables & _ & _)|(rows' & s' & -> & Hrounds & Htables & _)]
           end.
           ++ left. by eexists _, _.
           ++ right. exists 2, (EdgeData.revision old), rows', s'.
              split; [reflexivity|]. split; [exact Hrounds|].
              split; [by rewrite Htables|]. intros _. split; [reflexivity|]. by exists old.
        -- left. rewrite (add_stale_general_eq _ _ _ _ _ _ _ _ Hedge Hchanged Hstale).
           by eexists _, _.
    + left. rewrite (add_duplicate_eq _ _ _ _ _ _ _ _ Hedge). by eexists _, _.
  - rewrite (add_insert_path_eq _ _ _ _ _ _ _ _ Hedge).
    match goal with
    | |- context [conclude ?s0 ?e (for_each ?ix (EdgeStoreShard.add_index ?g ?r ?a ?p)
                                     (before_indices ?t ?reg ?a' ?f))] =>
        destruct (conclude_loop s0 e g r a p ix t reg a' f)
          as [(s' & -> & Htables & _ & _)|(rows' & s' & -> & Hrounds & Htables & _)]
    end.
    + left. by eexists _, _.
    + right. exists 1, (current_revision s edgetype gid1 + 1), rows', s'.
      split; [reflexivity|]. split; [exact Hrounds|].
      split; [by rewrite Htables|]. intros; discriminate.
Qed.

Lemma add_raises_on_taken_pair s edgetype gid1 gid2 encoding data indices overwrite
    indextype indexvalue row :
  In (indextype, indexvalue, true) indices →
  In row (edgeindex (shard_tables s)) →
  index_at indextype indexvalue row = true →
  (∀ old, overwrite = true → edge_of s edgetype gid1 gid2 = Some old →
          ¬ (EdgeIndex.gid1 row = gid1 ∧ EdgeIndex.revision row = EdgeData.revision old)) →
  ∃ e s', EdgeStoreShard.add edgetype gid1 gid2 encoding data indices overwrite s = (inl e, s')
          ∧ shard_tables s' = shard_tables s.
Proof.
  intros Hentry Hin Hat Hother.
  destruct (add_outcome s edgetype gid1 gid2 encoding data indices overwrite)
    as [Hraised|(affected & prev & rows' & s' & _ & Hrounds & _ & Hupdate)];
    [exact Hraised|].
  rewrite (index_rounds_blocked _ _ _ _ _ _ _ Hentry _ row Hin Hat) in Hrounds;
    [discriminate|].
  intros Haff [Hgid Hrev]. destruct (Hupdate Haff) as (Hov & old & Hold & ->).
  exact (Hother old Hov Hold (conj Hgid Hrev)).
Qed.

Lemma add_keeps_unique_pair s edgetype gid1 gid2 encoding data indices overwrite
    indextype indexvalue :
  flagged_unique indextype indexvalue indices →
  (rows_at indextype indexvalue (edgeindex (shard_tables s)) ≤ 1)%nat →
  (rows_at indextype indexvalue
     (edgeindex (shard_tables
        (EdgeStoreShard.add edgetype gid1 gid2 encoding data indices overwrite s).2))
   ≤ 1)%nat.
Proof.
  intros Hflags Hle.
  destruct (add_outcome s edgetype gid1 gid2 encoding data indices overwrite)
    as [(e & s' & -> & Htables)|(affected & prev & rows' & s' & -> & Hrounds & Hrows & _)];
    cbn [snd].
  - by rewrite Htables.
  - rewrite Hrows. exact (index_rounds_unique _ _ _ _ _ _ _ Hflags _ _ Hle Hrounds).
Qed.

(** C3, as stated, fails on both counts.  An overwrite that names again the
    unique pair of the version it replaces succeeds although a row at the
    pair existed when it was called (the row is deleted before the probe);
    and a pair inserted under the unique flag gets a second row from a later
    [add] that names it without the flag. *)
Lemma unique_pair_not_enforced :
  let first := EdgeStoreShard.add 7 gid_5_1 gid_5_2 1 "x" [(3, "k", true)] false fresh_shard in
  let again := EdgeStoreShard.add 7 gid_5_1 gid_5_2 1 "y" [(3, "k", true)] true first.2 in
  let other := EdgeStoreShard.add 7 gid_5_1 gid_5_3 1 "z" [(3, "k", false)] false first.2 in
  first.1 = inr (Edge.mk 7 gid_5_1 gid_5_2 1 1 "x")
  ∧ edgeindex (shard_tables first.2) = [EdgeIndex.mk 3 "k" gid_5_1 1]
  ∧ again.1 = inr (Edge.mk 7 gid_5_1 gid_5_2 2 1 "y")
  ∧ edgeindex (shard_tables again.2) = [EdgeIndex.mk 3 "k" gid_5_1 2]
  ∧ other.1 = inr (Edge.mk 7 gid_5_1 gid_5_3 2 1 "z")
  ∧ edgeindex (shard_tables other.2)
    = [EdgeIndex.mk 3 "k" gid_5_1 1; EdgeIndex.mk 3 "k" gid_5_1 2]
  ∧ rows_at 3 "k" (edgeindex (shard_tables other.2)) = 2%nat.
Proof. vm_compute. repeat split. Qed.

(** ** Relations that every step of a method respects *)

Section Steps.

Variable R : EdgeStoreShard.t → EdgeStoreShard.t → Prop.
Hypothesis R_refl : ∀ s, R s s.
Hypothesis R_trans : ∀ s1 s2 s3, R s1 s2 → R s2 s3 → R s1 s3.

Lemma steps_ret {A} (a : A) : steps R (ret a).
Proof. intros s. apply R_refl. Qed.

Lemma steps_raise {A} e : steps R (raise (A := A) e).
Proof. intros s. apply R_refl. Qed.

Lemma steps_assert cond msg : steps R (assert cond msg).
Proof. destruct cond; [apply steps_ret|apply steps_raise]. Qed.

Lemma steps_bind {A B} (m : M EdgeStoreShard.t A) (k : A → M EdgeStoreShard.t B) :
  steps R m → (∀ a, steps R (k a)) → steps R (bind m k).
Proof.
  intros Hm Hk s. unfold bind. specialize (Hm s).
  destruct (m s) as [[e|a] s1]; [exact Hm|].
  eapply R_trans; [exact Hm|apply Hk].
Qed.

Lemma steps_for_each {A} (xs : list A) (body : A → M EdgeStoreShard.t unit) :
  (∀ x, steps R (body x)) → steps R (for_each xs body).
Proof.
  intros Hbody. induction xs as [|x xs IH]; [apply steps_ret|].
  cbn [for_each]. apply steps_bind; [apply Hbody|intros _; exact IH].
Qed.

(** A transaction respects [R] when its body does and [R] does not see
    what commit and rollback change besides the tables. *)
Lemma steps_transaction {A} (body : M EdgeStoreShard.t A) :
  (∀ s, R s (in_transaction s)) →
  (∀ s s', R s' (EdgeStoreShard.set_db
                   (DB.committed (EdgeStoreShard._db s) (EdgeStoreShard._db s')) s')) →
  (∀ s s', R (in_transaction s) s' →
           R s (EdgeStoreShard.set_db
                  (DB.rolled_back (EdgeStoreShard._db s) (EdgeStoreShard._db s')) s')) →
  steps R body → steps R (EdgeStoreShard.transaction body).
Proof.
  intros Hbegin Hcommit Hrollback Hbody s.
  unfold EdgeStoreShard.transaction, DB.transaction. fold (in_transaction s).
  specialize (Hbody (in_transaction s)).
  destruct (body (in_transaction s)) as [[e|a] s']; cbn [snd] in *.
  - apply Hrollback, Hbody.
  - eapply R_trans; [apply Hbegin|]. eapply R_trans; [exact Hbody|apply Hcommit].
Qed.

End Steps.

(** *** The flag is never cleared *)

Lemma flag_kept_refl s : flag_kept s s.
Proof. intros H; exact H. Qed.

Lemma flag_kept_trans s1 s2 s3 : flag_kept s1 s2 → flag_kept s2 s3 → flag_kept s1 s3.
Proof. unfold flag_kept. auto. Qed.

Lemma flag_kept_db {A} (m : M Connection A) : steps flag_kept (EdgeStoreShard.db m).
Proof.
  intros s. unfold EdgeStoreShard.db, zoom. destruct (m (EdgeStoreShard._db s)).
  intros H; exact H.
Qed.

Lemma flag_kept_set : steps flag_kept (modify (EdgeStoreShard.set_lastAddWasOverwrite true)).
Proof. intros s _. reflexivity. Qed.

Lemma flag_kept_transaction {A} (body : M EdgeStoreShard.t A) :
  steps flag_kept body → steps flag_kept (EdgeStoreShard.transaction body).
Proof.
  apply steps_transaction.
  - exact flag_kept_trans.
  - intros s H; exact H.
  - intros s s' H; exact H.
  - intros s s' H; exact H.
Qed.

Ltac flag_kept_steps :=
  repeat first
    [ apply flag_kept_transaction
    | apply (steps_bind flag_kept flag_kept_trans); [|intros ?]
    | apply (steps_for_each flag_kept flag_kept_refl flag_kept_trans); intros ?
    | apply flag_kept_db
    | apply flag_kept_set
    | apply (steps_ret flag_kept flag_kept_refl)
    | apply (steps_raise flag_kept flag_kept_refl)
    | apply (steps_assert flag_kept flag_kept_refl)
    | match goal with
      | |- steps _ (if ?c then _ else _) => destruct c
      | |- steps _ (match ?x with _ => _ end) => destruct x
      | |- steps _ (let '(_, _) := ?x in _) => destruct x
      end ].

Lemma add_keeps_flag edgetype gid1 gid2 encoding data indices overwrite :
  steps flag_kept (EdgeStoreShard.add edgetype gid1 gid2 encoding data indices overwrite).
Proof.
  unfold EdgeStoreShard.add, EdgeStoreShard._incrementRevision,
    EdgeStoreShard._incrementCount, EdgeStoreShard.add_index.
  flag_kept_steps.
Qed.

Lemma delete_keeps_flag edgetype gid1 gid2 indextypes :
  steps flag_kept (EdgeStoreShard.delete edgetype gid1 gid2 indextypes).
Proof.
  unfold EdgeStoreShard.delete, EdgeStoreShard._incrementRevision,
    EdgeStoreShard._incrementCount.
  flag_kept_steps.
Qed.

(** *** [delete] only removes index rows, and unique pairs stay unique *)

Lemma index_shrinks_refl s : index_shrinks s s.
Proof. intros it iv. reflexivity. Qed.

Lemma index_shrinks_trans s1 s2 s3 :
  index_shrinks s1 s2 → index_shrinks s2 s3 → index_shrinks s1 s3.
Proof. intros H12 H23 it iv. etransitivity; [apply H23|apply H12]. Qed.

Lemma execute_shrinks q d indextype indexvalue :
  inserts_index q = false →
  (rows_at indextype indexvalue (edgeindex (tables (execute q d).2))
   ≤ rows_at indextype indexvalue (edgeindex (tables d)))%nat.
Proof.
  intros Hq. destruct d as [[ed em ei co] lid aff ong].
  destruct q; try discriminate Hq; unfold execute, changed, selected; simpl;
    repeat match goal with
           | |- context [match ?m !! ?k with _ => _ end] => destruct (m !! k)
           end;
    simpl; try reflexivity.
  apply rows_at_filter.
Qed.

Lemma index_shrinks_run q :
  inserts_index q = false → steps index_shrinks (EdgeStoreShard.db (DB.run q)).
Proof.
  intros Hq s it iv. pose proof (execute_shrinks q (EdgeStoreShard._db s) it iv Hq) as H.
  unfold EdgeStoreShard.db, zoom, DB.run, bind, ret.
  destruct (execute q (EdgeStoreShard._db s)) as [[e|rows] d]; exact H.
Qed.

Lemma index_shrinks_getOne q :
  inserts_index q = false → steps index_shrinks (EdgeStoreShard.db (DB.getOne q)).
Proof.
  intros Hq s it iv. pose proof (execute_shrinks q (EdgeStoreShard._db s) it iv Hq) as H.
  unfold EdgeStoreShard.db, zoom, DB.getOne, bind, ret.
  destruct (execute q (EdgeStoreShard._db s)) as [[e|rows] d]; exact H.
Qed.

Lemma index_shrinks_gets {A} (f : Connection → A) :
  steps index_shrinks (EdgeStoreShard.db (gets f)).
Proof. intros [d flag] it iv. reflexivity. Qed.

Lemma index_shrinks_transaction {A} (body : M EdgeStoreShard.t A) :
  steps index_shrinks body → steps index_shrinks (EdgeStoreShard.transaction body).
Proof.
  apply steps_transaction.
  - exact index_shrinks_trans.
  - intros s it iv. reflexivity.
  - intros s s' it iv. reflexivity.
  - intros s s' _ it iv. reflexivity.
Qed.

Lemma delete_shrinks_index edgetype gid1 gid2 indextypes :
  steps index_shrinks (EdgeStoreShard.delete edgetype gid1 gid2 indextypes).
Proof.
  unfold EdgeStoreShard.delete, EdgeStoreShard._incrementRevision,
    EdgeStoreShard._incrementCount, DB.getAffectedRows, DB.getLastInsertID.
  repeat first
    [ apply index_shrinks_transaction
    | apply (steps_bind index_shrinks index_shrinks_trans); [|intros ?]
    | apply (steps_for_each index_shrinks index_shrinks_refl index_shrinks_trans); intros ?
    | apply index_shrinks_run; reflexivity
    | apply index_shrinks_getOne; reflexivity
    | apply index_shrinks_gets
    | apply (steps_ret index_shrinks index_shrinks_refl)
    | apply (steps_raise index_shrinks index_shrinks_refl)
    | apply (steps_assert index_shrinks index_shrinks_refl)
    | match goal with
      | |- steps _ (if ?c then _ else _) => destruct c
      | |- steps _ (match ?x with _ => _ end) => destruct x
      end ].
Qed.

(** In a history of mutations that always names the pair
    [(indextype, indexvalue)] under the unique flag, the pair never has more
    than one row. *)
Lemma unique_pair_invariant history indextype indexvalue :
  Forall (mutation_flags_unique indextype indexvalue) history →
  ∀ s, (rows_at indextype indexvalue (edgeindex (shard_tables s)) ≤ 1)%nat →
       (rows_at indextype indexvalue (edgeindex (shard_tables (apply_history history s))) ≤ 1)%nat.
Proof.
  induction 1 as [|m history Hm _ IH]; intros s Hle; [exact Hle|].
  cbn [apply_history foldl]. apply IH. destruct m as [et g1 g2 enc data indices ow|et g1 g2 its].
  - cbn [apply_mutation]. by apply add_keeps_unique_pair.
  - cbn [apply_mutation]. etransitivity; [apply delete_shrinks_index|exact Hle].
Qed.

(** C3 (amended). (1) If [indices] holds a unique-flagged
    [(indextype, indexvalue)] and [edgeindex] has a row at that pair other
    than a row that carries the [gid1] and the stored revision of an edge
    which the call overwrites, [add] raises and the tables are as before the
    call.  (2) Through any history of [add] and [delete] in which every
    [add] that names the pair flags it unique, a shard that holds at most
    one row at the pair keeps holding at most one. *)
Theorem unique_index_enforced indextype indexvalue :
  (∀ s edgetype gid1 gid2 encoding data indices overwrite row,
     In (indextype, indexvalue, true) indices →
     In row (edgeindex (shard_tables s)) →
     index_at indextype indexvalue row = true →
     (∀ old, overwrite = true → edge_of s edgetype gid1 gid2 = Some old →
             ¬ (EdgeIndex.gid1 row = gid1 ∧ EdgeIndex.revision row = EdgeData.revision old)) →
     ∃ e s', EdgeStoreShard.add edgetype gid1 gid2 encoding data indices overwrite s
             = (inl e, s')
             ∧ shard_tables s' = shard_tables s)
  ∧ (∀ history s,
       Forall (mutation_flags_unique indextype indexvalue) history →
       (rows_at indextype indexvalue (edgeindex (shard_tables s)) ≤ 1)%nat →
       (rows_at indextype indexvalue (edgeindex (shard_tables (apply_history history s)))
        ≤ 1)%nat).
Proof.
  split.
  - intros s edgetype gid1 gid2 encoding data indices overwrite row.
    apply add_raises_on_taken_pair.
  - intros history s Hflags. by apply unique_pair_invariant.
Qed.

Lemma unique_index_enforced_witness :
  let s := (EdgeStoreShard.add 7 gid_5_1 gid_5_2 1 "x" [(3, "k", true)] false fresh_shard).2 in
  let history :=
    [Add 7 gid_5_1 gid_5_2 1 "x" [(3, "k", true)] false;
     Add 7 gid_5_1 gid_5_3 1 "z" [(3, "k", true)] false;
     Add 7 gid_5_1 gid_5_2 1 "y" [(3, "k", true)] true;
     Delete 7 gid_5_1 gid_5_2 [3];
     Add 7 gid_5_1 gid_5_3 1 "z" [(3, "k", true)] false] in
  (∃ e s', EdgeStoreShard.add 7 gid_5_1 gid_5_3 1 "z" [(3, "k", true)] false s = (inl e, s')
           ∧ shard_tables s' = shard_tables s)
  ∧ Nat.le (rows_at 3 "k" (edgeindex (shard_tables (apply_history history fresh_shard)))) 1.
Proof.
  intros s history. destruct (unique_index_enforced 3 "k") as [Hfails Hkeeps].
  split.
  - apply (Hfails s 7 gid_5_1 gid_5_3 1 "z" [(3, "k", true)] false
             (EdgeIndex.mk 3 "k" gid_5_1 1)).
    + left; reflexivity.
    + left; reflexivity.
    + reflexivity.
    + intros old Hov; discriminate Hov.
  - apply (Hkeeps history fresh_shard).
    + repeat constructor; intros unique [Heq|[]]; injection Heq as <-; reflexivity.
    + apply le_0_n.
Defined.

(** The rows an overwrite removes are selected by index type, [gid1] and
    revision alone: the index row of an edge of another edge type under the
    same [gid1], at the same revision number, goes with them, and the
    uniqueness probe then passes. *)
Lemma overwrite_removes_row_of_other_edgetype :
  let s1 := (EdgeStoreShard.add 8 gid_5_1 gid_5_3 1 "w" [(3, "k", true)] false fresh_shard).2 in
  let s2 := (EdgeStoreShard.add 7 gid_5_1 gid_5_2 1 "x" [] false s1).2 in
  let again := EdgeStoreShard.add 7 gid_5_1 gid_5_2 1 "y" [(3, "k", true)] true s2 in
  edgeindex (shard_tables s2) = [EdgeIndex.mk 3 "k" gid_5_1 1]
  ∧ edge_of s2 8 gid_5_1 gid_5_3 = Some (EdgeData.mk 1 1 "w")
  ∧ edge_of s2 7 gid_5_1 gid_5_2 = Some (EdgeData.mk 1 1 "x")
  ∧ again.1 = inr (Edge.mk 7 gid_5_1 gid_5_2 2 1 "y")
  ∧ edgeindex (shard_tables again.2) = [EdgeIndex.mk 3 "k" gid_5_1 2]
  ∧ edge_of again.2 8 gid_5_1 gid_5_3 = Some (EdgeData.mk 1 1 "w").
Proof. vm_compute. repeat split. Qed.

(** ** The scenarios of section 8 of the specification, on a shard *)

(** S2: add, then get and count. *)
Lemma scenario_add_get :
  let added := EdgeStoreShard.add 7 gid_5_1 gid_5_2 1 "x" [] false fresh_shard in
  added.1 = inr (Edge.mk 7 gid_5_1 gid_5_2 1 1 "x")
  ∧ (EdgeStoreShard.get 7 gid_5_1 gid_5_2 None None added.2).1
    = inr (Some (EdgeRow (Edge.mk 7 gid_5_1 gid_5_2 1 1 "x")))
  ∧ (EdgeStoreShard.count 7 gid_5_1 added.2).1 = inr 1.
Proof. vm_compute. repeat split. Qed.

(** S3: an overwrite advances the revision and keeps the count. *)
Lemma scenario_overwrite :
  let s1 := (EdgeStoreShard.add 7 gid_5_1 gid_5_2 1 "x" [] false fresh_shard).2 in
  let again := EdgeStoreShard.add 7 gid_5_1 gid_5_2 1 "y" [] true s1 in
  again.1 = inr (Edge.mk 7 gid_5_1 gid_5_2 2 1 "y")
  ∧ (EdgeStoreShard.count 7 gid_5_1 again.2).1 = inr 1
  ∧ EdgeStoreShard.lastAddWasOverwrite again.2 = true.
Proof. vm_compute. repeat split. Qed.

(** S4: a second edge under a taken unique pair is refused and leaves no
    trace in the tables. *)
Lemma scenario_unique_violation :
  let s1 := (EdgeStoreShard.add 7 gid_5_1 gid_5_2 1 "x" [(3, "k", true)] false fresh_shard).2 in
  let second := EdgeStoreShard.add 7 gid_5_1 gid_5_3 1 "x" [(3, "k", true)] false s1 in
  second.1 = inl (AssertionError "edge violates index uniqueness")
  ∧ shard_tables second.2 = shard_tables s1
  ∧ edgeindex (shard_tables second.2) = [EdgeIndex.mk 3 "k" gid_5_1 1].
Proof. vm_compute. repeat split. Qed.

(** S5: a delete removes the index rows of the deleted version. *)
Lemma scenario_delete_cleans_indices :
  let s1 := (EdgeStoreShard.add 7 gid_5_1 gid_5_2 1 "x" [(3, "k", false)] false fresh_shard).2 in
  let deleted := EdgeStoreShard.delete 7 gid_5_1 gid_5_2 [3] s1 in
  deleted.1 = inr true
  ∧ (EdgeStoreShard.count 7 gid_5_1 deleted.2).1 = inr 0
  ∧ edgeindex (shard_tables deleted.2) = [].
Proof. vm_compute. repeat split. Qed.

(** ** Queries by index under a parent *)

Lemma In_insert_by {A} (le : A → A → bool) x y l :
  In y (insert_by le x l) ↔ y = x ∨ In y l.
Proof.
  induction l as [|z l IH]; cbn [insert_by].
  - simpl. intuition.
  - destruct (le x z); simpl in *; intuition.
Qed.

Lemma In_order_by {A} (le : A → A → bool) y l :
  In y (order_by le l) ↔ In y l.
Proof.
  unfold order_by. induction l as [|x l IH]; [reflexivity|].
  cbn [foldr]. rewrite In_insert_by, IH. simpl. intuition.
Qed.

Lemma In_index_join where_ on t i e :
  In (i, e) (index_join where_ on t)
  ↔ In i (edgeindex t) ∧ where_ i = true ∧ In e (edge_rows t) ∧ on i e = true.
Proof.
  unfold index_join. rewrite in_flat_map. split.
  - intros (j & Hj & Hin). apply filter_In in Hj. apply in_map_iff in Hin.
    destruct Hin as (e' & Heq & He'). injection Heq as -> ->.
    apply filter_In in He'. tauto.
  - intros (Hi & Hw & He & Hon). exists i. split; [by apply filter_In|].
    apply in_map_iff. exists e. split; [reflexivity|]. by apply filter_In.
Qed.

(** What [_listIndexSQL] selects: the edges of the parent whose revision
    number is the revision of some row of [edgeindex] of the given type and
    range, whichever parent that row belongs to. *)
Lemma listIndexSQL_selects d edgetype gid1 indextype lo hi e :
  ∃ rows,
    execute (_listIndexSQL edgetype gid1 indextype lo hi) d = (inr rows, d)
    ∧ (In (EdgeRow e) rows
       ↔ In e (edge_rows (tables d))
         ∧ Edge.edgetype e = edgetype ∧ Edge.gid1 e = gid1
         ∧ ∃ i, In i (edgeindex (tables d))
                ∧ EdgeIndex.indextype i = indextype
                ∧ between lo hi (EdgeIndex.indexvalue i) = true
                ∧ EdgeIndex.revision i = Edge.revision e).
Proof.
  eexists. split; [reflexivity|].
  rewrite <- list_elem_of_In, list_elem_of_fmap. split.
  - intros ([i e'] & Heq & Hin). injection Heq as <-.
    apply list_elem_of_In, In_order_by, In_index_join in Hin.
    destruct Hin as (Hi & Hw & He & Hon). unfold index_where in Hw.
    rewrite !andb_true_iff, !Z.eqb_eq in Hon, Hw. simpl.
    rewrite andb_true_iff, !Z.eqb_eq in Hon.
    destruct Hon as [[Het Hg] Hrev], Hw as [Hit Hrange].
    split; [exact He|]. split; [exact Het|]. split; [exact Hg|].
    exists i. auto.
  - intros (He & Het & Hg & i & Hi & Hit & Hrange & Hrev).
    exists (i, e). split; [reflexivity|].
    apply list_elem_of_In, In_order_by, In_index_join. unfold index_where.
    rewrite !andb_true_iff, !Z.eqb_eq. auto 10.
Qed.

(** C5. A query by parent and index returns an edge of the parent that has
    no index entry at all: the only row of [edgeindex] belongs to another
    parent and happens to carry the same revision number. *)
Theorem query_by_index_returns_unindexed_edge :
  let s1 := (EdgeStoreShard.add 7 gid_5_1 gid_5_3 1 "x" [(3, "k", false)] false fresh_shard).2 in
  let s2 := (EdgeStoreShard.add 7 gid_5_2 gid_5_3 1 "y" [] false s1).2 in
  edgeindex (shard_tables s2) = [EdgeIndex.mk 3 "k" gid_5_1 1]
  ∧ (EdgeStoreShard.query 7 (Some 3) (Some ("a", "z")) (Some gid_5_2) s2).1
    = inr [EdgeRow (Edge.mk 7 gid_5_2 gid_5_3 1 1 "y")].
Proof. vm_compute. split; reflexivity. Qed.

(** ** Routing *)

Lemma getColoShard_raises hosts colo st :
  EdgeStore._getColoShard hosts colo st = (inl (AttributeError "NUM_HOSTS"), st).
Proof. reflexivity. Qed.

Lemma getShard_raises hosts gid st :
  EdgeStore._getShard hosts gid st = (inl (AttributeError "NUM_HOSTS"), st).
Proof. reflexivity. Qed.

(** The name the class body binds resolves, to the number of hosts. *)
Lemma NUM_HOSTS_is_bound_with_underscore hosts (st : EdgeStore.State) :
  load_attr (EdgeStore_constants hosts) "_NUM_HOSTS" st = (inr (Z.of_nat (length hosts)), st).
Proof. reflexivity. Qed.

(** C4. No façade operation reaches a shard: [_getColoShard] reads
    [self.NUM_HOSTS], an attribute that neither the object nor the class has
    (the class binds [_NUM_HOSTS]), so [add], [delete], [get], [count] and
    [query] with a [gid1] raise [AttributeError] and change nothing, instead
    of going to the host [colo(gid1) mod N]. *)
Theorem facade_routing_raises hosts st edgetype gid1 gid2 encoding data indices overwrite
    indextypes index :
  gid1 ≠ 0 →
  EdgeStore._getColoShard hosts (EdgeStore.colo gid1) st
  = (inl (AttributeError "NUM_HOSTS"), st)
  ∧ EdgeStore.add hosts edgetype gid1 gid2 encoding data indices overwrite st
    = (inl (AttributeError "NUM_HOSTS"), st)
  ∧ EdgeStore.delete hosts edgetype gid1 gid2 indextypes st
    = (inl (AttributeError "NUM_HOSTS"), st)
  ∧ EdgeStore.get hosts edgetype gid1 gid2 index st
    = (inl (AttributeError "NUM_HOSTS"), st)
  ∧ EdgeStore.count hosts edgetype gid1 st
    = (inl (AttributeError "NUM_HOSTS"), st)
  ∧ EdgeStore.query hosts edgetype index (Some gid1) None st
    = (inl (AttributeError "NUM_HOSTS"), st).
Proof.
  intros Hgid. repeat split.
  unfold EdgeStore.query, truthy_opt, truthy.
  destruct (Z.eqb_spec gid1 0) as [Hz|_]; [contradiction|]. reflexivity.
Qed.

Lemma facade_routing_raises_witness :
  gid_5_1 ≠ 0
  ∧ EdgeStore._getColoShard two_hosts (EdgeStore.colo gid_5_1) fresh_store
    = (inl (AttributeError "NUM_HOSTS"), fresh_store)
  ∧ EdgeStore.add two_hosts 7 gid_5_1 gid_5_2 1 "x" [] false fresh_store
    = (inl (AttributeError "NUM_HOSTS"), fresh_store)
  ∧ EdgeStore.delete two_hosts 7 gid_5_1 gid_5_2 [] fresh_store
    = (inl (AttributeError "NUM_HOSTS"), fresh_store)
  ∧ EdgeStore.get two_hosts 7 gid_5_1 gid_5_2 None fresh_store
    = (inl (AttributeError "NUM_HOSTS"), fresh_store)
  ∧ EdgeStore.count two_hosts 7 gid_5_1 fresh_store
    = (inl (AttributeError "NUM_HOSTS"), fresh_store)
  ∧ EdgeStore.query two_hosts 7 None (Some gid_5_1) None fresh_store
    = (inl (AttributeError "NUM_HOSTS"), fresh_store).
Proof.
  split; [discriminate|].
  apply (facade_routing_raises two_hosts fresh_store 7 gid_5_1 gid_5_2 1 "x" [] false [] None).
  discriminate.
Defined.

(** ** Identifier generation *)

(** The colocation of an identifier composed as [generateGid] composes
    it. *)
Lemma colo_of_composed C counter :
  0 ≤ counter < 2 ^ 32 → EdgeStore.colo (Z.shiftl C 32 + counter) = C.
Proof.
  intros Hcounter. unfold EdgeStore.colo.
  rewrite Z.shiftr_div_pow2, Z.shiftl_mul_pow2 by lia.
  rewrite Z.add_comm, Z.div_add by lia. rewrite Z.div_small by lia. reflexivity.
Qed.

(** What the statement text would do if it were run: the first run for a
    colocation stores [start] in the register, each later run the counter
    plus one. *)
Lemma generateGidSQL_counts d c start :
  colo (tables d) !! c = None →
  let first := execute (_generateGidSQL c start) d in
  let second := execute (_generateGidSQL c start) first.2 in
  last_insert_id first.2 = start ∧ last_insert_id second.2 = start + 1.
Proof.
  intros Hfresh. destruct d as [[ed em ei co] lid aff ong]. simpl in *.
  unfold execute, changed. simpl. rewrite Hfresh. simpl.
  rewrite lookup_insert_eq. simpl. split; reflexivity.
Qed.

(** C7. [generateGid] returns no identifier.  On a shard the method names
    [_generateGidSQL] bare, and the name is bound in the class body only:
    the call raises [NameError] before the statement is run.  On the façade
    the call raises [AttributeError] when it resolves the shard. *)
Theorem generateGid_raises hosts random_colo st s C start :
  C ≠ 0 →
  EdgeStoreShard.generateGid C start s = (inl (NameError "_generateGidSQL"), s)
  ∧ EdgeStore.generateGid hosts random_colo None (Some C) st
    = (inl (AttributeError "NUM_HOSTS"), st).
Proof.
  intros HC. split; [reflexivity|].
  unfold EdgeStore.generateGid, truthy_opt, truthy.
  destruct (Z.eqb_spec C 0) as [Hz|_]; [contradiction|]. reflexivity.
Qed.

Lemma generateGid_raises_witness :
  5 ≠ 0
  ∧ EdgeStoreShard.generateGid 5 1 fresh_shard = (inl (NameError "_generateGidSQL"), fresh_shard)
  ∧ EdgeStore.generateGid two_hosts 0 None (Some 5) fresh_store
    = (inl (AttributeError "NUM_HOSTS"), fresh_store).
Proof.
  split; [discriminate|].
  apply (generateGid_raises two_hosts 0 fresh_store fresh_shard 5 1). discriminate.
Defined.

(** ** The registry of instances *)

(** C8. [getInstance] never records the object it builds: as long as
    [_instances] has no entry for [dbname] (and nothing ever adds one), two
    calls build two objects. *)
Theorem getInstance_builds_anew r dbname :
  EdgeStore._instances r !! dbname = None →
  ∃ a b r1 r2,
    EdgeStore.getInstance dbname r = (inr a, r1)
    ∧ EdgeStore.getInstance dbname r1 = (inr b, r2)
    ∧ a ≠ b
    ∧ EdgeStore._instances r2 = EdgeStore._instances r.
Proof.
  intros Hnone.
  assert (Hcall : ∀ r', EdgeStore._instances r' !! dbname = None →
            EdgeStore.getInstance dbname r'
            = (inr (length (EdgeStore.objects r')),
               EdgeStore.mkRegistry (EdgeStore._instances r')
                 (EdgeStore.objects r' ++ [EdgeStore.__init__ dbname]))).
  { intros r' Hr'. unfold EdgeStore.getInstance, bind, gets, modify, ret. by rewrite Hr'. }
  eexists _, _, _, _. split; [exact (Hcall r Hnone)|].
  split; [apply Hcall; exact Hnone|]. simpl.
  split; [|reflexivity]. rewrite length_app. simpl. lia.
Qed.

Lemma getInstance_builds_anew_witness :
  EdgeStore._instances EdgeStore.no_instances !! "edgestore" = None
  ∧ ∃ a b r1 r2,
      EdgeStore.getInstance "edgestore" EdgeStore.no_instances = (inr a, r1)
      ∧ EdgeStore.getInstance "edgestore" r1 = (inr b, r2)
      ∧ a ≠ b
      ∧ EdgeStore._instances r2 = EdgeStore._instances EdgeStore.no_instances.
Proof.
  split; [reflexivity|].
  apply (getInstance_builds_anew EdgeStore.no_instances "edgestore"). reflexivity.
Defined.

Lemma getInstance_keeps_instances r dbname :
  EdgeStore._instances (EdgeStore.getInstance dbname r).2 = EdgeStore._instances r.
Proof.
  unfold EdgeStore.getInstance, bind, gets, modify, ret.
  destruct (EdgeStore._instances r !! dbname); reflexivity.
Qed.

Lemma getInstance_twice :
  let first := EdgeStore.getInstance "edgestore" EdgeStore.no_instances in
  let second := EdgeStore.getInstance "edgestore" first.2 in
  first.1 = inr 0%nat ∧ second.1 = inr 1%nat.
Proof. split; reflexivity. Qed.

(** ** The colocation lock *)

Lemma lock_first_entry_raises hosts {A} colo (body : option Z → M EdgeStore.State A) st :
  colo ∉ EdgeStore._locked_colos (EdgeStore.self st) →
  ∃ st', EdgeStore.lock hosts colo body st = (inl (AttributeError "NUM_HOSTS"), st')
         ∧ EdgeStore._locked_colos (EdgeStore.self st')
           = EdgeStore._locked_colos (EdgeStore.self st)
         ∧ EdgeStore.connections st' = EdgeStore.connections st.
Proof.
  intros Hfree. unfold EdgeStore.lock, bind at 1, gets at 1.
  rewrite bool_decide_eq_false_2 by exact Hfree.
  unfold try_finally. unfold bind at 1, modify at 1.
  unfold bind at 1. rewrite getColoShard_raises.
  unfold bind, gets, modify. cbn [EdgeStore.self EdgeStore.set_self
    EdgeStore._locked_colos EdgeStore.set_locked_colos].
  rewrite bool_decide_eq_true_2
    by (apply elem_of_union; right; apply elem_of_singleton; reflexivity).
  eexists. split; [reflexivity|]. split; [|reflexivity].
  apply set_eq. intros x. simpl.
  rewrite elem_of_difference, elem_of_union, elem_of_singleton.
  split; [tauto|]. intros Hx. split; [tauto|]. intros ->. contradiction.
Qed.

Lemma lock_first_entry_eq hosts {A} colo (body : option Z → M EdgeStore.State A) st :
  colo ∉ EdgeStore._locked_colos (EdgeStore.self st) →
  EdgeStore.lock hosts colo body st = (inl (AttributeError "NUM_HOSTS"), st).
Proof.
  intros Hfree.
  destruct (lock_first_entry_raises hosts colo body st Hfree) as (st' & Hrun & Hset & Hconn).
  rewrite Hrun. f_equal.
  assert (Hself : EdgeStore.self st'
                  = EdgeStore.set_locked_colos
                      (λ _, EdgeStore._locked_colos (EdgeStore.self st')) (EdgeStore.self st)).
  { revert Hrun. unfold EdgeStore.lock, bind at 1, gets at 1.
    rewrite bool_decide_eq_false_2 by exact Hfree.
    unfold try_finally. unfold bind at 1, modify at 1.
    unfold bind at 1. rewrite getColoShard_raises.
    unfold bind, gets, modify. cbn [EdgeStore.self EdgeStore.set_self
      EdgeStore._locked_colos EdgeStore.set_locked_colos].
    rewrite bool_decide_eq_true_2
      by (apply elem_of_union; right; apply elem_of_singleton; reflexivity).
    intros [= <-]. reflexivity. }
  destruct st as [self conns], st' as [self' conns']. cbn in *. subst conns'.
  f_equal. rewrite Hself, Hset. destruct self. reflexivity.
Qed.

(** C9. No [lock] scope is ever held.  On a store that does not hold
    [colo], and a new store holds none, [lock(colo)] raises [AttributeError]
    where it resolves the shard, before its [yield]: the body of the [with]
    is not run, whatever it is, no transaction is opened, and the store is
    left as it was, [colo] out of [_locked_colos].  So a [lock] nested in the
    body is never entered, and the scope has no exit but this failure. *)
Theorem lock_never_holds hosts {A} colo (body : option Z → M EdgeStore.State A) st :
  colo ∉ EdgeStore._locked_colos (EdgeStore.self st) →
  EdgeStore.lock hosts colo body st = (inl (AttributeError "NUM_HOSTS"), st)
  ∧ (colo ∉ EdgeStore._locked_colos (EdgeStore.self (EdgeStore.lock hosts colo body st).2))
  ∧ EdgeStore.connections (EdgeStore.lock hosts colo body st).2 = EdgeStore.connections st.
Proof.
  intros Hfree. rewrite (lock_first_entry_eq hosts colo body st Hfree). auto.
Qed.

Lemma lock_never_holds_witness :
  (5 ∉ EdgeStore._locked_colos (EdgeStore.self fresh_store))
  ∧ EdgeStore.lock two_hosts 5
      (λ _, EdgeStore.lock two_hosts 5
              (λ _, EdgeStore.add two_hosts 7 gid_5_1 gid_5_2 1 "x" [] false))
      fresh_store
    = (inl (AttributeError "NUM_HOSTS"), fresh_store).
Proof.
  assert (Hfree : 5 ∉ EdgeStore._locked_colos (EdgeStore.self fresh_store)).
  { intros Hin. vm_compute in Hin. discriminate Hin. }
  split; [exact Hfree|].
  exact (proj1 (lock_never_holds two_hosts 5
                  (λ _, EdgeStore.lock two_hosts 5
                          (λ _, EdgeStore.add two_hosts 7 gid_5_1 gid_5_2 1 "x" [] false))
                  fresh_store Hfree)).
Defined.

(** What the first statement of [lock] does on a store that holds
    [colo]: the scope is the bare body, with nothing added to what the body
    itself does.  No call of [lock] leaves a store in that state. *)
Lemma lock_while_held_is_the_body hosts {A} colo (body : option Z → M EdgeStore.State A) st :
  colo ∈ EdgeStore._locked_colos (EdgeStore.self st) →
  EdgeStore.lock hosts colo body st = body None st.
Proof.
  intros Hheld. unfold EdgeStore.lock, bind, gets.
  by rewrite bool_decide_eq_true_2.
Qed.

(** ** The overwrite flag *)

Lemma flag_kept_history history s :
  EdgeStoreShard.lastAddWasOverwrite s = true →
  EdgeStoreShard.lastAddWasOverwrite (apply_history history s) = true.
Proof.
  revert s. induction history as [|m history IH]; intros s Hset; [exact Hset|].
  cbn [apply_history foldl]. apply IH. destruct m; cbn [apply_mutation].
  - by apply add_keeps_flag.
  - by apply delete_keeps_flag.
Qed.

(** An insert after an overwrite: the shard still reports an overwrite. *)
Lemma insert_after_overwrite_reports_overwrite :
  let s1 := (EdgeStoreShard.add 7 gid_5_1 gid_5_2 1 "x" [] false fresh_shard).2 in
  let s2 := (EdgeStoreShard.add 7 gid_5_1 gid_5_2 1 "y" [] true s1).2 in
  let third := EdgeStoreShard.add 7 gid_5_1 gid_5_3 1 "z" [] false s2 in
  EdgeStoreShard.lastAddWasOverwrite s1 = false
  ∧ EdgeStoreShard.lastAddWasOverwrite s2 = true
  ∧ third.1 = inr (Edge.mk 7 gid_5_1 gid_5_3 3 1 "z")
  ∧ EdgeStoreShard.lastAddWasOverwrite third.2 = true.
Proof. vm_compute. repeat split. Qed.

(** C10. On the façade the flag of a shard is never mirrored: for a store
    whose shard object has [lastAddWasOverwrite] set and whose own flag is
    clear, [add] raises [AttributeError] while it resolves the shard, before
    calling the shard and before the assignment, and the flag of the store
    stays clear. *)
Theorem facade_add_never_mirrors hosts st db edgetype gid1 gid2 encoding data indices overwrite :
  EdgeStore._shards (EdgeStore.self st) !! db = Some true →
  EdgeStore.lastAddWasOverwrite (EdgeStore.self st) = false →
  ∃ st',
    EdgeStore.add hosts edgetype gid1 gid2 encoding data indices overwrite st
    = (inl (AttributeError "NUM_HOSTS"), st')
    ∧ EdgeStoreShard.lastAddWasOverwrite (EdgeStore.shard db st') = true
    ∧ EdgeStore.lastAddWasOverwrite (EdgeStore.self st') = false.
Proof.
  intros Hshard Hflag. exists st. split; [reflexivity|]. split; [|exact Hflag].
  unfold EdgeStore.shard. simpl. by rewrite Hshard.
Qed.

Lemma facade_add_never_mirrors_witness :
  ∃ st',
    EdgeStore.add two_hosts 7 gid_5_1 gid_5_3 1 "z" [] false store_after_overwrite
    = (inl (AttributeError "NUM_HOSTS"), st')
    ∧ EdgeStoreShard.lastAddWasOverwrite (EdgeStore.shard ("H1", "edgestore") st') = true
    ∧ EdgeStore.lastAddWasOverwrite (EdgeStore.self st') = false.
Proof.
  apply (facade_add_never_mirrors two_hosts store_after_overwrite ("H1", "edgestore")
           7 gid_5_1 gid_5_3 1 "z" [] false).
  - reflexivity.
  - reflexivity.
Defined.

(** * Further properties of the shard and of the façade *)

(** ** The rows of [edgedata] *)

Lemma to_edge_key k c : Edge.key (EdgeData.to_edge k c) = k.
Proof. destruct k as [[et g1] g2]. reflexivity. Qed.

Lemma of_to_edge k c : EdgeData.of_edge (EdgeData.to_edge k c) = c.
Proof. destruct k as [[et g1] g2], c. reflexivity. Qed.

Lemma to_of_edge e : EdgeData.to_edge (Edge.key e) (EdgeData.of_edge e) = e.
Proof. destruct e. reflexivity. Qed.

Lemma In_edge_rows t e :
  In e (edge_rows t) ↔ edgedata t !! Edge.key e = Some (EdgeData.of_edge e).
Proof.
  unfold edge_rows. rewrite <- list_elem_of_In, list_elem_of_fmap. split.
  - intros ([k c] & -> & Hin). apply elem_of_map_to_list in Hin. simpl.
    by rewrite to_edge_key, of_to_edge.
  - intros Hlook. exists (Edge.key e, EdgeData.of_edge e). split.
    + symmetry. apply to_of_edge.
    + by apply elem_of_map_to_list.
Qed.

Lemma NoDup_edge_rows t : List.NoDup (edge_rows t).
Proof.
  apply NoDup_ListNoDup. unfold edge_rows. apply NoDup_fmap_2_strong.
  - intros [k c] [k' c'] _ _ Heq. simpl in Heq.
    f_equal.
    + by rewrite <- (to_edge_key k c), <- (to_edge_key k' c'), Heq.
    + by rewrite <- (of_to_edge k c), <- (of_to_edge k' c'), Heq.
  - apply NoDup_map_to_list.
Qed.

Lemma filter_Permutation {A} (f : A → bool) l l' :
  Permutation l l' → Permutation (List.filter f l) (List.filter f l').
Proof.
  induction 1 as [|x l l' _ IH|x y l|l l' l'' _ IH1 _ IH2]; cbn [List.filter].
  - constructor.
  - destruct (f x); [by constructor|exact IH].
  - destruct (f x), (f y); try reflexivity. apply perm_swap.
  - by etransitivity.
Qed.

Lemma edge_rows_insert_fresh t k c :
  edgedata t !! k = None →
  Permutation (edge_rows (set_edgedata <[k := c]> t)) (EdgeData.to_edge k c :: edge_rows t).
Proof.
  intros Hfresh. unfold edge_rows. destruct t as [ed em ei co]. simpl in *.
  rewrite map_to_list_insert by exact Hfresh. reflexivity.
Qed.

Lemma edge_rows_delete t k c :
  edgedata t !! k = Some c →
  Permutation (EdgeData.to_edge k c :: edge_rows (set_edgedata (delete k) t)) (edge_rows t).
Proof.
  intros Hthere. unfold edge_rows. destruct t as [ed em ei co]. simpl in *.
  rewrite <- (map_to_list_delete ed k c Hthere). reflexivity.
Qed.

Lemma edges_under_perm_cons t t' e edgetype gid1 :
  Permutation (edge_rows t') (e :: edge_rows t) →
  edges_under t' edgetype gid1
  = (edges_under t edgetype gid1 + if under_parent edgetype gid1 e then 1 else 0)%nat.
Proof.
  intros Hperm. unfold edges_under.
  rewrite (Permutation_length (filter_Permutation _ _ _ Hperm)). cbn [List.filter].
  destruct (under_parent edgetype gid1 e); cbn [length]; lia.
Qed.

Lemma under_parent_to_edge edgetype gid1 et g1 g2 c :
  under_parent edgetype gid1 (EdgeData.to_edge (et, g1, g2) c)
  = bool_decide ((et, g1) = (edgetype, gid1)).
Proof.
  unfold under_parent. simpl. case_bool_decide as Heq.
  - injection Heq as -> ->. by rewrite !Z.eqb_refl.
  - apply andb_false_iff. destruct (Z.eqb_spec et edgetype), (Z.eqb_spec g1 gid1); auto.
    subst. contradiction.
Qed.

(** The number of edges under a parent after a row is written at a key. *)
Lemma edges_under_insert t et g1 g2 c edgetype gid1 :
  edges_under (set_edgedata <[(et, g1, g2) := c]> t) edgetype gid1
  = (edges_under t edgetype gid1
     + if edgedata t !! (et, g1, g2) is Some _ then 0
       else if bool_decide ((et, g1) = (edgetype, gid1)) then 1 else 0)%nat.
Proof.
  destruct (edgedata t !! (et, g1, g2)) as [old|] eqn:Hlook.
  - assert (Hin : Permutation (edge_rows (set_edgedata <[(et, g1, g2) := c]> t))
                    (EdgeData.to_edge (et, g1, g2) c
                     :: edge_rows (set_edgedata (delete (et, g1, g2)) t))).
    { replace (set_edgedata <[(et, g1, g2) := c]> t)
        with (set_edgedata <[(et, g1, g2) := c]> (set_edgedata (delete (et, g1, g2)) t)).
      - apply edge_rows_insert_fresh. destruct t. simpl. apply lookup_delete_eq.
      - destruct t. unfold set_edgedata. simpl. f_equal. apply insert_delete_eq. }
    rewrite (edges_under_perm_cons _ _ _ _ _ Hin).
    rewrite (edges_under_perm_cons _ _ _ edgetype gid1
               (Permutation_sym (edge_rows_delete t _ old Hlook))).
    rewrite !under_parent_to_edge. lia.
  - rewrite (edges_under_perm_cons _ _ _ _ _ (edge_rows_insert_fresh t _ c Hlook)).
    by rewrite under_parent_to_edge.
Qed.

Lemma edges_under_delete t et g1 g2 old edgetype gid1 :
  edgedata t !! (et, g1, g2) = Some old →
  edges_under t edgetype gid1
  = (edges_under (set_edgedata (delete (et, g1, g2)) t) edgetype gid1
     + if bool_decide ((et, g1) = (edgetype, gid1)) then 1 else 0)%nat.
Proof.
  intros Hlook.
  rewrite (edges_under_perm_cons _ _ _ edgetype gid1
             (Permutation_sym (edge_rows_delete t _ old Hlook))).
  by rewrite under_parent_to_edge.
Qed.

(** ** Reading one edge *)

Lemma at_key_spec edgetype gid1 gid2 e :
  at_key edgetype gid1 gid2 e = true ↔ Edge.key e = (edgetype, gid1, gid2).
Proof.
  unfold at_key, Edge.key. rewrite !andb_true_iff, !Z.eqb_eq. split.
  - intros [[-> ->] ->]. reflexivity.
  - intros [= -> -> ->]. auto.
Qed.

Lemma NoDup_all_equal {A} (x : A) l :
  List.NoDup l → (∀ y, In y l → y = x) → In x l → l = [x].
Proof.
  intros Hnodup Hall Hin. destruct l as [|a l]; [destruct Hin|].
  rewrite (Hall a (or_introl eq_refl)) in *. f_equal.
  destruct l as [|b l]; [reflexivity|].
  apply List.NoDup_cons_iff in Hnodup. destruct Hnodup as [Hnotin _].
  destruct Hnotin. left. apply Hall. right. left. reflexivity.
Qed.

(** The rows [_getSQL] selects: the row at the key, if there is one. *)
Lemma rows_at_key t edgetype gid1 gid2 :
  List.filter (at_key edgetype gid1 gid2) (edge_rows t)
  = match edgedata t !! (edgetype, gid1, gid2) with
    | Some c => [EdgeData.to_edge (edgetype, gid1, gid2) c]
    | None => []
    end.
Proof.
  destruct (edgedata t !! (edgetype, gid1, gid2)) as [c|] eqn:Hlook.
  - apply NoDup_all_equal.
    + apply List.NoDup_filter, NoDup_edge_rows.
    + intros e He. apply filter_In in He. destruct He as [He Hkey].
      apply at_key_spec in Hkey. apply In_edge_rows in He. rewrite Hkey, Hlook in He.
      injection He as ->. rewrite <- Hkey. symmetry. apply to_of_edge.
    + apply filter_In. split.
      * apply In_edge_rows. by rewrite to_edge_key, of_to_edge.
      * apply at_key_spec. apply to_edge_key.
  - destruct (List.filter _ _) as [|e l] eqn:Hrows; [reflexivity|].
    assert (He : In e (List.filter (at_key edgetype gid1 gid2) (edge_rows t)))
      by (rewrite Hrows; by left).
    apply filter_In in He. destruct He as [He Hkey].
    apply at_key_spec in Hkey. apply In_edge_rows in He. rewrite Hkey, Hlook in He.
    discriminate He.
Qed.

Lemma get_eq s edgetype gid1 gid2 indexrange :
  EdgeStoreShard.get edgetype gid1 gid2 None indexrange s
  = (inr (EdgeRow <$> stored_edge s edgetype gid1 gid2), s).
Proof.
  unfold EdgeStoreShard.get, stored_edge, edge_of, shard_tables. cbn [truthy_opt].
  step_shard. destruct s as [d flag]. cbn [EdgeStoreShard._db].
  change (λ e : Edge.t, (Edge.edgetype e =? edgetype) && (Edge.gid1 e =? gid1)
                        && (Edge.gid2 e =? gid2))
    with (at_key edgetype gid1 gid2).
  rewrite rows_at_key.
  destruct (edgedata (tables d) !! (edgetype, gid1, gid2)); reflexivity.
Qed.

(** ** What a returning [add] leaves *)

Lemma add_result s edgetype gid1 gid2 encoding data indices overwrite :
  (∃ e s', EdgeStoreShard.add edgetype gid1 gid2 encoding data indices overwrite s = (inl e, s')
           ∧ shard_tables s' = shard_tables s
           ∧ In e add_failures)
  ∨ (∃ affected prev rows' s',
       EdgeStoreShard.add edgetype gid1 gid2 encoding data indices overwrite s
       = (inr (new_edge s edgetype gid1 gid2 encoding data), s')
       ∧ index_rounds gid1 (current_revision s edgetype gid1 + 1) affected prev indices
           (edgeindex (shard_tables s)) = Some rows'
       ∧ shard_tables s'
         = mkTables
             (<[(edgetype, gid1, gid2) :=
                  EdgeData.of_edge (new_edge s edgetype gid1 gid2 encoding data)]>
                (edgedata (shard_tables s)))
             (<[(edgetype, gid1) :=
                  EdgeMeta.mk (current_revision s edgetype gid1 + 1)
                    (current_count s edgetype gid1
                     + counted (edge_of s edgetype gid1 gid2))]>
                (edgemeta (shard_tables s)))
             rows' (colo (shard_tables s))
       ∧ (affected =? 2) = hits_existing s edgetype gid1 gid2 encoding data overwrite
       ∧ (affected = 2 →
          ∃ old, edge_of s edgetype gid1 gid2 = Some old
                 ∧ prev = EdgeData.revision old
                 ∧ prev = current_revision s edgetype gid1)).
Proof.
  unfold hits_existing.
  destruct (edge_of s edgetype gid1 gid2) as [old|] eqn:Hedge; unfold counted.
  - rewrite Z.add_0_r. destruct overwrite.
    + destruct (decide (EdgeData.of_edge (new_edge s edgetype gid1 gid2 encoding data) = old))
        as [Hsame|Hchanged].
      * rewrite (add_unchanged_eq _ _ _ _ _ _ _ _ Hedge Hsame).
        match goal with
        | |- context [conclude ?s0 ?e (for_each ?ix (EdgeStoreShard.add_index ?g ?r ?a ?p)
                                         (before_indices ?t ?reg ?a' ?f))] =>
            destruct (conclude_loop s0 e g r a p ix t reg a' f)
              as [(s' & -> & Htables & _ & _)|(rows' & s' & -> & Hrounds & Htables & Hflag)]
        end.
        -- left. eexists _, _. split; [reflexivity|]. split; [exact Htables|].
           right. right. left. reflexivity.
        -- right. exists 0, (EdgeData.revision old), rows', s'.
           split; [reflexivity|]. split; [exact Hrounds|].
           split; [exact Htables|].
           split; [by rewrite bool_decide_eq_true_2|]. intros; discriminate.
      * destruct (decide (EdgeData.revision old = current_revision s edgetype gid1))
          as [Hlatest|Hstale].
        -- rewrite (add_update_path_eq _ _ _ _ _ _ _ _ Hedge) by lia.
           match goal with
           | |- context [conclude ?s0 ?e (for_each ?ix (EdgeStoreShard.add_index ?g ?r ?a ?p)
                                            (before_indices ?t ?reg ?a' ?f))] =>
               destruct (conclude_loop s0 e g r a p ix t reg a' f)
                 as [(s' & -> & Htables & _ & _)|(rows' & s' & -> & Hrounds & Htables & Hflag)]
           end.
           ++ left. eexists _, _. split; [reflexivity|]. split; [exact Htables|].
              right. right. left. reflexivity.
           ++ right. exists 2, (EdgeData.revision old), rows', s'.
              split; [reflexivity|]. split; [exact Hrounds|].
              split; [exact Htables|].
              split; [by rewrite bool_decide_eq_false_2|].
              intros _. by exists old.
        -- left. rewrite (add_stale_general_eq _ _ _ _ _ _ _ _ Hedge Hchanged Hstale).
           eexists _, _. split; [reflexivity|]. split; [reflexivity|].
           right. left. reflexivity.
    + left. rewrite (add_duplicate_eq _ _ _ _ _ _ _ _ Hedge).
      eexists _, _. split; [reflexivity|]. split; [reflexivity|]. left. reflexivity.
  - rewrite (add_insert_path_eq _ _ _ _ _ _ _ _ Hedge).
    match goal with
    | |- context [conclude ?s0 ?e (for_each ?ix (EdgeStoreShard.add_index ?g ?r ?a ?p)
                                     (before_indices ?t ?reg ?a' ?f))] =>
        destruct (conclude_loop s0 e g r a p ix t reg a' f)
          as [(s' & -> & Htables & _ & _)|(rows' & s' & -> & Hrounds & Htables & Hflag)]
    end.
    + left. eexists _, _. split; [reflexivity|]. split; [exact Htables|].
      right. right. left. reflexivity.
    + right. exists 1, (current_revision s edgetype gid1 + 1), rows', s'.
      split; [reflexivity|]. split; [exact Hrounds|].
      split; [exact Htables|]. split; [reflexivity|]. intros; discriminate.
Qed.

(** The tables a returning [add] leaves, but for [edgeindex]. *)
Lemma add_returns s edgetype gid1 gid2 encoding data indices overwrite e s' :
  EdgeStoreShard.add edgetype gid1 gid2 encoding data indices overwrite s = (inr e, s') →
  e = new_edge s edgetype gid1 gid2 encoding data
  ∧ edgedata (shard_tables s')
    = <[(edgetype, gid1, gid2) := EdgeData.of_edge e]> (edgedata (shard_tables s))
  ∧ edgemeta (shard_tables s')
    = <[(edgetype, gid1) :=
          EdgeMeta.mk (current_revision s edgetype gid1 + 1)
            (current_count s edgetype gid1 + counted (edge_of s edgetype gid1 gid2))]>
        (edgemeta (shard_tables s))
  ∧ colo (shard_tables s') = colo (shard_tables s).
Proof.
  intros Hadd.
  destruct (add_result s edgetype gid1 gid2 encoding data indices overwrite)
    as [(e' & s1 & Hraised & _)|(affected & prev & rows' & s1 & Hret & _ & Htables & _)].
  - rewrite Hraised in Hadd. discriminate Hadd.
  - rewrite Hret in Hadd. injection Hadd as <- <-. rewrite Htables. repeat split.
Qed.

Lemma add_raises_keeps_tables s edgetype gid1 gid2 encoding data indices overwrite e s' :
  EdgeStoreShard.add edgetype gid1 gid2 encoding data indices overwrite s = (inl e, s') →
  shard_tables s' = shard_tables s.
Proof.
  intros Hadd.
  destruct (add_result s edgetype gid1 gid2 encoding data indices overwrite)
    as [(e' & s1 & Hraised & Htables & _)|(affected & prev & rows' & s1 & Hret & _)].
  - rewrite Hraised in Hadd. by injection Hadd as <- <-.
  - rewrite Hret in Hadd. discriminate Hadd.
Qed.

(** ** Deleting an edge *)

Lemma index_of_version_spec indextype gid1 revision row :
  index_of_version indextype gid1 revision row = true
  ↔ EdgeIndex.indextype row = indextype ∧ EdgeIndex.gid1 row = gid1
    ∧ EdgeIndex.revision row = revision.
Proof.
  unfold index_of_version. rewrite !andb_true_iff, !Z.eqb_eq. tauto.
Qed.

Lemma In_delete_index_rows gid1 revision indextypes rows row :
  In row (delete_index_rows gid1 revision indextypes rows)
  ↔ In row rows
    ∧ ¬ (In (EdgeIndex.indextype row) indextypes
         ∧ EdgeIndex.gid1 row = gid1 ∧ EdgeIndex.revision row = revision).
Proof.
  unfold delete_index_rows. revert rows.
  induction indextypes as [|indextype rest IH]; intros rows; cbn [foldl].
  - simpl. tauto.
  - rewrite IH, filter_In, negb_true_iff, <- not_true_iff_false, index_of_version_spec.
    simpl. split.
    + intros [[Hin Hnot] Hrest]. split; [exact Hin|].
      intros [[Heq|Hlater] [Hg Hr]]; [apply Hnot; auto|apply Hrest; auto].
    + intros [Hin Hnot]. split; [split; [exact Hin|]|].
      * intros (Heq & Hg & Hr). apply Hnot. auto.
      * intros (Hlater & Hg & Hr). apply Hnot. auto.
Qed.

Lemma delete_indices_spec gid1 revision indextypes body s :
  (∀ indextype s,
     body indextype s
     = bind (EdgeStoreShard.db (DB.run (_deleteIndexSQL indextype gid1 revision)))
            (λ _, ret tt) s) →
  ∃ s', for_each indextypes body s = (inr tt, s')
        ∧ index_only s s'
        ∧ edgeindex (shard_tables s')
          = delete_index_rows gid1 revision indextypes (edgeindex (shard_tables s)).
Proof.
  intros Hbody. revert s. induction indextypes as [|indextype rest IH]; intros s.
  - exists s. split; [reflexivity|]. split; [apply index_only_refl|reflexivity].
  - cbn [for_each]. unfold bind at 1. rewrite Hbody.
    pose (s1 := EdgeStoreShard.mk
                  (mkConnection
                     (set_edgeindex
                        (List.filter (λ i, negb (index_of_version indextype gid1 revision i)))
                        (shard_tables s))
                     (last_insert_id (EdgeStoreShard._db s))
                     (Z.of_nat (length (List.filter (index_of_version indextype gid1 revision)
                                          (edgeindex (shard_tables s)))))
                     (ongoing_transaction (EdgeStoreShard._db s)))
                  (EdgeStoreShard.lastAddWasOverwrite s)).
    destruct (IH s1) as (s2 & Hrun & Hframe & Hrows).
    exists s2. split; [|split].
    + rewrite <- Hrun. destruct s as [[[ed em ei co] lid aff ong] flag]. reflexivity.
    + eapply index_only_trans; [|exact Hframe].
      destruct s as [[[ed em ei co] lid aff ong] flag]. repeat split.
    + rewrite Hrows. destruct s as [[[ed em ei co] lid aff ong] flag]. reflexivity.
Qed.

Lemma delete_existing_eq s edgetype gid1 gid2 indextypes old :
  edge_of s edgetype gid1 gid2 = Some old →
  EdgeData.revision old ≠ 0 →
  ∃ s',
    EdgeStoreShard.delete edgetype gid1 gid2 indextypes s = (inr true, s')
    ∧ shard_tables s'
      = mkTables
          (delete (edgetype, gid1, gid2) (edgedata (shard_tables s)))
          (<[(edgetype, gid1) :=
               EdgeMeta.mk (current_revision s edgetype gid1 + 1)
                           (current_count s edgetype gid1 - 1)]>
             (edgemeta (shard_tables s)))
          (delete_index_rows gid1 (EdgeData.revision old) indextypes
             (edgeindex (shard_tables s)))
          (colo (shard_tables s))
    ∧ EdgeStoreShard.lastAddWasOverwrite s' = EdgeStoreShard.lastAddWasOverwrite s
    ∧ ongoing_transaction (EdgeStoreShard._db s') = ongoing_transaction (EdgeStoreShard._db s).
Proof.
  intros Hold Hrev. open_shard s.
  run_shard. simpl.
  destruct (em !! (edgetype, gid1)) as [m|]; simpl; rewrite Hold; simpl;
    rewrite lookup_insert_eq; simpl; rewrite insert_insert_eq;
    unfold truthy; destruct (Z.eqb_spec (EdgeData.revision old) 0) as [Hz|_];
    try contradiction; simpl.
  all: match goal with
       | |- context [for_each ?xs ?f ?st] =>
           destruct (delete_indices_spec gid1 (EdgeData.revision old) xs f st
                       ltac:(intros; reflexivity))
             as (s2 & Hrun & Hframe & Hrows)
       end.
  all: rewrite Hrun; destruct s2 as [[[ed2 em2 ei2 co2] lid2 aff2 ong2] flag2].
  all: destruct Hframe as (Hed & Hem & Hco & _ & _ & Hflag).
  all: unfold shard_tables in *; simpl in *; subst.
  all: eexists; split; [reflexivity|]; simpl; repeat split.
Qed.

Lemma delete_unversioned_eq s edgetype gid1 gid2 indextypes old :
  edge_of s edgetype gid1 gid2 = Some old →
  EdgeData.revision old = 0 →
  ∃ s',
    EdgeStoreShard.delete edgetype gid1 gid2 indextypes s
    = (inl (AssertionError "missing revision for deleted edge"), s')
    ∧ shard_tables s' = shard_tables s
    ∧ EdgeStoreShard.lastAddWasOverwrite s' = EdgeStoreShard.lastAddWasOverwrite s.
Proof.
  intros Hold Hrev. open_shard s.
  run_shard. simpl.
  destruct (em !! (edgetype, gid1)) as [m|]; simpl; rewrite Hold; simpl;
    rewrite lookup_insert_eq; simpl; rewrite Hrev; simpl;
    eexists; split; try reflexivity; split; reflexivity.
Qed.

(** ** The count column counts the edges *)

Lemma edges_under_ext t t' edgetype gid1 :
  edgedata t' = edgedata t → edges_under t' edgetype gid1 = edges_under t edgetype gid1.
Proof. intros Heq. unfold edges_under, edge_rows. by rewrite Heq. Qed.

Lemma counts_edges_ext s s' :
  shard_tables s' = shard_tables s → counts_edges s → counts_edges s'.
Proof.
  intros Heq Hinv edgetype gid1.
  unfold current_count, meta_of. rewrite Heq. apply Hinv.
Qed.

Lemma counts_edges_step (s s' : EdgeStoreShard.t) (et g1 : Z)
    (edges : gmap (Z * Z * Z) EdgeData.t) (rev : Z) (rows : list EdgeIndex.t) (delta : Z) :
  counts_edges s →
  edgedata (shard_tables s') = edges →
  edgemeta (shard_tables s')
  = <[(et, g1) := EdgeMeta.mk rev (current_count s et g1 + delta)]> (edgemeta (shard_tables s)) →
  (∀ edgetype gid1,
     Z.of_nat (edges_under (mkTables edges ∅ rows ∅) edgetype gid1)
     = Z.of_nat (edges_under (shard_tables s) edgetype gid1)
       + if bool_decide ((et, g1) = (edgetype, gid1)) then delta else 0) →
  counts_edges s'.
Proof.
  intros Hinv Hed Hem Hcount edgetype gid1.
  rewrite (edges_under_ext (mkTables edges ∅ rows ∅) (shard_tables s')) by (by rewrite Hed).
  rewrite Hcount, <- Hinv. unfold current_count at 1, meta_of. rewrite Hem.
  case_bool_decide as Hparent.
  - injection Hparent as <- <-. by rewrite lookup_insert_eq.
  - rewrite lookup_insert_ne by exact Hparent. rewrite Z.add_0_r. reflexivity.
Qed.

Lemma add_counts_edges s edgetype gid1 gid2 encoding data indices overwrite :
  counts_edges s →
  counts_edges (EdgeStoreShard.add edgetype gid1 gid2 encoding data indices overwrite s).2.
Proof.
  intros Hinv.
  destruct (add_result s edgetype gid1 gid2 encoding data indices overwrite)
    as [(e & s' & -> & Htables & _)
       |(affected & prev & rows' & s' & -> & _ & Htables & _)]; cbn [snd].
  - by apply (counts_edges_ext s).
  - eapply (counts_edges_step s s' edgetype gid1 _ _ rows'); [exact Hinv| | |].
    + rewrite Htables. reflexivity.
    + rewrite Htables. reflexivity.
    + intros et g1.
      rewrite (edges_under_ext (set_edgedata <[(edgetype, gid1, gid2) :=
                 EdgeData.of_edge (new_edge s edgetype gid1 gid2 encoding data)]>
                 (shard_tables s))) by reflexivity.
      rewrite edges_under_insert. unfold counted, edge_of.
      destruct (edgedata (shard_tables s) !! (edgetype, gid1, gid2));
        case_bool_decide; lia.
Qed.

Lemma delete_outcome s edgetype gid1 gid2 indextypes :
  match edge_of s edgetype gid1 gid2 with
  | None =>
      ∃ s', EdgeStoreShard.delete edgetype gid1 gid2 indextypes s = (inr false, s')
            ∧ shard_tables s'
              = set_edgemeta <[(edgetype, gid1) :=
                                 EdgeMeta.mk (current_revision s edgetype gid1 + 1)
                                             (current_count s edgetype gid1)]>
                  (shard_tables s)
  | Some old =>
      if decide (EdgeData.revision old = 0) then
        ∃ s', EdgeStoreShard.delete edgetype gid1 gid2 indextypes s
              = (inl (AssertionError "missing revision for deleted edge"), s')
              ∧ shard_tables s' = shard_tables s
      else
        ∃ s', EdgeStoreShard.delete edgetype gid1 gid2 indextypes s = (inr true, s')
              ∧ shard_tables s'
                = mkTables
                    (delete (edgetype, gid1, gid2) (edgedata (shard_tables s)))
                    (<[(edgetype, gid1) :=
                         EdgeMeta.mk (current_revision s edgetype gid1 + 1)
                                     (current_count s edgetype gid1 - 1)]>
                       (edgemeta (shard_tables s)))
                    (delete_index_rows gid1 (EdgeData.revision old) indextypes
                       (edgeindex (shard_tables s)))
                    (colo (shard_tables s))
  end.
Proof.
  destruct (edge_of s edgetype gid1 gid2) as [old|] eqn:Hedge.
  - destruct (decide (EdgeData.revision old = 0)) as [Hzero|Hrev].
    + destruct (delete_unversioned_eq s edgetype gid1 gid2 indextypes old Hedge Hzero)
        as (s' & Hrun & Htables & _).
      by exists s'.
    + destruct (delete_existing_eq s edgetype gid1 gid2 indextypes old Hedge Hrev)
        as (s' & Hrun & Htables & _).
      by exists s'.
  - eexists. split; [by apply delete_missing_eq|reflexivity].
Qed.

Lemma delete_counts_edges s edgetype gid1 gid2 indextypes :
  counts_edges s →
  counts_edges (EdgeStoreShard.delete edgetype gid1 gid2 indextypes s).2.
Proof.
  intros Hinv. pose proof (delete_outcome s edgetype gid1 gid2 indextypes) as Hout.
  destruct (edge_of s edgetype gid1 gid2) as [old|] eqn:Hedge.
  - destruct (decide (EdgeData.revision old = 0)) as [Hzero|Hrev];
      destruct Hout as (s' & -> & Htables); cbn [snd].
    + by apply (counts_edges_ext s).
    + eapply (counts_edges_step s s' edgetype gid1 _ _ [] (-1)); [exact Hinv| | |].
      * rewrite Htables. reflexivity.
      * rewrite Htables. reflexivity.
      * intros et g1.
        rewrite (edges_under_delete (shard_tables s) edgetype gid1 gid2 old et g1 Hedge).
        rewrite (edges_under_ext (set_edgedata (delete (edgetype, gid1, gid2))
                                    (shard_tables s))) by reflexivity.
        case_bool_decide; lia.
  - destruct Hout as (s' & -> & Htables); cbn [snd].
    eapply (counts_edges_step s s' edgetype gid1 _ _ [] 0); [exact Hinv| | |].
    + rewrite Htables. reflexivity.
    + rewrite Htables, Z.add_0_r. reflexivity.
    + intros et g1.
      rewrite (edges_under_ext (shard_tables s)) by reflexivity.
      case_bool_decide; lia.
Qed.

Lemma history_counts_edges history s :
  counts_edges s → counts_edges (apply_history history s).
Proof.
  revert s. induction history as [|m history IH]; intros s Hinv; [exact Hinv|].
  cbn [apply_history foldl]. apply IH. destruct m; cbn [apply_mutation].
  - by apply add_counts_edges.
  - by apply delete_counts_edges.
Qed.

Lemma fresh_shard_counts_edges : counts_edges fresh_shard.
Proof. intros edgetype gid1. reflexivity. Qed.

(** ** Revisions identify the edges of a parent *)

Lemma revisions_sound_ext s s' :
  shard_tables s' = shard_tables s → revisions_sound s → revisions_sound s'.
Proof.
  intros Heq. unfold revisions_sound, current_revision, meta_of, edge_of.
  by rewrite Heq.
Qed.

Lemma current_revision_after s s' edgetype gid1 count et g1 :
  edgemeta (shard_tables s')
  = <[(edgetype, gid1) := EdgeMeta.mk (current_revision s edgetype gid1 + 1) count]>
      (edgemeta (shard_tables s)) →
  current_revision s' et g1
  = current_revision s et g1 + if bool_decide ((edgetype, gid1) = (et, g1)) then 1 else 0.
Proof.
  intros Hem. unfold current_revision at 1, meta_of. rewrite Hem.
  case_bool_decide as Hparent.
  - injection Hparent as <- <-. by rewrite lookup_insert_eq.
  - rewrite lookup_insert_ne by exact Hparent.
    unfold current_revision, meta_of. lia.
Qed.

Lemma add_revisions_sound s edgetype gid1 gid2 encoding data indices overwrite :
  revisions_sound s →
  revisions_sound (EdgeStoreShard.add edgetype gid1 gid2 encoding data indices overwrite s).2.
Proof.
  intros Hinv.
  destruct (add_result s edgetype gid1 gid2 encoding data indices overwrite)
    as [(e & s' & -> & Htables & _)
       |(affected & prev & rows' & s' & -> & _ & Htables & _)]; cbn [snd].
  { by apply (revisions_sound_ext s). }
  destruct Hinv as (Hpos & Hbound & Hdistinct).
  assert (Hrev : ∀ et g1, current_revision s' et g1
            = current_revision s et g1
              + if bool_decide ((edgetype, gid1) = (et, g1)) then 1 else 0).
  { intros et g1. eapply current_revision_after. rewrite Htables. reflexivity. }
  assert (Hedge : ∀ et g1 g2 c,
            edge_of s' et g1 g2 = Some c →
            ((et, g1, g2) = (edgetype, gid1, gid2)
             ∧ EdgeData.revision c = current_revision s edgetype gid1 + 1)
            ∨ ((et, g1, g2) ≠ (edgetype, gid1, gid2) ∧ edge_of s et g1 g2 = Some c)).
  { intros et g1 g2 c. unfold edge_of. rewrite Htables. cbn [edgedata].
    destruct (decide ((edgetype, gid1, gid2) = (et, g1, g2))) as [<-|Hne].
    - rewrite lookup_insert_eq. intros [= <-]. left. split; reflexivity.
    - rewrite lookup_insert_ne by exact Hne. intros Hc. right. split; [congruence|exact Hc]. }
  split; [|split].
  - intros et g1. rewrite Hrev. specialize (Hpos et g1). case_bool_decide; lia.
  - intros et g1 g2 c Hc. rewrite Hrev.
    destruct (Hedge _ _ _ _ Hc) as [[Hk Hr]|[Hk Hold]].
    + injection Hk as -> -> ->. rewrite bool_decide_eq_true_2 by reflexivity.
      specialize (Hpos edgetype gid1). lia.
    + specialize (Hbound _ _ _ _ Hold). case_bool_decide; lia.
  - intros et g1 g2 g2' c c' Hc Hc' Hsame.
    destruct (Hedge _ _ _ _ Hc) as [[Hk Hr]|[Hk Hold]];
      destruct (Hedge _ _ _ _ Hc') as [[Hk' Hr']|[Hk' Hold']].
    + congruence.
    + injection Hk as -> -> ->. specialize (Hbound _ _ _ _ Hold'). lia.
    + injection Hk' as -> -> ->. specialize (Hbound _ _ _ _ Hold). lia.
    + exact (Hdistinct _ _ _ _ _ _ Hold Hold' Hsame).
Qed.

Lemma delete_revisions_sound s edgetype gid1 gid2 indextypes :
  revisions_sound s →
  revisions_sound (EdgeStoreShard.delete edgetype gid1 gid2 indextypes s).2.
Proof.
  intros Hinv. pose proof (delete_outcome s edgetype gid1 gid2 indextypes) as Hout.
  assert (Hstep : ∀ s' count,
            edgemeta (shard_tables s')
            = <[(edgetype, gid1) :=
                  EdgeMeta.mk (current_revision s edgetype gid1 + 1) count]>
                (edgemeta (shard_tables s)) →
            (∀ et g1 g2 c, edge_of s' et g1 g2 = Some c → edge_of s et g1 g2 = Some c) →
            revisions_sound s').
  { intros s' count Hem Hsub. destruct Hinv as (Hpos & Hbound & Hdistinct).
    pose proof (λ et g1, current_revision_after s s' edgetype gid1 count et g1 Hem) as Hrev.
    split; [|split].
    - intros et g1. rewrite Hrev. specialize (Hpos et g1). case_bool_decide; lia.
    - intros et g1 g2 c Hc. rewrite Hrev.
      specialize (Hbound _ _ _ _ (Hsub _ _ _ _ Hc)). case_bool_decide; lia.
    - intros et g1 g2 g2' c c' Hc Hc'.
      exact (Hdistinct _ _ _ _ _ _ (Hsub _ _ _ _ Hc) (Hsub _ _ _ _ Hc')). }
  destruct (edge_of s edgetype gid1 gid2) as [old|] eqn:Hedge.
  - destruct (decide (EdgeData.revision old = 0)) as [Hzero|Hrev];
      destruct Hout as (s' & -> & Htables); cbn [snd].
    + by apply (revisions_sound_ext s).
    + apply (Hstep s' (current_count s edgetype gid1 - 1)).
      * rewrite Htables. reflexivity.
      * intros et g1 g2 c. unfold edge_of. rewrite Htables. cbn [edgedata].
        rewrite lookup_delete_Some. tauto.
  - destruct Hout as (s' & -> & Htables); cbn [snd].
    apply (Hstep s' (current_count s edgetype gid1)).
    + rewrite Htables. reflexivity.
    + intros et g1 g2 c. unfold edge_of. rewrite Htables. tauto.
Qed.

Lemma history_revisions_sound history s :
  revisions_sound s → revisions_sound (apply_history history s).
Proof.
  revert s. induction history as [|m history IH]; intros s Hinv; [exact Hinv|].
  cbn [apply_history foldl]. apply IH. destruct m; cbn [apply_mutation].
  - by apply add_revisions_sound.
  - by apply delete_revisions_sound.
Qed.

Lemma fresh_shard_revisions_sound : revisions_sound fresh_shard.
Proof.
  split; [|split].
  - intros edgetype gid1. reflexivity.
  - intros edgetype gid1 gid2 c Hc. discriminate Hc.
  - intros edgetype gid1 gid2 gid2' c c' Hc. discriminate Hc.
Qed.

(** In a sound state [delete] does not raise. *)
Lemma delete_sound_returns s edgetype gid1 gid2 indextypes :
  revisions_sound s →
  ∃ s', EdgeStoreShard.delete edgetype gid1 gid2 indextypes s
        = (inr (bool_decide (is_Some (edge_of s edgetype gid1 gid2))), s').
Proof.
  intros (_ & Hbound & _). pose proof (delete_outcome s edgetype gid1 gid2 indextypes) as Hout.
  destruct (edge_of s edgetype gid1 gid2) as [old|] eqn:Hedge.
  - destruct (decide (EdgeData.revision old = 0)) as [Hzero|Hrev].
    + specialize (Hbound _ _ _ _ Hedge). lia.
    + destruct Hout as (s' & -> & _). exists s'.
      rewrite bool_decide_eq_true_2 by (by eexists). reflexivity.
  - destruct Hout as (s' & -> & _). exists s'.
    rewrite bool_decide_eq_false_2 by (intros [? ?]; discriminate). reflexivity.
Qed.

(** ** When the flag is set *)

Lemma conclude_flag s edge gid1 revision affected prev indices t register affected' flag :
  EdgeStoreShard.lastAddWasOverwrite
    (conclude s edge
       (for_each indices (EdgeStoreShard.add_index gid1 revision affected prev)
          (before_indices t register affected' flag))).2
  = flag.
Proof.
  destruct (conclude_loop s edge gid1 revision affected prev indices t register affected' flag)
    as [(s' & -> & _ & Hflag & _)|(rows' & s' & -> & _ & _ & Hflag)]; exact Hflag.
Qed.

(** ** Ordering, and the rows of a parent *)

Lemma insert_by_Permutation {A} (le : A → A → bool) x l :
  Permutation (insert_by le x l) (x :: l).
Proof.
  induction l as [|y l IH]; cbn [insert_by]; [reflexivity|].
  destruct (le x y); [reflexivity|].
  rewrite IH. apply perm_swap.
Qed.

Lemma order_by_Permutation {A} (le : A → A → bool) l : Permutation (order_by le l) l.
Proof.
  unfold order_by. induction l as [|x l IH]; cbn [foldr]; [reflexivity|].
  rewrite insert_by_Permutation. by constructor.
Qed.

Section Ordering.

Context {A : Type} (le : A → A → bool).
Hypothesis le_total : ∀ a b, le a b = false → le b a = true.
Hypothesis le_trans : ∀ a b c, le a b = true → le b c = true → le a c = true.

Lemma insert_by_sorted x l :
  StronglySorted (λ a b, le a b = true) l →
  StronglySorted (λ a b, le a b = true) (insert_by le x l).
Proof.
  induction 1 as [|y l Hsorted IH Hall]; cbn [insert_by].
  - repeat constructor.
  - destruct (le x y) eqn:Hxy.
    + constructor; [by constructor|]. constructor; [exact Hxy|].
      rewrite List.Forall_forall in Hall |- *. intros z Hz.
      exact (le_trans _ _ _ Hxy (Hall z Hz)).
    + constructor; [exact IH|].
      rewrite List.Forall_forall in Hall |- *. intros z Hz.
      apply In_insert_by in Hz. destruct Hz as [->|Hz]; [by apply le_total|by apply Hall].
Qed.

Lemma order_by_sorted l : StronglySorted (λ a b, le a b = true) (order_by le l).
Proof.
  unfold order_by. induction l as [|x l IH]; cbn [foldr]; [constructor|].
  by apply insert_by_sorted.
Qed.

End Ordering.

Lemma StronglySorted_weaken {A} (P Q : A → A → Prop) l :
  (∀ a b, P a b → Q a b) → StronglySorted P l → StronglySorted Q l.
Proof.
  intros HPQ. induction 1 as [|x l _ IH Hall]; constructor; [exact IH|].
  rewrite List.Forall_forall in Hall |- *. auto.
Qed.

Lemma revision_desc_sorted l :
  StronglySorted (λ a b, Edge.revision b ≤ Edge.revision a) (order_by revision_desc l).
Proof.
  eapply StronglySorted_weaken; [|apply (order_by_sorted revision_desc)].
  - intros a b Hab. unfold revision_desc in Hab. lia.
  - intros a b Hab. unfold revision_desc in *. lia.
  - intros a b c Hab Hbc. unfold revision_desc in *. lia.
Qed.

Lemma query_by_parent_eq s edgetype gid1 indexrange :
  gid1 ≠ 0 →
  EdgeStoreShard.query edgetype None indexrange (Some gid1) s
  = (inr (EdgeRow <$> listed s edgetype gid1), s).
Proof.
  intros Hgid. unfold EdgeStoreShard.query, truthy_opt, truthy.
  destruct (Z.eqb_spec gid1 0) as [|_]; [contradiction|]. cbn [negb andb].
  destruct s as [d flag]. reflexivity.
Qed.

Lemma In_listed s edgetype gid1 e :
  In e (listed s edgetype gid1)
  ↔ stored_edge s (Edge.edgetype e) (Edge.gid1 e) (Edge.gid2 e) = Some e
    ∧ Edge.edgetype e = edgetype ∧ Edge.gid1 e = gid1.
Proof.
  unfold listed. rewrite In_order_by, filter_In, In_edge_rows.
  unfold under_parent, stored_edge, edge_of. rewrite andb_true_iff, !Z.eqb_eq.
  change (Edge.edgetype e, Edge.gid1 e, Edge.gid2 e) with (Edge.key e).
  split.
  - intros [Hlook Hparent]. split; [|exact Hparent]. rewrite Hlook.
    change (Some (EdgeData.to_edge (Edge.key e) (EdgeData.of_edge e)) = Some e).
    by rewrite to_of_edge.
  - intros [Hlook Hparent]. split; [|exact Hparent].
    destruct (edgedata (shard_tables s) !! Edge.key e) as [c|]; [|discriminate Hlook].
    change (Some (EdgeData.to_edge (Edge.key e) c) = Some e) in Hlook.
    assert (Hc : EdgeData.to_edge (Edge.key e) c = e) by congruence.
    pose proof (of_to_edge (Edge.key e) c) as Hof.
    rewrite Hc in Hof. by rewrite Hof.
Qed.

Lemma length_listed s edgetype gid1 :
  length (listed s edgetype gid1) = edges_under (shard_tables s) edgetype gid1.
Proof. unfold listed, edges_under. apply Permutation_length, order_by_Permutation. Qed.

Lemma NoDup_listed s edgetype gid1 : List.NoDup (listed s edgetype gid1).
Proof.
  unfold listed. eapply Permutation_NoDup; [symmetry; apply order_by_Permutation|].
  apply List.NoDup_filter, NoDup_edge_rows.
Qed.

(** ** The index rows a returning [add] leaves *)

Lemma In_index_rounds gid1 revision affected prev indices rows rows' row :
  (affected = 2 → prev ≠ revision) →
  index_rounds gid1 revision affected prev indices rows = Some rows' →
  In row rows'
  ↔ inserted_row gid1 revision indices row
    ∨ (In row rows
       ∧ ¬ (affected = 2 ∧ names_type indices row
            ∧ EdgeIndex.gid1 row = gid1 ∧ EdgeIndex.revision row = prev)).
Proof.
  intros Hprev. revert rows.
  induction indices as [|[[it iv] u] rest IH]; intros rows Hrun.
  - injection Hrun as <-. unfold inserted_row, names_type. simpl. split.
    + intros Hin. right. split; [exact Hin|]. intros (_ & (? & ? & []) & _).
    + intros [(? & ? & ? & [] & _)|[Hin _]]. exact Hin.
  - cbn [index_rounds] in Hrun. rewrite index_round_unfold in Hrun.
    destruct (u && truthy _); [discriminate|].
    rewrite (IH _ Hrun). clear IH Hrun.
    rewrite in_app_iff. unfold kept_rows, inserted_row, names_type. simpl.
    split.
    + intros [(it' & iv' & u' & Hentry & ->)|[[Hkept|[<-|[]]] Hnot]].
      * left. exists it', iv', u'. auto.
      * right. destruct (Z.eqb_spec affected 2) as [Haff|Haff].
        -- apply filter_In in Hkept. destruct Hkept as [Hin Hver].
           split; [exact Hin|]. intros (_ & (iv' & u' & [Heq|Hlater]) & Hg & Hr).
           ++ injection Heq as Heq _ _.
              apply negb_true_iff, not_true_iff_false in Hver. apply Hver.
              apply index_of_version_spec. auto.
           ++ apply Hnot. split; [exact Haff|]. split; [by exists iv', u'|]. auto.
        -- split; [exact Hkept|]. tauto.
      * left. exists it, iv, u. auto.
    + intros [(it' & iv' & u' & [Heq|Hentry] & ->)|[Hin Hnot]].
      * injection Heq as -> -> ->. right. split; [right; left; reflexivity|].
        simpl. intros (Haff & _ & _ & Hr). apply (Hprev Haff). congruence.
      * left. exists it', iv', u'. auto.
      * right. split.
        -- left. destruct (Z.eqb_spec affected 2) as [Haff|Haff]; [|exact Hin].
           apply filter_In. split; [exact Hin|].
           apply negb_true_iff, not_true_iff_false. intros Hver.
           apply index_of_version_spec in Hver. destruct Hver as (Hit & Hg & Hr).
           apply Hnot. split; [exact Haff|]. split; [|auto].
           exists iv, u. left. by rewrite Hit.
        -- intros (Haff & (iv' & u' & Hlater) & Hg & Hr). apply Hnot.
           split; [exact Haff|]. split; [|auto]. exists iv', u'. by right.
Qed.

(** The rows of [edgeindex] after a returning [add]. *)
Lemma add_index_rows s edgetype gid1 gid2 encoding data indices overwrite e s' row :
  EdgeStoreShard.add edgetype gid1 gid2 encoding data indices overwrite s = (inr e, s') →
  In row (edgeindex (shard_tables s'))
  ↔ inserted_row gid1 (Edge.revision e) indices row
    ∨ (In row (edgeindex (shard_tables s))
       ∧ ¬ (hits_existing s edgetype gid1 gid2 encoding data overwrite = true
            ∧ names_type indices row
            ∧ EdgeIndex.gid1 row = gid1
            ∧ Some (EdgeIndex.revision row)
              = EdgeData.revision <$> edge_of s edgetype gid1 gid2)).
Proof.
  intros Hadd.
  destruct (add_result s edgetype gid1 gid2 encoding data indices overwrite)
    as [(e' & s1 & Hraised & _)
       |(affected & prev & rows' & s1 & Hret & Hrounds & Htables & Haff & Hupdate)].
  { rewrite Hraised in Hadd. discriminate Hadd. }
  rewrite Hret in Hadd. injection Hadd as <- <-. rewrite Htables. cbn [edgeindex].
  assert (Hprev : affected = 2 → prev ≠ current_revision s edgetype gid1 + 1).
  { intros H2. destruct (Hupdate H2) as (? & _ & _ & ->). lia. }
  rewrite (In_index_rounds _ _ _ _ _ _ _ row Hprev Hrounds).
  unfold new_edge. cbn [Edge.revision]. rewrite <- Haff.
  destruct (Z.eqb_spec affected 2) as [H2|Hnot2].
  - destruct (Hupdate H2) as (old & Hold & -> & _). rewrite Hold. cbn.
    split; (intros [Hnew|[Hin Hnot]]; [by left|right]); (split; [exact Hin|]).
    + intros (_ & Hname & Hg & [= Hr]). apply Hnot. auto.
    + intros (_ & Hname & Hg & Hr). apply Hnot. split; [reflexivity|]. by rewrite Hr.
  - split; (intros [Hnew|[Hin Hnot]]; [by left|right]); (split; [exact Hin|]).
    + intros (Hfalse & _). discriminate Hfalse.
    + intros (Haff2 & _). contradiction.
Qed.

(** ** The façade *)

Lemma shard_lock_eq colo s :
  EdgeStoreShard.lock colo s
  = (inl (if ongoing_transaction (EdgeStoreShard._db s)
          then NameError "_generateGidSQL" else AssertionError EmptyString), s).
Proof.
  destruct s as [[t lid aff ong] flag]. unfold EdgeStoreShard.lock. step_shard. simpl.
  destruct ong; reflexivity.
Qed.

Lemma getHostShard_out_of_range hosts hostindex st :
  py_index hosts hostindex = None →
  EdgeStore._getHostShard hosts hostindex st = (inl IndexError, st).
Proof.
  intros Hnone. unfold EdgeStore._getHostShard, bind. by rewrite Hnone.
Qed.

Lemma shard_set_connection h db st :
  EdgeStore.shard h (EdgeStore.set_connection db (EdgeStore.connection db st) st)
  = EdgeStore.shard h st.
Proof.
  unfold EdgeStore.shard, EdgeStore.connection, EdgeStore.set_connection. simpl.
  destruct (decide (db = h)) as [->|Hne].
  - by rewrite lookup_insert_eq.
  - by rewrite lookup_insert_ne.
Qed.

Lemma getHostShard_in_range hosts hostindex host st :
  py_index hosts hostindex = Some host →
  let db := (host, EdgeStore._dbname (EdgeStore.self st)) in
  ∃ st',
    EdgeStore._getHostShard hosts hostindex st = (inr db, st')
    ∧ (∀ h, EdgeStore.shard h st' = EdgeStore.shard h st)
    ∧ is_Some (EdgeStore._shards (EdgeStore.self st') !! db)
    ∧ is_Some (EdgeStore.connections st' !! db)
    ∧ EdgeStore._dbname (EdgeStore.self st') = EdgeStore._dbname (EdgeStore.self st)
    ∧ EdgeStore._locked_colos (EdgeStore.self st') = EdgeStore._locked_colos (EdgeStore.self st)
    ∧ EdgeStore.lastAddWasOverwrite (EdgeStore.self st')
      = EdgeStore.lastAddWasOverwrite (EdgeStore.self st).
Proof.
  intros Hhost db. unfold EdgeStore._getHostShard, bind. rewrite Hhost.
  unfold ret, gets, modify. fold db. cbn [EdgeStore.self EdgeStore.set_connection].
  destruct (EdgeStore._shards (EdgeStore.self st) !! db) as [flag|] eqn:Hcached.
  - eexists. split; [reflexivity|]. split; [intros h; apply shard_set_connection|].
    unfold EdgeStore.set_connection.
    cbn [EdgeStore.self EdgeStore._shards EdgeStore.connections].
    split; [by rewrite Hcached|]. split; [|repeat split].
    rewrite lookup_insert_eq. by eexists.
  - eexists. split; [reflexivity|].
    unfold EdgeStore.set_connection at 1 2 3 4 5 6.
    cbn [EdgeStore.self EdgeStore._shards EdgeStore.connections EdgeStore.set_self
         EdgeStore.set_shards EdgeStore._dbname EdgeStore._locked_colos
         EdgeStore.lastAddWasOverwrite].
    split; [|split; [|split; [|repeat split]]].
    + intros h. rewrite <- (shard_set_connection h db st).
      unfold EdgeStore.shard, EdgeStore.connection.
      cbn [EdgeStore.self EdgeStore._shards EdgeStore.connections EdgeStore.set_self
           EdgeStore.set_shards EdgeStore.set_connection]. f_equal.
      destruct (decide (db = h)) as [Heq|Hne].
      * rewrite <- Heq, lookup_insert_eq.
        match goal with
        | |- _ = default false ?o => replace o with (@None bool) by (symmetry; exact Hcached)
        end.
        reflexivity.
      * by rewrite lookup_insert_ne.
    + rewrite lookup_insert_eq. by eexists.
    + rewrite lookup_insert_eq. by eexists.
Qed.

(** A call that finds the shard and the connection in place changes
    nothing. *)
Lemma getHostShard_cached hosts hostindex host st :
  py_index hosts hostindex = Some host →
  let db := (host, EdgeStore._dbname (EdgeStore.self st)) in
  is_Some (EdgeStore._shards (EdgeStore.self st) !! db) →
  is_Some (EdgeStore.connections st !! db) →
  EdgeStore._getHostShard hosts hostindex st = (inr db, st).
Proof.
  intros Hhost db. subst db. destruct st as [self conns].
  cbn [EdgeStore.self EdgeStore.connections]. intros [flag Hflag] [d Hd].
  unfold EdgeStore._getHostShard, bind. rewrite Hhost.
  unfold ret, gets, modify, EdgeStore.set_connection, EdgeStore.connection.
  cbn [EdgeStore.self EdgeStore.connections]. unfold EdgeStore.Handle in *.
  rewrite Hflag, Hd. cbn [default]. rewrite (insert_id _ _ _ Hd). reflexivity.
Qed.

(** ** Composed identifiers *)

Lemma composed_gid_injective C C' counter counter' :
  0 ≤ counter < 2 ^ 32 → 0 ≤ counter' < 2 ^ 32 →
  Z.shiftl C 32 + counter = Z.shiftl C' 32 + counter' → C = C' ∧ counter = counter'.
Proof.
  intros Hc Hc' Heq.
  assert (HC : C = C').
  { rewrite <- (colo_of_composed C counter Hc), <- (colo_of_composed C' counter' Hc').
    by rewrite Heq. }
  subst C'. split; [reflexivity|lia].
Qed.

(** ** The newest edge of a parent *)

Lemma stored_edge_spec s e :
  stored_edge s (Edge.edgetype e) (Edge.gid1 e) (Edge.gid2 e) = Some e
  ↔ edge_of s (Edge.edgetype e) (Edge.gid1 e) (Edge.gid2 e) = Some (EdgeData.of_edge e).
Proof.
  unfold stored_edge.
  destruct (edge_of s (Edge.edgetype e) (Edge.gid1 e) (Edge.gid2 e)) as [c|];
    [|split; discriminate].
  change (Some (EdgeData.to_edge (Edge.key e) c) = Some e ↔ Some c = Some (EdgeData.of_edge e)).
  split; intros H.
  - assert (He : EdgeData.to_edge (Edge.key e) c = e) by congruence.
    f_equal. pose proof (of_to_edge (Edge.key e) c) as Hof. by rewrite He in Hof.
  - assert (Hc : c = EdgeData.of_edge e) by congruence.
    subst c. by rewrite to_of_edge.
Qed.

Lemma stored_after_add s edgetype gid1 gid2 encoding data indices overwrite e s' :
  EdgeStoreShard.add edgetype gid1 gid2 encoding data indices overwrite s = (inr e, s') →
  stored_edge s' edgetype gid1 gid2 = Some e.
Proof.
  intros Hadd. destruct (add_returns _ _ _ _ _ _ _ _ _ _ Hadd) as (He & Hed & _).
  unfold stored_edge, edge_of. rewrite Hed, lookup_insert_eq, He. reflexivity.
Qed.

Lemma sorted_head_newest s edgetype gid1 e :
  revisions_sound s →
  In e (listed s edgetype gid1) →
  Edge.revision e = current_revision s edgetype gid1 →
  ∃ rest, listed s edgetype gid1 = e :: rest.
Proof.
  intros (_ & Hbound & Hdistinct) Hin Hnewest.
  pose proof (revision_desc_sorted
                (List.filter (under_parent edgetype gid1) (edge_rows (shard_tables s))))
    as Hsorted.
  fold (listed s edgetype gid1) in Hsorted.
  assert (Hall : ∀ x, In x (listed s edgetype gid1) →
            edge_of s edgetype gid1 (Edge.gid2 x) = Some (EdgeData.of_edge x)
            ∧ Edge.edgetype x = edgetype ∧ Edge.gid1 x = gid1).
  { intros x Hx. apply In_listed in Hx. destruct Hx as (Hx & Het & Hg).
    apply stored_edge_spec in Hx. rewrite Het, Hg in Hx. auto. }
  destruct (listed s edgetype gid1) as [|h rest]; [destruct Hin|].
  exists rest. f_equal.
  destruct Hin as [Hhead|Hlater]; [exact Hhead|].
  apply StronglySorted_inv in Hsorted. destruct Hsorted as [_ Hle].
  rewrite List.Forall_forall in Hle. specialize (Hle e Hlater). cbn beta in Hle.
  destruct (Hall h (or_introl eq_refl)) as (Hh & Hhet & Hhg).
  destruct (Hall e (or_intror Hlater)) as (He & Heet & Heg).
  pose proof (Hbound _ _ _ _ Hh) as Hhb. cbn in Hhb.
  assert (Hgid2 : Edge.gid2 h = Edge.gid2 e).
  { apply (Hdistinct _ _ _ _ _ _ Hh He). cbn. lia. }
  rewrite Hgid2 in Hh.
  assert (Hof : EdgeData.of_edge h = EdgeData.of_edge e) by congruence.
  assert (Hkey : Edge.key h = Edge.key e)
    by (unfold Edge.key; by rewrite Hhet, Hhg, Heet, Heg, Hgid2).
  rewrite <- (to_of_edge h), <- (to_of_edge e). by rewrite Hof, Hkey.
Qed.

(** ** A new key *)

Lemma hits_existing_new s edgetype gid1 gid2 encoding data overwrite :
  edge_of s edgetype gid1 gid2 = None →
  hits_existing s edgetype gid1 gid2 encoding data overwrite = false.
Proof. intros Hnone. unfold hits_existing. by rewrite Hnone. Qed.

(** ** Properties of the shard operations *)

(** X1. [get] without an index type returns the row stored at the key
    [(edgetype, gid1, gid2)] as an edge tuple, or [None] when there is no
    such row, and leaves the shard as it was. *)
Theorem get_returns_stored_edge s edgetype gid1 gid2 indexrange :
  EdgeStoreShard.get edgetype gid1 gid2 None indexrange s
  = (inr match edge_of s edgetype gid1 gid2 with
         | Some c =>
             Some (EdgeRow (Edge.mk edgetype gid1 gid2 (EdgeData.revision c)
                                    (EdgeData.encoding c) (EdgeData.data c)))
         | None => None
         end, s).
Proof.
  rewrite get_eq. unfold stored_edge.
  destruct (edge_of s edgetype gid1 gid2); reflexivity.
Qed.

(** X2. What a returning [add] leaves: the tuple it returns carries the
    revision that follows the parent's, the row at the key holds that
    revision with the new encoding and data, the revision of the parent has
    moved on by one, its count has grown by one exactly when there was no
    row at the key, and every other [edgedata] row, every other [edgemeta]
    row and the [colo] table are as before. *)
Theorem add_postcondition s edgetype gid1 gid2 encoding data indices overwrite e s' :
  EdgeStoreShard.add edgetype gid1 gid2 encoding data indices overwrite s = (inr e, s') →
  e = Edge.mk edgetype gid1 gid2 (current_revision s edgetype gid1 + 1) encoding data
  ∧ edge_of s' edgetype gid1 gid2
    = Some (EdgeData.mk (current_revision s edgetype gid1 + 1) encoding data)
  ∧ current_revision s' edgetype gid1 = current_revision s edgetype gid1 + 1
  ∧ current_count s' edgetype gid1
    = current_count s edgetype gid1 + (if edge_of s edgetype gid1 gid2 is Some _ then 0 else 1)
  ∧ (∀ et g1 g2, (et, g1, g2) ≠ (edgetype, gid1, gid2) →
                 edge_of s' et g1 g2 = edge_of s et g1 g2)
  ∧ (∀ et g1, (et, g1) ≠ (edgetype, gid1) → meta_of s' et g1 = meta_of s et g1)
  ∧ colo (shard_tables s') = colo (shard_tables s).
Proof.
  intros Hadd. destruct (add_returns _ _ _ _ _ _ _ _ _ _ Hadd) as (He & Hed & Hem & Hco).
  split; [exact He|]. unfold edge_of, current_revision, current_count, meta_of.
  rewrite Hed, Hem, !lookup_insert_eq, He. cbn [EdgeMeta.revision EdgeMeta.count].
  repeat split; try done.
  - intros et g1 g2 Hne. by rewrite lookup_insert_ne.
  - intros et g1 Hne. by rewrite lookup_insert_ne.
Qed.

Lemma add_postcondition_witness :
  let s := (EdgeStoreShard.add 7 gid_5_1 gid_5_2 1 "x" [(3, "k", true)] false fresh_shard).2 in
  ∃ s', EdgeStoreShard.add 7 gid_5_1 gid_5_3 1 "z" [(3, "m", true)] false s
        = (inr (Edge.mk 7 gid_5_1 gid_5_3 2 1 "z"), s')
        ∧ edge_of s' 7 gid_5_1 gid_5_3 = Some (EdgeData.mk 2 1 "z")
        ∧ current_revision s' 7 gid_5_1 = 2
        ∧ current_count s' 7 gid_5_1 = 2
        ∧ edge_of s' 7 gid_5_1 gid_5_2 = Some (EdgeData.mk 1 1 "x").
Proof.
  intros s.
  assert (Hadd : EdgeStoreShard.add 7 gid_5_1 gid_5_3 1 "z" [(3, "m", true)] false s
                 = (inr (Edge.mk 7 gid_5_1 gid_5_3 2 1 "z"),
                    (EdgeStoreShard.add 7 gid_5_1 gid_5_3 1 "z" [(3, "m", true)] false s).2))
    by (vm_compute; reflexivity).
  destruct (add_postcondition s 7 gid_5_1 gid_5_3 1 "z" [(3, "m", true)] false _ _ Hadd)
    as (_ & Hedge & Hrev & Hcount & Hother & _).
  eexists. split; [exact Hadd|]. split; [exact Hedge|].
  split; [exact Hrev|]. split; [exact Hcount|].
  rewrite (Hother 7 gid_5_1 gid_5_2) by discriminate. reflexivity.
Defined.

(** X3. Round trip: after a returning [add], [get] on the same key returns
    the tuple that [add] returned, and [count] reports the count of the
    parent raised by one exactly when the edge is new. *)
Theorem add_then_get s edgetype gid1 gid2 encoding data indices overwrite e s' indexrange :
  EdgeStoreShard.add edgetype gid1 gid2 encoding data indices overwrite s = (inr e, s') →
  EdgeStoreShard.get edgetype gid1 gid2 None indexrange s' = (inr (Some (EdgeRow e)), s')
  ∧ EdgeStoreShard.count edgetype gid1 s'
    = (inr (current_count s edgetype gid1
            + if edge_of s edgetype gid1 gid2 is Some _ then 0 else 1), s').
Proof.
  intros Hadd. split.
  - by rewrite get_eq, (stored_after_add _ _ _ _ _ _ _ _ _ _ Hadd).
  - rewrite count_eq. do 2 f_equal.
    destruct (add_returns _ _ _ _ _ _ _ _ _ _ Hadd) as (_ & _ & Hem & _).
    unfold current_count at 1, meta_of. rewrite Hem, lookup_insert_eq. reflexivity.
Qed.

Lemma add_then_get_witness :
  ∃ s', EdgeStoreShard.add 7 gid_5_1 gid_5_2 1 "x" [(3, "k", true)] false fresh_shard
        = (inr (Edge.mk 7 gid_5_1 gid_5_2 1 1 "x"), s')
        ∧ EdgeStoreShard.get 7 gid_5_1 gid_5_2 None None s'
          = (inr (Some (EdgeRow (Edge.mk 7 gid_5_1 gid_5_2 1 1 "x"))), s')
        ∧ EdgeStoreShard.count 7 gid_5_1 s' = (inr 1, s').
Proof.
  assert (Hadd : EdgeStoreShard.add 7 gid_5_1 gid_5_2 1 "x" [(3, "k", true)] false fresh_shard
                 = (inr (Edge.mk 7 gid_5_1 gid_5_2 1 1 "x"),
                    (EdgeStoreShard.add 7 gid_5_1 gid_5_2 1 "x" [(3, "k", true)] false
                       fresh_shard).2))
    by (vm_compute; reflexivity).
  eexists. split; [exact Hadd|].
  exact (add_then_get fresh_shard 7 gid_5_1 gid_5_2 1 "x" [(3, "k", true)] false _ _ None Hadd).
Defined.

(** X4. An [add] that raises changes none of the four tables, and the
    exception is the duplicate-key error of the insert, the assertion "data
    changed during update" or the assertion "edge violates index
    uniqueness": the assertion "added edge should not have a previous
    revision" never fails. *)
Theorem add_failure_is_atomic s edgetype gid1 gid2 encoding data indices overwrite e s' :
  EdgeStoreShard.add edgetype gid1 gid2 encoding data indices overwrite s = (inl e, s') →
  shard_tables s' = shard_tables s
  ∧ (e = IntegrityError "edgedata"
     ∨ e = AssertionError "data changed during update"
     ∨ e = AssertionError "edge violates index uniqueness").
Proof.
  intros Hadd.
  destruct (add_result s edgetype gid1 gid2 encoding data indices overwrite)
    as [(e' & s1 & Hraised & Htables & Hexn)|(affected & prev & rows' & s1 & Hret & _)].
  - rewrite Hraised in Hadd. injection Hadd as <- <-. split; [exact Htables|].
    destruct Hexn as [<-|[<-|[<-|[]]]]; auto.
  - rewrite Hret in Hadd. discriminate Hadd.
Qed.

Lemma add_failure_is_atomic_witness :
  let s := (EdgeStoreShard.add 7 gid_5_1 gid_5_2 1 "x" [(3, "k", true)] false fresh_shard).2 in
  ∃ s', EdgeStoreShard.add 7 gid_5_1 gid_5_3 1 "z" [(4, "a", false); (3, "k", true)] false s
        = (inl (AssertionError "edge violates index uniqueness"), s')
        ∧ shard_tables s' = shard_tables s.
Proof.
  intros s.
  assert (Hadd : EdgeStoreShard.add 7 gid_5_1 gid_5_3 1 "z" [(4, "a", false); (3, "k", true)]
                   false s
                 = (inl (AssertionError "edge violates index uniqueness"),
                    (EdgeStoreShard.add 7 gid_5_1 gid_5_3 1 "z"
                       [(4, "a", false); (3, "k", true)] false s).2))
    by (vm_compute; reflexivity).
  eexists. split; [exact Hadd|].
  exact (proj1 (add_failure_is_atomic s 7 gid_5_1 gid_5_3 1 "z"
                  [(4, "a", false); (3, "k", true)] false _ _ Hadd)).
Defined.

(** X5. [add] without [overwrite] on a key that has a row raises the
    duplicate-key error of the insert; the tables are as before (the
    revision issued for the attempt is rolled back with it) and the flag
    [lastAddWasOverwrite] is untouched. *)
Theorem add_existing_without_overwrite s edgetype gid1 gid2 encoding data indices old :
  edge_of s edgetype gid1 gid2 = Some old →
  ∃ s', EdgeStoreShard.add edgetype gid1 gid2 encoding data indices false s
        = (inl (IntegrityError "edgedata"), s')
        ∧ shard_tables s' = shard_tables s
        ∧ current_revision s' edgetype gid1 = current_revision s edgetype gid1
        ∧ EdgeStoreShard.lastAddWasOverwrite s' = EdgeStoreShard.lastAddWasOverwrite s.
Proof.
  intros Hold. eexists. split; [exact (add_duplicate_eq _ _ _ _ _ _ _ _ Hold)|].
  repeat split.
Qed.

Lemma add_existing_without_overwrite_witness :
  let s := (EdgeStoreShard.add 7 gid_5_1 gid_5_2 1 "x" [] false fresh_shard).2 in
  edge_of s 7 gid_5_1 gid_5_2 = Some (EdgeData.mk 1 1 "x")
  ∧ ∃ s', EdgeStoreShard.add 7 gid_5_1 gid_5_2 2 "y" [(3, "k", false)] false s
          = (inl (IntegrityError "edgedata"), s')
          ∧ shard_tables s' = shard_tables s
          ∧ current_revision s' 7 gid_5_1 = current_revision s 7 gid_5_1
          ∧ EdgeStoreShard.lastAddWasOverwrite s' = EdgeStoreShard.lastAddWasOverwrite s.
Proof.
  intros s. split; [vm_compute; reflexivity|].
  apply (add_existing_without_overwrite s 7 gid_5_1 gid_5_2 2 "y" [(3, "k", false)]
           (EdgeData.mk 1 1 "x")).
  vm_compute; reflexivity.
Defined.

(** X6. [delete] of an edge that has a row with a nonzero revision returns
    [True]; afterwards the key has no row ([get] returns [None]), the count
    of the parent is one lower and its revision one higher, the other rows
    of [edgedata] are as before, and [edgeindex] has lost exactly the rows
    of the listed index types that carry the parent and the revision of the
    deleted edge. *)
Theorem delete_existing_edge s edgetype gid1 gid2 indextypes old :
  edge_of s edgetype gid1 gid2 = Some old →
  EdgeData.revision old ≠ 0 →
  ∃ s',
    EdgeStoreShard.delete edgetype gid1 gid2 indextypes s = (inr true, s')
    ∧ EdgeStoreShard.get edgetype gid1 gid2 None None s' = (inr None, s')
    ∧ current_count s' edgetype gid1 = current_count s edgetype gid1 - 1
    ∧ current_revision s' edgetype gid1 = current_revision s edgetype gid1 + 1
    ∧ (∀ et g1 g2, (et, g1, g2) ≠ (edgetype, gid1, gid2) →
                   edge_of s' et g1 g2 = edge_of s et g1 g2)
    ∧ (∀ row, In row (edgeindex (shard_tables s'))
              ↔ In row (edgeindex (shard_tables s))
                ∧ ¬ (In (EdgeIndex.indextype row) indextypes
                     ∧ EdgeIndex.gid1 row = gid1
                     ∧ EdgeIndex.revision row = EdgeData.revision old)).
Proof.
  intros Hold Hrev.
  destruct (delete_existing_eq s edgetype gid1 gid2 indextypes old Hold Hrev)
    as (s' & Hrun & Htables & _).
  exists s'. split; [exact Hrun|].
  rewrite get_eq. unfold stored_edge, edge_of, current_count, current_revision, meta_of.
  rewrite Htables. cbn [edgedata edgemeta edgeindex].
  rewrite lookup_delete_eq, !lookup_insert_eq. cbn [EdgeMeta.revision EdgeMeta.count].
  split; [reflexivity|]. split; [reflexivity|]. split; [reflexivity|]. split.
  - intros et g1 g2 Hne. by rewrite lookup_delete_ne.
  - intros row. apply In_delete_index_rows.
Qed.

Lemma delete_existing_edge_witness :
  let s1 := (EdgeStoreShard.add 7 gid_5_1 gid_5_2 1 "x" [(3, "k", false); (4, "a", false)]
               false fresh_shard).2 in
  let s := (EdgeStoreShard.add 7 gid_5_1 gid_5_3 1 "z" [(3, "m", false)] false s1).2 in
  ∃ s',
    EdgeStoreShard.delete 7 gid_5_1 gid_5_2 [3] s = (inr true, s')
    ∧ EdgeStoreShard.get 7 gid_5_1 gid_5_2 None None s' = (inr None, s')
    ∧ current_count s' 7 gid_5_1 = 1
    ∧ current_revision s' 7 gid_5_1 = 3
    ∧ edge_of s' 7 gid_5_1 gid_5_3 = Some (EdgeData.mk 2 1 "z")
    ∧ ¬ In (EdgeIndex.mk 3 "k" gid_5_1 1) (edgeindex (shard_tables s'))
    ∧ In (EdgeIndex.mk 4 "a" gid_5_1 1) (edgeindex (shard_tables s'))
    ∧ In (EdgeIndex.mk 3 "m" gid_5_1 2) (edgeindex (shard_tables s')).
Proof.
  intros s1 s.
  destruct (delete_existing_edge s 7 gid_5_1 gid_5_2 [3] (EdgeData.mk 1 1 "x"))
    as (s' & Hrun & Hget & Hcount & Hrev & Hother & Hrows).
  - vm_compute; reflexivity.
  - discriminate.
  - exists s'. split; [exact Hrun|]. split; [exact Hget|].
    split; [exact Hcount|]. split; [exact Hrev|].
    split; [rewrite (Hother 7 gid_5_1 gid_5_3) by discriminate; vm_compute; reflexivity|].
    split; [|split].
    + rewrite Hrows. intros [_ Hkept]. apply Hkept. repeat split. left. reflexivity.
    + apply Hrows. split; [vm_compute; tauto|].
      intros ([Hit|[]] & _). discriminate Hit.
    + apply Hrows. split; [vm_compute; tauto|].
      intros (_ & _ & Hr). discriminate Hr.
Defined.

(** ** Invariants over histories of [add] and [delete] *)

(** X7. The count column counts the edges.  If every parent's count equals
    the number of its rows in [edgedata] (as on an empty shard), then after
    any history of [add] and [delete] calls, failed ones included, [count]
    returns the number of rows the parent has, which is also the number of
    rows [query] lists for the parent. *)
Theorem count_is_number_of_edges history s edgetype gid1 :
  counts_edges s →
  gid1 ≠ 0 →
  let s' := apply_history history s in
  ∃ rows,
    EdgeStoreShard.query edgetype None None (Some gid1) s' = (inr rows, s')
    ∧ EdgeStoreShard.count edgetype gid1 s' = (inr (Z.of_nat (length rows)), s')
    ∧ length rows = edges_under (shard_tables s') edgetype gid1.
Proof.
  intros Hinv Hgid s'. exists (EdgeRow <$> listed s' edgetype gid1).
  split; [by apply query_by_parent_eq|].
  rewrite length_fmap, length_listed, count_eq.
  split; [|reflexivity]. do 2 f_equal. by apply history_counts_edges.
Qed.

Lemma count_is_number_of_edges_witness :
  let history :=
    [Add 7 gid_5_1 gid_5_2 1 "x" [(3, "k", true)] false;
     Add 7 gid_5_1 gid_5_3 1 "z" [(3, "k", true)] false;
     Add 7 gid_5_1 gid_5_3 1 "z" [] false;
     Add 7 gid_5_1 gid_5_2 1 "y" [] true;
     Delete 7 gid_5_1 gid_5_1 [];
     Delete 7 gid_5_1 gid_5_2 [3]] in
  let s' := apply_history history fresh_shard in
  ∃ rows,
    EdgeStoreShard.query 7 None None (Some gid_5_1) s' = (inr rows, s')
    ∧ EdgeStoreShard.count 7 gid_5_1 s' = (inr (Z.of_nat (length rows)), s')
    ∧ length rows = edges_under (shard_tables s') 7 gid_5_1.
Proof.
  intros history.
  apply (count_is_number_of_edges history fresh_shard 7 gid_5_1).
  - intros edgetype gid1. reflexivity.
  - discriminate.
Defined.

(** X8. Revisions identify the edges of a parent.  If no revision is
    negative, every edge has a revision between 1 and the revision of its
    parent, and no two edges of a parent share a revision (as on an empty
    shard), then the same holds after any history of [add] and [delete]
    calls. *)
Theorem revisions_stay_sound history s :
  revisions_sound s → revisions_sound (apply_history history s).
Proof. apply history_revisions_sound. Qed.

Lemma revisions_stay_sound_witness :
  revisions_sound
    (apply_history
       [Add 7 gid_5_1 gid_5_2 1 "x" [(3, "k", true)] false;
        Add 7 gid_5_1 gid_5_3 1 "z" [] false;
        Add 7 gid_5_1 gid_5_2 1 "y" [] true;
        Delete 7 gid_5_1 gid_5_3 [];
        Add 7 gid_5_1 gid_5_2 1 "w" [(3, "k", true)] true]
       fresh_shard).
Proof.
  apply (revisions_stay_sound _ fresh_shard).
  split; [|split].
  - intros edgetype gid1. reflexivity.
  - intros edgetype gid1 gid2 c Hc. discriminate Hc.
  - intros edgetype gid1 gid2 gid2' c c' Hc. discriminate Hc.
Defined.

(** X9. On a shard whose revisions are sound, and so after any history of
    [add] and [delete] calls on an empty shard, [delete] does not raise: it
    returns [True] when the edge has a row and [False] when it has none (the
    assertion "missing revision for deleted edge" does not fail there). *)
Theorem delete_returns_whether_edge_existed history s edgetype gid1 gid2 indextypes :
  revisions_sound s →
  let s1 := apply_history history s in
  ∃ s2, EdgeStoreShard.delete edgetype gid1 gid2 indextypes s1
        = (inr (bool_decide (is_Some (edge_of s1 edgetype gid1 gid2))), s2).
Proof.
  intros Hinv s1. apply delete_sound_returns. by apply history_revisions_sound.
Qed.

Lemma delete_returns_whether_edge_existed_witness :
  let history :=
    [Add 7 gid_5_1 gid_5_2 1 "x" [(3, "k", true)] false;
     Add 7 gid_5_1 gid_5_3 1 "z" [] false;
     Delete 7 gid_5_1 gid_5_3 []] in
  (∃ s2, EdgeStoreShard.delete 7 gid_5_1 gid_5_2 [3] (apply_history history fresh_shard)
         = (inr true, s2))
  ∧ (∃ s2, EdgeStoreShard.delete 7 gid_5_1 gid_5_3 [3] (apply_history history fresh_shard)
           = (inr false, s2)).
Proof.
  intros history.
  assert (Hfresh : revisions_sound fresh_shard).
  { split; [|split].
    - intros edgetype gid1. reflexivity.
    - intros edgetype gid1 gid2 c Hc. discriminate Hc.
    - intros edgetype gid1 gid2 gid2' c c' Hc. discriminate Hc. }
  split.
  - destruct (delete_returns_whether_edge_existed history fresh_shard 7 gid_5_1 gid_5_2 [3]
                Hfresh) as [s2 Hrun].
    exists s2. rewrite Hrun. do 2 f_equal.
  - destruct (delete_returns_whether_edge_existed history fresh_shard 7 gid_5_1 gid_5_3 [3]
                Hfresh) as [s2 Hrun].
    exists s2. rewrite Hrun. do 2 f_equal.
Defined.

(** ** The overwrite flag, exactly *)

(** X10. After [add], whether it returned or raised, the flag
    [lastAddWasOverwrite] is set exactly when it was set before or the call
    found a row at the key and changed it under [overwrite]: an insert
    never clears the flag, and an overwrite that fails and is rolled back
    sets it all the same. *)
Theorem flag_set_exactly_on_hit s edgetype gid1 gid2 encoding data indices overwrite :
  EdgeStoreShard.lastAddWasOverwrite
    (EdgeStoreShard.add edgetype gid1 gid2 encoding data indices overwrite s).2
  = EdgeStoreShard.lastAddWasOverwrite s
    || match edge_of s edgetype gid1 gid2 with
       | Some old =>
           overwrite
           && negb (bool_decide
                      (EdgeData.mk (current_revision s edgetype gid1 + 1) encoding data = old))
       | None => false
       end.
Proof.
  fold (new_edge s edgetype gid1 gid2 encoding data).
  destruct (edge_of s edgetype gid1 gid2) as [old|] eqn:Hedge.
  - destruct overwrite; cbn [andb].
    + destruct (decide (EdgeData.of_edge (new_edge s edgetype gid1 gid2 encoding data) = old))
        as [Hsame|Hchanged].
      * rewrite (add_unchanged_eq _ _ _ _ _ _ _ _ Hedge Hsame), conclude_flag.
        rewrite bool_decide_eq_true_2 by exact Hsame. by rewrite orb_false_r.
      * rewrite bool_decide_eq_false_2 by exact Hchanged. cbn [negb]. rewrite orb_true_r.
        destruct (decide (EdgeData.revision old = current_revision s edgetype gid1))
          as [Hlatest|Hstale].
        -- rewrite (add_update_path_eq _ _ _ _ _ _ _ _ Hedge) by lia. apply conclude_flag.
        -- by rewrite (add_stale_general_eq _ _ _ _ _ _ _ _ Hedge Hchanged Hstale).
    + rewrite (add_duplicate_eq _ _ _ _ _ _ _ _ Hedge). cbn [snd]. by rewrite orb_false_r.
  - rewrite (add_insert_path_eq _ _ _ _ _ _ _ _ Hedge), conclude_flag. by rewrite orb_false_r.
Qed.

(** ** Listing the edges of a parent *)

(** X11. [query] by parent alone ([gid1] nonzero, no index type) returns the
    edges stored under [(edgetype, gid1)], each one once, ordered by
    revision from the highest down, and leaves the shard as it was. *)
Theorem query_by_parent_lists_edges s edgetype gid1 indexrange :
  gid1 ≠ 0 →
  ∃ edges,
    EdgeStoreShard.query edgetype None indexrange (Some gid1) s = (inr (EdgeRow <$> edges), s)
    ∧ (∀ e, In e edges
            ↔ edge_of s (Edge.edgetype e) (Edge.gid1 e) (Edge.gid2 e)
              = Some (EdgeData.of_edge e)
              ∧ Edge.edgetype e = edgetype ∧ Edge.gid1 e = gid1)
    ∧ List.NoDup edges
    ∧ StronglySorted (λ a b, Edge.revision b ≤ Edge.revision a) edges.
Proof.
  intros Hgid. exists (listed s edgetype gid1).
  split; [by apply query_by_parent_eq|]. split; [|split].
  - intros e. rewrite In_listed, stored_edge_spec. reflexivity.
  - apply NoDup_listed.
  - apply revision_desc_sorted.
Qed.

Lemma query_by_parent_lists_edges_witness :
  let s1 := (EdgeStoreShard.add 7 gid_5_1 gid_5_2 1 "x" [] false fresh_shard).2 in
  let s2 := (EdgeStoreShard.add 7 gid_5_1 gid_5_3 1 "z" [] false s1).2 in
  let s := (EdgeStoreShard.add 7 gid_5_2 gid_5_3 1 "w" [] false s2).2 in
  ∃ edges,
    EdgeStoreShard.query 7 None None (Some gid_5_1) s = (inr (EdgeRow <$> edges), s)
    ∧ (∀ e, In e edges
            ↔ edge_of s (Edge.edgetype e) (Edge.gid1 e) (Edge.gid2 e)
              = Some (EdgeData.of_edge e)
              ∧ Edge.edgetype e = 7 ∧ Edge.gid1 e = gid_5_1)
    ∧ List.NoDup edges
    ∧ StronglySorted (λ a b, Edge.revision b ≤ Edge.revision a) edges.
Proof.
  intros s1 s2 s. apply (query_by_parent_lists_edges s 7 gid_5_1 None). discriminate.
Defined.

(** X12. Newest first: on a shard whose revisions are sound, and so after
    any history of [add] and [delete] calls on an empty shard, the edge that
    [add] has just stored is the first row [query] lists for its parent. *)
Theorem added_edge_is_listed_first history s edgetype gid1 gid2 encoding data indices
    overwrite e s' :
  revisions_sound s →
  gid1 ≠ 0 →
  EdgeStoreShard.add edgetype gid1 gid2 encoding data indices overwrite
    (apply_history history s) = (inr e, s') →
  ∃ rest,
    EdgeStoreShard.query edgetype None None (Some gid1) s' = (inr (EdgeRow e :: rest), s').
Proof.
  intros Hinv Hgid Hadd.
  apply (history_revisions_sound history) in Hinv.
  assert (Hinv' : revisions_sound s').
  { pose proof (add_revisions_sound _ edgetype gid1 gid2 encoding data indices overwrite Hinv)
      as H.
    by rewrite Hadd in H. }
  destruct (add_returns _ _ _ _ _ _ _ _ _ _ Hadd) as (He & _ & Hem & _).
  destruct (sorted_head_newest s' edgetype gid1 e Hinv') as [rest Hlisted].
  - apply In_listed. rewrite He. cbn [Edge.edgetype Edge.gid1 Edge.gid2 new_edge].
    rewrite <- He. split; [|split; reflexivity].
    exact (stored_after_add _ _ _ _ _ _ _ _ _ _ Hadd).
  - rewrite (current_revision_after _ s' edgetype gid1 _ edgetype gid1 Hem).
    rewrite bool_decide_eq_true_2 by reflexivity. by rewrite He.
  - exists (EdgeRow <$> rest).
    rewrite (query_by_parent_eq s' edgetype gid1 None Hgid), Hlisted. reflexivity.
Qed.

Lemma added_edge_is_listed_first_witness :
  let history :=
    [Add 7 gid_5_1 gid_5_2 1 "x" [] false;
     Add 7 gid_5_1 gid_5_3 1 "z" [] false;
     Delete 7 gid_5_1 gid_5_3 []] in
  ∃ s' rest,
    EdgeStoreShard.add 7 gid_5_1 gid_5_1 1 "y" [] false (apply_history history fresh_shard)
    = (inr (Edge.mk 7 gid_5_1 gid_5_1 4 1 "y"), s')
    ∧ EdgeStoreShard.query 7 None None (Some gid_5_1) s'
      = (inr (EdgeRow (Edge.mk 7 gid_5_1 gid_5_1 4 1 "y") :: rest), s').
Proof.
  intros history.
  assert (Hadd : EdgeStoreShard.add 7 gid_5_1 gid_5_1 1 "y" [] false
                   (apply_history history fresh_shard)
                 = (inr (Edge.mk 7 gid_5_1 gid_5_1 4 1 "y"),
                    (EdgeStoreShard.add 7 gid_5_1 gid_5_1 1 "y" [] false
                       (apply_history history fresh_shard)).2))
    by (vm_compute; reflexivity).
  assert (Hfresh : revisions_sound fresh_shard).
  { split; [|split].
    - intros edgetype gid1. reflexivity.
    - intros edgetype gid1 gid2 c Hc. discriminate Hc.
    - intros edgetype gid1 gid2 gid2' c c' Hc. discriminate Hc. }
  destruct (added_edge_is_listed_first history fresh_shard 7 gid_5_1 gid_5_1 1 "y" [] false
              _ _ Hfresh ltac:(discriminate) Hadd) as [rest Hq].
  eexists _, rest. split; [exact Hadd|exact Hq].
Defined.

(** ** Index maintenance *)

Lemma In_joined_rows (where_ : EdgeIndex.t → bool) (on : EdgeIndex.t → Edge.t → bool) t i e :
  In i (edgeindex t) → where_ i = true → In e (edge_rows t) → on i e = true →
  In (EdgeRow e) (EdgeRow ∘ snd <$> order_by index_order (index_join where_ on t)).
Proof.
  intros Hi Hw He Hon. apply list_elem_of_In, list_elem_of_fmap.
  exists (i, e). split; [reflexivity|].
  apply list_elem_of_In, In_order_by, In_index_join. auto.
Qed.



(** X14. Round trip through an index: after a returning [add] whose
    [indices] hold an entry [(indextype, indexvalue, _)], a [query] of that
    index type over a range that contains [indexvalue] returns the added
    edge, both without a parent and (for a nonzero [gid1] and index type)
    under the parent of the edge. *)
Theorem indexed_edge_is_found s edgetype gid1 gid2 encoding data indices overwrite e s'
    indextype indexvalue unique lo hi :
  EdgeStoreShard.add edgetype gid1 gid2 encoding data indices overwrite s = (inr e, s') →
  In (indextype, indexvalue, unique) indices →
  between lo hi indexvalue = true →
  (∃ rows, EdgeStoreShard.query edgetype (Some indextype) (Some (lo, hi)) None s'
           = (inr rows, s')
           ∧ In (EdgeRow e) rows)
  ∧ (gid1 ≠ 0 → indextype ≠ 0 →
     ∃ rows, EdgeStoreShard.query edgetype (Some indextype) (Some (lo, hi)) (Some gid1) s'
             = (inr rows, s')
             ∧ In (EdgeRow e) rows).
Proof.
  intros Hadd Hentry Hrange.
  pose proof (add_index_rows _ _ _ _ _ _ _ _ _ _
                (EdgeIndex.mk indextype indexvalue gid1 (Edge.revision e)) Hadd) as Hrow.
  assert (Hi : In (EdgeIndex.mk indextype indexvalue gid1 (Edge.revision e))
                 (edgeindex (shard_tables s'))).
  { apply Hrow. left. exists indextype, indexvalue, unique. auto. }
  assert (He : In e (edge_rows (shard_tables s'))).
  { apply In_edge_rows. destruct (add_returns _ _ _ _ _ _ _ _ _ _ Hadd) as (He & Hed & _).
    rewrite Hed, He. unfold new_edge, Edge.key. cbn [Edge.edgetype Edge.gid1 Edge.gid2].
    by rewrite lookup_insert_eq. }
  assert (Hkey : Edge.edgetype e = edgetype ∧ Edge.gid1 e = gid1).
  { destruct (add_returns _ _ _ _ _ _ _ _ _ _ Hadd) as (-> & _). split; reflexivity. }
  destruct Hkey as [Het Hg].
  assert (Hw : index_where indextype lo hi
                 (EdgeIndex.mk indextype indexvalue gid1 (Edge.revision e)) = true).
  { unfold index_where. cbn. by rewrite Z.eqb_refl, Hrange. }
  clear Hrow. destruct s' as [d flag]. unfold shard_tables in *. cbn [EdgeStoreShard._db] in *.
  split.
  - eexists. split; [reflexivity|].
    apply (In_joined_rows _ _ _ _ _ Hi Hw He). cbn.
    by rewrite Het, Hg, !Z.eqb_refl.
  - intros Hgid Hit. unfold EdgeStoreShard.query, truthy_opt, truthy.
    destruct (Z.eqb_spec gid1 0) as [|_]; [contradiction|].
    destruct (Z.eqb_spec indextype 0) as [|_]; [contradiction|].
    eexists. split; [reflexivity|].
    apply (In_joined_rows _ _ _ _ _ Hi Hw He). cbn.
    by rewrite Het, Hg, !Z.eqb_refl.
Qed.

Lemma indexed_edge_is_found_witness :
  ∃ s' rows rows',
    EdgeStoreShard.add 7 gid_5_1 gid_5_2 1 "x" [(4, "a", false); (3, "k", true)] false
      fresh_shard
    = (inr (Edge.mk 7 gid_5_1 gid_5_2 1 1 "x"), s')
    ∧ EdgeStoreShard.query 7 (Some 3) (Some ("a", "z")) None s' = (inr rows, s')
    ∧ In (EdgeRow (Edge.mk 7 gid_5_1 gid_5_2 1 1 "x")) rows
    ∧ EdgeStoreShard.query 7 (Some 3) (Some ("a", "z")) (Some gid_5_1) s' = (inr rows', s')
    ∧ In (EdgeRow (Edge.mk 7 gid_5_1 gid_5_2 1 1 "x")) rows'.
Proof.
  assert (Hadd : EdgeStoreShard.add 7 gid_5_1 gid_5_2 1 "x" [(4, "a", false); (3, "k", true)]
                   false fresh_shard
                 = (inr (Edge.mk 7 gid_5_1 gid_5_2 1 1 "x"),
                    (EdgeStoreShard.add 7 gid_5_1 gid_5_2 1 "x"
                       [(4, "a", false); (3, "k", true)] false fresh_shard).2))
    by (vm_compute; reflexivity).
  destruct (indexed_edge_is_found fresh_shard 7 gid_5_1 gid_5_2 1 "x"
              [(4, "a", false); (3, "k", true)] false _ _ 3 "k" true "a" "z" Hadd)
    as [(rows & Hsearch & Hin) Hlist].
  - right. left. reflexivity.
  - reflexivity.
  - destruct (Hlist ltac:(discriminate) ltac:(discriminate)) as (rows' & Hq & Hin').
    eexists _, rows, rows'. split; [exact Hadd|]. auto.
Defined.

(** X15. Deleting what was just added: when [add] has stored a new edge,
    a [delete] of that edge which lists the index types of the [add]
    returns [True] and brings [edgedata] and the count of the parent back to
    what they were before the [add]; the revision of the parent is two
    higher, and [edgeindex] holds the rows it held before the [add] (but for
    rows of the listed types that carried the parent and the revision just
    used). *)
Theorem add_then_delete_restores s edgetype gid1 gid2 encoding data indices overwrite e s1
    indextypes :
  edge_of s edgetype gid1 gid2 = None →
  current_revision s edgetype gid1 ≠ -1 →
  (∀ indextype indexvalue unique,
     In (indextype, indexvalue, unique) indices → In indextype indextypes) →
  EdgeStoreShard.add edgetype gid1 gid2 encoding data indices overwrite s = (inr e, s1) →
  ∃ s2,
    EdgeStoreShard.delete edgetype gid1 gid2 indextypes s1 = (inr true, s2)
    ∧ edgedata (shard_tables s2) = edgedata (shard_tables s)
    ∧ current_count s2 edgetype gid1 = current_count s edgetype gid1
    ∧ current_revision s2 edgetype gid1 = current_revision s edgetype gid1 + 2
    ∧ (∀ row, In row (edgeindex (shard_tables s2))
              ↔ In row (edgeindex (shard_tables s))
                ∧ ¬ (In (EdgeIndex.indextype row) indextypes
                     ∧ EdgeIndex.gid1 row = gid1
                     ∧ EdgeIndex.revision row = current_revision s edgetype gid1 + 1)).
Proof.
  intros Hnew Hrev Htypes Hadd.
  destruct (add_returns _ _ _ _ _ _ _ _ _ _ Hadd) as (He & Hed & Hem & _).
  assert (Hstored : edge_of s1 edgetype gid1 gid2 = Some (EdgeData.of_edge e))
    by (unfold edge_of; by rewrite Hed, lookup_insert_eq).
  destruct (delete_existing_eq s1 edgetype gid1 gid2 indextypes _ Hstored)
    as (s2 & Hrun & Htables & _).
  { rewrite He. cbn. lia. }
  exists s2. split; [exact Hrun|].
  rewrite Hnew in Hem. unfold counted in Hem.
  unfold current_count, current_revision, meta_of in *. rewrite Htables.
  cbn [edgedata edgemeta edgeindex]. rewrite Hed, Hem, !lookup_insert_eq.
  cbn [EdgeMeta.revision EdgeMeta.count].
  split; [by apply delete_insert_id|].
  split; [lia|]. split; [lia|].
  intros row. rewrite In_delete_index_rows.
  rewrite (add_index_rows _ _ _ _ _ _ _ _ _ _ row Hadd).
  rewrite (hits_existing_new _ _ _ _ _ _ _ Hnew), He. cbn [Edge.revision new_edge].
  unfold current_revision, meta_of. split.
  - intros [[(it & iv & u & Hentry & ->)|[Hin _]] Hkept].
    + destruct Hkept. cbn. split; [by eapply Htypes|]. split; reflexivity.
    + split; [exact Hin|exact Hkept].
  - intros [Hin Hkept]. split; [|exact Hkept]. right. split; [exact Hin|].
    intros (Hfalse & _). discriminate Hfalse.
Qed.

Lemma add_then_delete_restores_witness :
  let s := (EdgeStoreShard.add 7 gid_5_1 gid_5_2 1 "x" [(3, "k", true)] false fresh_shard).2 in
  ∃ s1 s2,
    EdgeStoreShard.add 7 gid_5_1 gid_5_3 1 "z" [(3, "m", true); (4, "a", false)] false s
    = (inr (Edge.mk 7 gid_5_1 gid_5_3 2 1 "z"), s1)
    ∧ EdgeStoreShard.delete 7 gid_5_1 gid_5_3 [3; 4] s1 = (inr true, s2)
    ∧ edgedata (shard_tables s2) = edgedata (shard_tables s)
    ∧ current_count s2 7 gid_5_1 = current_count s 7 gid_5_1
    ∧ current_revision s2 7 gid_5_1 = current_revision s 7 gid_5_1 + 2
    ∧ In (EdgeIndex.mk 3 "k" gid_5_1 1) (edgeindex (shard_tables s2))
    ∧ ¬ In (EdgeIndex.mk 3 "m" gid_5_1 2) (edgeindex (shard_tables s2)).
Proof.
  intros s.
  assert (Hadd : EdgeStoreShard.add 7 gid_5_1 gid_5_3 1 "z" [(3, "m", true); (4, "a", false)]
                   false s
                 = (inr (Edge.mk 7 gid_5_1 gid_5_3 2 1 "z"),
                    (EdgeStoreShard.add 7 gid_5_1 gid_5_3 1 "z"
                       [(3, "m", true); (4, "a", false)] false s).2))
    by (vm_compute; reflexivity).
  assert (Hnew : edge_of s 7 gid_5_1 gid_5_3 = None) by (vm_compute; reflexivity).
  assert (Hrev0 : current_revision s 7 gid_5_1 ≠ -1) by (vm_compute; discriminate).
  assert (Htypes : ∀ indextype indexvalue unique,
            In (indextype, indexvalue, unique) [(3, "m", true); (4, "a", false)] →
            In indextype [3; 4]).
  { intros it iv u [Heq|[Heq|[]]]; injection Heq as <- _ _; [left|right; left]; reflexivity. }
  destruct (add_then_delete_restores s 7 gid_5_1 gid_5_3 1 "z"
              [(3, "m", true); (4, "a", false)] false _ _ [3; 4] Hnew Hrev0 Htypes Hadd)
    as (s2 & Hdel & Hed & Hcount & Hrev & Hrows).
  eexists _, s2. split; [exact Hadd|]. split; [exact Hdel|]. split; [exact Hed|].
  split; [exact Hcount|]. split; [exact Hrev|]. split.
  - apply Hrows. split; [vm_compute; tauto|].
    intros (_ & _ & Hr). vm_compute in Hr. discriminate Hr.
  - rewrite Hrows. intros [Hin _]. vm_compute in Hin.
    destruct Hin as [Heq|[]]. discriminate Heq.
Defined.

(** ** Locking and routing *)

(** X16. [EdgeStoreShard.lock] acquires nothing: outside a transaction its
    assertion fails, inside one the call of [generateGid] raises
    [NameError]; either way no statement is run and the shard is as it
    was. *)
Theorem shard_lock_never_acquires colo s :
  EdgeStoreShard.lock colo s
  = (inl (if ongoing_transaction (EdgeStoreShard._db s)
          then NameError "_generateGidSQL" else AssertionError EmptyString), s)
  ∧ EdgeStoreShard.transaction (EdgeStoreShard.lock colo) s
    = (inl (NameError "_generateGidSQL"), s).
Proof.
  split; [apply shard_lock_eq|].
  erewrite transaction_raised by (rewrite shard_lock_eq; reflexivity).
  destruct s as [[t lid aff ong] flag]. reflexivity.
Qed.

(** X17. [_getHostShard] caches one shard per host.  For an index that
    [DATABASE_HOSTS] has, it returns the handle of that host and the
    store's database name; the shard object of every handle (its flag and
    the state of its connection) is what it was before the call; and calling
    it again returns the same handle and changes nothing.  For an index out
    of range it raises [IndexError] and changes nothing. *)
Theorem getHostShard_caches hosts hostindex st :
  match py_index hosts hostindex with
  | Some host =>
      ∃ st',
        EdgeStore._getHostShard hosts hostindex st
        = (inr (host, EdgeStore._dbname (EdgeStore.self st)), st')
        ∧ (∀ h, EdgeStore.shard h st' = EdgeStore.shard h st)
        ∧ EdgeStore._getHostShard hosts hostindex st'
          = (inr (host, EdgeStore._dbname (EdgeStore.self st)), st')
  | None => EdgeStore._getHostShard hosts hostindex st = (inl IndexError, st)
  end.
Proof.
  destruct (py_index hosts hostindex) as [host|] eqn:Hhost;
    [|by apply getHostShard_out_of_range].
  destruct (getHostShard_in_range hosts hostindex host st Hhost)
    as (st' & Hrun & Hsame & Hshard & Hconn & Hname & _).
  exists st'. split; [exact Hrun|]. split; [exact Hsame|].
  rewrite <- Hname in Hshard, Hconn |- *.
  exact (getHostShard_cached hosts hostindex host st' Hhost Hshard Hconn).
Qed.

(** X18. The façade [query] never returns a row.  With both [gid1] and
    [colo] it fails its assertion; with one of them it raises
    [AttributeError] while resolving the shard; with neither it raises
    [NameError] on the first host, [indextype] being bound nowhere, and
    returns the empty list only when there is no host at all. *)
Theorem facade_query_never_returns_rows hosts edgetype index gid1 colo st :
  (EdgeStore.query hosts edgetype index gid1 colo st).1
  = if truthy_opt gid1 && truthy_opt colo
    then inl (AssertionError "cannot query with both parent gid and colo")
    else if truthy_opt colo || truthy_opt gid1
    then inl (AttributeError "NUM_HOSTS")
    else match hosts with
         | [] => inr []
         | _ :: _ => inl (NameError "indextype")
         end.
Proof.
  unfold EdgeStore.query.
  destruct (truthy_opt gid1) eqn:Hgid, (truthy_opt colo) eqn:Hcolo; cbn [negb andb orb];
    try reflexivity.
  destruct hosts as [|host rest]; [reflexivity|].
  unfold bind at 1, assert, ret. unfold bind at 1.
  rewrite NUM_HOSTS_is_bound_with_underscore. rewrite Nat2Z.id. cbn [length seq].
  unfold bind at 1.
  destruct (getHostShard_in_range (host :: rest) (Z.of_nat 0) host st eq_refl)
    as (st' & -> & _).
  reflexivity.
Qed.

(** X19. The façade [generateGid] returns no identifier, whatever its
    arguments: it fails its assertion when both are given, raises
    [AttributeError] while resolving the shard when a colocation is given or
    inherited from [colo_gid], and otherwise raises [NameError], [random]
    not being imported.  The store is unchanged. *)
Theorem facade_generateGid_always_raises hosts random_colo colo_gid colo st :
  EdgeStore.generateGid hosts random_colo colo_gid colo st
  = (inl (if truthy_opt colo_gid && truthy_opt colo
          then AssertionError "cannot specify both colo and colo_gid"
          else if truthy_opt colo
                  || truthy_opt colo_gid && truthy (EdgeStore.colo (default 0 colo_gid))
          then AttributeError "NUM_HOSTS"
          else NameError "random"), st).
Proof.
  unfold EdgeStore.generateGid.
  destruct (truthy_opt colo_gid) eqn:Hgid, (truthy_opt colo) eqn:Hcolo; cbn [negb andb orb];
    try reflexivity.
  - cbn [truthy_opt]. destruct (truthy (EdgeStore.colo (default 0 colo_gid))); reflexivity.
  - unfold bind, assert, ret. rewrite Hgid. reflexivity.
Qed.

(** ** Identifiers *)

(** X20. Identifiers composed as [generateGid] composes them, the
    colocation shifted left by 32 plus a counter below [2^32]: [colo]
    recovers the colocation, and two identifiers are equal only if they have
    the same colocation and the same counter. *)
Theorem composed_gid_determines_colo C C' counter counter' :
  0 ≤ counter < 2 ^ 32 →
  0 ≤ counter' < 2 ^ 32 →
  EdgeStore.colo (Z.shiftl C 32 + counter) = C
  ∧ (Z.shiftl C 32 + counter = Z.shiftl C' 32 + counter' → C = C' ∧ counter = counter').
Proof.
  intros Hc Hc'. split; [by apply colo_of_composed|by apply composed_gid_injective].
Qed.

Lemma composed_gid_determines_colo_witness :
  EdgeStore.colo (Z.shiftl 5 32 + 2) = 5
  ∧ (Z.shiftl 5 32 + 2 = Z.shiftl 6 32 + 1 → 5 = 6 ∧ 2 = 1).
Proof. apply (composed_gid_determines_colo 5 6 2 1); lia. Defined.
